(** * Pepsico-man: scene deserialization, the player controller and the
      level-selection fade-in

    A shallow embedding of
    - [World::deserialize]                  (source/common/ecs/world.cpp),
    - [FreeCameraControllerSystem::update]  (free-camera-controller system),
    - the fade-in of [LevelsState::onDraw]  (levels state),
    together with the properties stated about them, and of
    - [generateRandomNumber] and the occupancy grid (world.cpp),
    - [FreeCameraControllerSystem::exit],
    - the buttons, the shortcuts and the hover cue of [LevelsState],
    - the fragment shaders textured.frag and vignette.frag.

    Numbers.  The C++ code computes with [float].  Here a [float] is an
    exact rational ([Q]): every operation of the source is kept, with the
    same operands in the same order, but rounding, infinities and NaN are
    not modelled.  Decimal constants such as [0.99f] have their decimal
    value; pi has the value of the float constant.  Equalities between computed values are stated with
    Leibniz equality when the two sides are the same expression and with
    [==] when arithmetic is needed.

    Pointers.  An [Entity*] is the index of the entity in the world's list
    of entities, in creation order; [nullptr] is [None]. *)

From Stdlib Require Import QArith Qround Qabs Lqa ZArith Lia List String Bool.
From stdpp Require Import base list.
Import ListNotations.

Open Scope Q_scope.

(* ================================================================== *)
(** * Numbers and vectors *)
(* ================================================================== *)

Definition float := Q.

(** [a < b], [a <= b], [a > b], [a >= b] on floats, as booleans. *)
Definition fle (a b : float) : bool := Qle_bool a b.
Definition flt (a b : float) : bool := negb (Qle_bool b a).
Definition fge (a b : float) : bool := fle b a.
Definition fgt (a b : float) : bool := flt b a.

(** [(int) f]: conversion of a float to [int] drops the fraction. *)
Definition to_int (f : float) : Z := Z.quot (Qnum f) (Z.pos (Qden f)).

(** [(bool) f]: a float is true when it is not zero. *)
Definition to_bool (f : float) : bool := negb (Qeq_bool f 0).

(** [float(i)] *)
Definition of_int (i : Z) : float := inject_Z i.

(** glm::vec3, glm::vec4 and glm::mat4 (column major). *)
Record vec3 := Vec3 { vx : float; vy : float; vz : float }.
Record vec4 := Vec4 { wx : float; wy : float; wz : float; ww : float }.
Record mat4 := Mat4 { col0 : vec4; col1 : vec4; col2 : vec4; col3 : vec4 }.

Definition vadd (a b : vec3) : vec3 :=
  Vec3 (vx a + vx b) (vy a + vy b) (vz a + vz b).
Definition vsub (a b : vec3) : vec3 :=
  Vec3 (vx a - vx b) (vy a - vy b) (vz a - vz b).
Definition vneg (a : vec3) : vec3 := Vec3 (- vx a) (- vy a) (- vz a).
Definition vscale (a : vec3) (k : float) : vec3 :=
  Vec3 (vx a * k) (vy a * k) (vz a * k).

(** [m * v] for a column-major matrix. *)
Definition mat_mul_vec (m : mat4) (v : vec4) : vec4 :=
  let c0 := col0 m in let c1 := col1 m in
  let c2 := col2 m in let c3 := col3 m in
  Vec4 (wx c0 * wx v + wx c1 * wy v + wx c2 * wz v + wx c3 * ww v)
       (wy c0 * wx v + wy c1 * wy v + wy c2 * wz v + wy c3 * ww v)
       (wz c0 * wx v + wz c1 * wy v + wz c2 * wz v + wz c3 * ww v)
       (ww c0 * wx v + ww c1 * wy v + ww c2 * wz v + ww c3 * ww v).

(** [glm::vec3(v4)] keeps the first three coordinates. *)
Definition vec3_of_vec4 (v : vec4) : vec3 := Vec3 (wx v) (wy v) (wz v).

(** Equality of vectors up to the value of their coordinates. *)
Definition veq (a b : vec3) : Prop :=
  vx a == vx b /\ vy a == vy b /\ vz a == vz b.

(* ================================================================== *)
(** * Entities, components and the world *)
(* ================================================================== *)

Record Transform := mkTransform {
  position : vec3;
  rotation : vec3;
  scale : vec3
}.

(** The fields of the components that the controller reads or writes. *)
Record CameraComponent := mkCamera { fovY : float }.
Record FreeCameraControllerComponent := mkController {
  fovSensitivity : float;
  positionSensitivity : vec3
}.
Record PlayerComponent := mkPlayer { speed : float }.

(** Modelled from the spec: the entity record of entity.hpp, which is not
    among the sources: a parent pointer, a local transform and "a mapping
    from component type to at most one component instance", here one
    optional field for each component type the modelled code asks for. *)
Record Entity := mkEntity {
  name : string;
  parent : option nat;
  localTransform : Transform;
  camera : option CameraComponent;
  controller : option FreeCameraControllerComponent;
  player : option PlayerComponent
}.

Record World := mkWorld {
  entities : list Entity;
  level : Z
}.

Definition zero3 : vec3 := Vec3 0 0 0.
Definition one3 : vec3 := Vec3 1 1 1.

(** A freshly constructed entity. *)
Definition new_Entity : Entity :=
  mkEntity EmptyString None (mkTransform zero3 zero3 one3) None None None.

(** Modelled from the spec: [World::add] of world.hpp, which is not among
    the sources: it creates an entity, gives the world its ownership and
    returns its pointer. *)
Definition add (w : World) : nat * World :=
  (length (entities w), mkWorld (entities w ++ [new_Entity]) (level w)).

(** Writes through an [Entity*]. *)
Definition update_entity (f : Entity -> Entity) (e : nat) (w : World) : World :=
  match entities w !! e with
  | Some ent => mkWorld (<[e := f ent]> (entities w)) (level w)
  | None => w
  end.

Definition set_parent (p : option nat) (ent : Entity) : Entity :=
  mkEntity (name ent) p (localTransform ent)
           (camera ent) (controller ent) (player ent).

Definition set_localTransform (t : Transform) (ent : Entity) : Entity :=
  mkEntity (name ent) (parent ent) t
           (camera ent) (controller ent) (player ent).

Definition set_position (p : vec3) (t : Transform) : Transform :=
  mkTransform p (rotation t) (scale t).
Definition set_rotation (r : vec3) (t : Transform) : Transform :=
  mkTransform (position t) r (scale t).

Definition set_x (a : float) (v : vec3) : vec3 := Vec3 a (vy v) (vz v).
Definition set_y (a : float) (v : vec3) : vec3 := Vec3 (vx v) a (vz v).
Definition set_z (a : float) (v : vec3) : vec3 := Vec3 (vx v) (vy v) a.

(** [e->localTransform.position = f(e->localTransform.position)] *)
Definition map_position (f : vec3 -> vec3) (ent : Entity) : Entity :=
  set_localTransform
    (set_position (f (position (localTransform ent))) (localTransform ent)) ent.
Definition map_rotation (f : vec3 -> vec3) (ent : Entity) : Entity :=
  set_localTransform
    (set_rotation (f (rotation (localTransform ent))) (localTransform ent)) ent.

(* ================================================================== *)
(** * JSON *)
(* ================================================================== *)

#[local] Unset Elimination Schemes.
Inductive json :=
| Jnull
| Jbool (b : bool)
| Jnum (q : Q)
| Jstr (s : string)
| Jarr (items : list json)
| Jobj (fields : list (string * json)).
#[local] Set Elimination Schemes.

Fixpoint assoc (key : string) (fs : list (string * json)) : option json :=
  match fs with
  | [] => None
  | (k, v) :: fs' => if String.eqb k key then Some v else assoc key fs'
  end.

(** [j.contains(key)]: false when [j] is not an object. *)
Definition contains (key : string) (j : json) : bool :=
  match j with
  | Jobj fs => match assoc key fs with Some _ => true | None => false end
  | _ => false
  end.

(** [j[key]] for an object that has the key. *)
Definition at_key (key : string) (j : json) : option json :=
  match j with
  | Jobj fs => assoc key fs
  | _ => None
  end.

(** [j.get<float>()]: numbers convert, booleans convert to 0 and 1, anything
    else throws (here [None]). *)
Definition get_float (j : json) : option float :=
  match j with
  | Jnum q => Some q
  | Jbool b => Some (if b then 1 else 0)
  | _ => None
  end.

(** Modelled from the spec: the conversion of a JSON value to [glm::vec3] of
    deserialize-utils.hpp, which is not among the sources: the "3-tuple
    [count, spacing, useRandomLane]" is an array whose first three items
    are read as floats. *)
Definition get_vec3 (j : json) : option vec3 :=
  match j with
  | Jarr (a :: b :: c :: _) =>
      match get_float a, get_float b, get_float c with
      | Some a, Some b, Some c => Some (Vec3 a b c)
      | _, _, _ => None
      end
  | _ => None
  end.

(* ================================================================== *)
(** * World::deserialize *)
(* ================================================================== *)

Definition ENTITIES_UPPER_LIMIT : Z := 400.
Definition SLICE_SIZE : Z := 13.

(** What a run of the loader ends with: a value, the exception of a JSON
    conversion, or the search for a free cell still running when the
    finite list of random numbers given to the run is used up. *)
Inductive outcome (A : Type) :=
| Done (a : A)
| Thrown
| Starved.
Arguments Done {A} a.
Arguments Thrown {A}.
Arguments Starved {A}.

Definition bind {A B} (r : outcome A) (k : A -> outcome B) : outcome B :=
  match r with
  | Done a => k a
  | Thrown => Thrown
  | Starved => Starved
  end.

(** [x ← r; k] runs [k] on the value of [r] and passes on what else [r]
    ends with. *)
#[global] Instance outcome_bind : MBind outcome := fun A B k r => bind r k.

(** An entry of the ghost log: the entity [who] was assigned the cell
    ([row], [column]). *)
Record Placement := mkPlacement { who : nat; row : Z; column : Z }.

(** The state deserialization works on: the world [this], the global occupancy
    grid [entityMap], and the values the next calls of [rand()] return
    ([rand()] gives a value between 0 and RAND_MAX).  [placed] is a ghost
    field, a log the code does not have: the assignments of line 52, latest
    first. *)
Record Loader := mkLoader {
  this : World;
  entityMap : list (list bool);
  randoms : list N;
  placed : list Placement
}.

(** [std::vector<std::vector<bool>> entityMap(ENTITIES_UPPER_LIMIT,
    std::vector<bool>(7, false))] *)
Definition entityMap_init : list (list bool) :=
  replicate (Z.to_nat ENTITIES_UPPER_LIMIT) (replicate 7%nat false).

(** [entityMap[vertical][horizontal]].  (The source does not check the
    indices; the loader only uses indices inside the grid, see
    [random_cell_in_grid].) *)
Definition occupied (m : list (list bool)) (vertical horizontal : Z) : bool :=
  match m !! Z.to_nat vertical with
  | Some row => default false (row !! Z.to_nat horizontal)
  | None => false
  end.

(** [entityMap[vertical][horizontal] = true] *)
Definition occupy (m : list (list bool)) (vertical horizontal : Z)
  : list (list bool) :=
  match m !! Z.to_nat vertical with
  | Some row => <[Z.to_nat vertical := <[Z.to_nat horizontal := true]> row]> m
  | None => m
  end.

(** [rand() % (max - min + 1) + min] for the value [r] of [rand()]. *)
Definition randomNumber (min max : Z) (r : N) : Z :=
  Z.rem (Z.of_N r) (max - min + 1) + min.

(** [generateRandomNumber(min, max)], with the values of [rand()] to come. *)
Definition generateRandomNumber (min max : Z) (rs : list N)
  : outcome (Z * list N) :=
  match rs with
  | [] => Starved
  | r :: rs' => Done (randomNumber min max r, rs')
  end.

(** The loop [while (entityMap[vertical][horizontal]) { horizontal = ...;
    vertical = ...; }]: each round draws two numbers. *)
Fixpoint while_occupied (m : list (list bool)) (horizontal vertical : Z)
    (rs : list N) {struct rs} : outcome (Z * Z * list N) :=
  if occupied m vertical horizontal then
    match rs with
    | r1 :: rs1 =>
        match rs1 with
        | r2 :: rs2 =>
            while_occupied m (randomNumber 0 6 r1)
              (randomNumber 0 (ENTITIES_UPPER_LIMIT - 1) r2) rs2
        | [] => Starved
        end
    | [] => Starved
    end
  else Done (horizontal, vertical, rs).

Section Deserialize.

(** What [Entity::deserialize] (entity.cpp, not among the sources) reads
    from a description into an entity. *)
Variable readEntity : json -> Entity -> Entity.

(** Modelled from the spec: [Entity::deserialize], which is not among the
    sources: "generic entity deserialization" fills the name, the local
    transform and the components from the description; it does not
    assign the parent pointer. *)
Definition Entity_deserialize (data : json) (ent : Entity) : Entity :=
  set_parent (parent ent) (readEntity data ent).

(** A change of the world alone. *)
Definition on_world (f : World -> World) (s : Loader) : Loader :=
  mkLoader (f (this s)) (entityMap s) (randoms s) (placed s).

(** [Entity *e = add(); e->parent = parent; e->deserialize(entityData);] *)
Definition create (entityData : json) (parent : option nat) (s : Loader)
  : nat * Loader :=
  let '(newEntity, w) := add (this s) in
  let w := update_entity (set_parent parent) newEntity w in
  let w := update_entity (Entity_deserialize entityData) newEntity w in
  (newEntity, mkLoader w (entityMap s) (randoms s) (placed s)).

(** The random branch of the body of the duplicates loop. *)
Definition place_random (e : nat) (s : Loader) : outcome Loader :=
  '(horizontal, rs) ← generateRandomNumber 0 6 (randoms s);
  '(vertical, rs) ← generateRandomNumber 0 (ENTITIES_UPPER_LIMIT - 1) rs;
  '(horizontal, vertical, rs) ←
      while_occupied (entityMap s) horizontal vertical rs;
  let m := occupy (entityMap s) vertical horizontal in
  let w := update_entity
             (map_position (fun p =>
                set_x (vx p + (- of_int vertical) * of_int SLICE_SIZE) p))
             e (this s) in
  let w := update_entity
             (map_position (fun p =>
                set_z (- (75 # 10) + of_int horizontal * (25 # 10)) p))
             e w in
  Done (mkLoader w m rs (mkPlacement e vertical horizontal :: placed s)).

(** The linear branch. *)
Definition place_linear (i : Z) (duplicates : vec3) (e : nat) (s : Loader)
  : Loader :=
  on_world
    (update_entity
       (map_position (fun p =>
          set_x (vx p + (- of_int i) * vy duplicates) p)) e) s.

(** [for (int i = 1; i < (int) duplicates[0]; ++i) { ... }], with [todo]
    the number of rounds left. *)
Fixpoint duplicate_loop (todo : nat) (i : Z) (entityData : json)
    (duplicates : vec3) (parent : option nat) (s : Loader)
    : outcome Loader :=
  match todo with
  | O => Done s
  | S todo' =>
      let '(newDuplicateEntity, s) := create entityData parent s in
      s ← (if to_bool (vz duplicates)
           then place_random newDuplicateEntity s
           else Done (place_linear i duplicates newDuplicateEntity s));
      duplicate_loop todo' (i + 1) entityData duplicates parent s
  end.

(** [if (entityData.contains("duplicates")) { ... }] *)
Definition duplicate_entities (entityData : json) (parent : option nat)
    (s : Loader) : outcome Loader :=
  if contains "duplicates" entityData then
    match at_key "duplicates" entityData with
    | Some d =>
        match get_vec3 d with
        | Some duplicates =>
            duplicate_loop (Z.to_nat (to_int (vx duplicates) - 1)) 1
              entityData duplicates parent s
        | None => Thrown
        end
    | None => Thrown
    end
  else Done s.

(** [World::deserialize(data, parent)], lines 24-63: nothing for a value
    that is not an array; for each description of an array the entity,
    then its children with the entity as parent, then its duplicates. *)
Fixpoint deserialize (data : json) (parent : option nat) (s : Loader)
    {struct data} : outcome Loader :=
  match data with
  | Jarr items =>
      (fix each (items : list json) (s : Loader) {struct items}
         : outcome Loader :=
         match items with
         | [] => Done s
         | entityData :: rest =>
             let '(newEntity, s) := create entityData parent s in
             s ← match entityData with
                  | Jobj fields =>
                      (fix children (fs : list (string * json))
                         : outcome Loader :=
                         match fs with
                         | [] => Done s
                         | (k, v) :: fs' =>
                             if String.eqb k "children"
                             then deserialize v (Some newEntity) s
                             else children fs'
                         end) fields
                  | _ => Done s
                  end;
             s ← duplicate_entities entityData parent s;
             each rest s
         end) items s
  | _ => Done s
  end.

(** The same function, one description at a time (see
    [deserialize_array]): lines 32-37, *)
Definition deserialize_children (entityData : json) (newEntity : nat)
    (s : Loader) : outcome Loader :=
  if contains "children" entityData then
    match at_key "children" entityData with
    | Some c => deserialize c (Some newEntity) s
    | None => Done s
    end
  else Done s.

(** the body of the loop of line 27, *)
Definition deserialize_entity (entityData : json) (parent : option nat)
    (s : Loader) : outcome Loader :=
  let '(newEntity, s) := create entityData parent s in
  s ← deserialize_children entityData newEntity s;
  duplicate_entities entityData parent s.

(** and the loop. *)
Fixpoint deserialize_each (items : list json) (parent : option nat)
    (s : Loader) : outcome Loader :=
  match items with
  | [] => Done s
  | entityData :: rest =>
      s ← deserialize_entity entityData parent s;
      deserialize_each rest parent s
  end.

End Deserialize.

(* ================================================================== *)
(** * FreeCameraControllerSystem *)
(* ================================================================== *)

Inductive JumpState := JUMPING | FALLING | GROUNDED.
Inductive SlideState := Slided | NORMAL.

(** [our::MotionState] is declared in a header that is not among the
    sources; the code names [RUNNING] only, [RESTING] is any other value. *)
Inductive MotionState := RUNNING | RESTING.

Inductive Key :=
| GLFW_KEY_W | GLFW_KEY_S | GLFW_KEY_Q | GLFW_KEY_E
| GLFW_KEY_SPACE | GLFW_KEY_UP | GLFW_KEY_DOWN | GLFW_KEY_ENTER
| GLFW_KEY_D | GLFW_KEY_RIGHT | GLFW_KEY_A | GLFW_KEY_LEFT.

(** What [update] reads from the application in one frame. *)
Record Application := mkApplication {
  isPressed : Key -> bool;          (* getKeyboard().isPressed(key) *)
  mousePressed : bool;              (* getMouse().isPressed(GLFW_MOUSE_BUTTON_1) *)
  scrollOffset_y : float;           (* getMouse().getScrollOffset().y *)
  levelState : Z
}.

Record FreeCameraControllerSystem := mkSystem {
  mouse_locked : bool;
  slideTime : float;
  jumpState : JumpState;
  slideState : SlideState
}.

(** A system as constructed. *)
Definition new_System : FreeCameraControllerSystem :=
  mkSystem false 0 GROUNDED NORMAL.

(** Everything a call of [update] can change: the world, the fields of the
    system, the two reference arguments [motionState] and [isSlided], and
    the lock of the pointer held by the window ([lockMouse],
    [unlockMouse]). *)
Record State := mkState {
  world : World;
  system : FreeCameraControllerSystem;
  motionState : MotionState;
  isSlided : bool;
  pointerLocked : bool
}.

Definition with_world (f : World -> World) (st : State) : State :=
  mkState (f (world st)) (system st) (motionState st) (isSlided st)
          (pointerLocked st).
Definition with_system (f : FreeCameraControllerSystem -> FreeCameraControllerSystem)
    (st : State) : State :=
  mkState (world st) (f (system st)) (motionState st) (isSlided st)
          (pointerLocked st).
Definition set_motionState (m : MotionState) (st : State) : State :=
  mkState (world st) (system st) m (isSlided st) (pointerLocked st).
Definition set_isSlided (b : bool) (st : State) : State :=
  mkState (world st) (system st) (motionState st) b (pointerLocked st).
Definition set_pointerLocked (b : bool) (st : State) : State :=
  mkState (world st) (system st) (motionState st) (isSlided st) b.

Definition set_mouse_locked (b : bool) (s : FreeCameraControllerSystem) :=
  mkSystem b (slideTime s) (jumpState s) (slideState s).
Definition set_slideTime (t : float) (s : FreeCameraControllerSystem) :=
  mkSystem (mouse_locked s) t (jumpState s) (slideState s).
Definition set_jumpState (j : JumpState) (s : FreeCameraControllerSystem) :=
  mkSystem (mouse_locked s) (slideTime s) j (slideState s).
Definition set_slideState (sl : SlideState) (s : FreeCameraControllerSystem) :=
  mkSystem (mouse_locked s) (slideTime s) (jumpState s) sl.

Definition is_GROUNDED (j : JumpState) : bool :=
  match j with GROUNDED => true | _ => false end.
Definition is_NORMAL (sl : SlideState) : bool :=
  match sl with NORMAL => true | _ => false end.
Definition is_RUNNING (m : MotionState) : bool :=
  match m with RUNNING => true | _ => false end.

(** Reads through an [Entity*]. *)
Definition entity_at (w : World) (e : nat) : Entity :=
  default new_Entity (entities w !! e).
Definition position_of (st : State) (e : nat) : vec3 :=
  position (localTransform (entity_at (world st) e)).
Definition rotation_of (st : State) (e : nat) : vec3 :=
  rotation (localTransform (entity_at (world st) e)).

(** Writes through the references [position], [rotation], [playerPosition],
    [playerRotation] and [cameraPosition], which all point into the world. *)
Definition write_position (f : vec3 -> vec3) (e : nat) (st : State) : State :=
  with_world (update_entity (map_position f) e) st.
Definition write_rotation (f : vec3 -> vec3) (e : nat) (st : State) : State :=
  with_world (update_entity (map_rotation f) e) st.

Definition set_fovY (f : float) (ent : Entity) : Entity :=
  mkEntity (name ent) (parent ent) (localTransform ent)
           (option_map (fun _ => mkCamera f) (camera ent))
           (controller ent) (player ent).

(** ** glm *)

(** [glm::pi<float>()]: the float nearest to pi, 0x40490FDB.  Its half and
    its double are the floats [half_pi<float>()] and [two_pi<float>()]. *)
Definition pi : float := 13176795 # 4194304.
Definition half_pi : float := 13176795 # 8388608.
Definition two_pi : float := 13176795 # 2097152.

Definition fmin (a b : float) : float := if flt b a then b else a.
Definition fmax (a b : float) : float := if flt a b then b else a.
(** [glm::clamp(x, lo, hi)] is [min(max(x, lo), hi)]. *)
Definition clamp (a lo hi : float) : float := fmin (fmax a lo) hi.
(** [glm::mod(a, b)] is [a - b * floor(a / b)]. *)
Definition fmod (a b : float) : float := a - b * inject_Z (Qfloor (a / b)).
(** [glm::wrapAngle(angle)] is [abs(mod(angle, two_pi))]. *)
Definition wrapAngle (angle : float) : float := Qabs (fmod angle two_pi).
(** [glm::smoothstep(edge0, edge1, x)] *)
Definition smoothstep (edge0 edge1 a : float) : float :=
  let tmp := clamp ((a - edge0) / (edge1 - edge0)) 0 1 in
  tmp * tmp * (3 - 2 * tmp).

(** Lines 155-156. *)
Definition jumpSpeed : float := 6.
Definition jumpMaxHeight : float := 4.

(** ** The search for the camera, the controller and the player *)

(** [entity->getComponent<T>()], as the owner of the component found. *)
Definition getComponent {T} (field : Entity -> option T) (i : nat)
    (entity : Entity) : option nat :=
  match field entity with Some _ => Some i | None => None end.

(** The first loop: [camera] and [controller] are assigned at every entity,
    and the loop stops at the first entity that has both. *)
Fixpoint find_camera (es : list Entity) (i : nat)
    (cam ctl : option nat) : option nat * option nat :=
  match es with
  | [] => (cam, ctl)
  | entity :: rest =>
      let cam := getComponent camera i entity in
      let ctl := getComponent controller i entity in
      if bool_decide (is_Some cam) && bool_decide (is_Some ctl)
      then (cam, ctl)
      else find_camera rest (S i) cam ctl
  end.

(** The second loop. *)
Fixpoint find_player (es : list Entity) (i : nat) (pl : option nat)
    : option nat :=
  match es with
  | [] => pl
  | entity :: rest =>
      let pl := getComponent player i entity in
      if bool_decide (is_Some pl) then pl else find_player rest (S i) pl
  end.

(** ** update *)

Section Update.

(** [Transform::toMat4] (transform.cpp, not among the sources) builds the
    matrix of a transform from sines and cosines of its rotation. *)
Variable toMat4 : Transform -> mat4.

Definition front (m : mat4) : vec3 :=
  vec3_of_vec4 (mat_mul_vec m (Vec4 0 0 (-1) 0)).
Definition up (m : mat4) : vec3 :=
  vec3_of_vec4 (mat_mul_vec m (Vec4 0 1 0 0)).
Definition right (m : mat4) : vec3 :=
  vec3_of_vec4 (mat_mul_vec m (Vec4 1 0 0 0)).

(** Lines 94-101: the pointer is locked while the left button is down. *)
Definition lock_mouse (app : Application) (st : State) : State :=
  if mousePressed app && negb (mouse_locked (system st)) then
    with_system (set_mouse_locked true) (set_pointerLocked true st)
  else if negb (mousePressed app) && mouse_locked (system st) then
    with_system (set_mouse_locked false) (set_pointerLocked false st)
  else st.

(** Lines 104-107. *)
Definition clamp_pitch (cameraEntity : nat) (st : State) : State :=
  let st :=
    if flt (vx (rotation_of st cameraEntity)) (- half_pi * (99 # 100))
    then write_rotation (set_x (- half_pi * (99 # 100))) cameraEntity st
    else st in
  if fgt (vx (rotation_of st cameraEntity)) (half_pi * (99 # 100))
  then write_rotation (set_x (half_pi * (99 # 100))) cameraEntity st
  else st.

(** Line 111. *)
Definition wrap_yaw (cameraEntity : nat) (st : State) : State :=
  write_rotation (fun r => set_y (wrapAngle (vy r)) r) cameraEntity st.

(** Lines 114-117. *)
Definition update_fov (app : Application) (cameraEntity : nat) (st : State)
  : State :=
  let ent := entity_at (world st) cameraEntity in
  match camera ent, controller ent with
  | Some cam, Some ctl =>
      let fov := fovY cam + scrollOffset_y app * fovSensitivity ctl in
      let fov := clamp fov (pi * (1 # 100)) (pi * (99 # 100)) in
      with_world (update_entity (set_fovY fov) cameraEntity) st
  | _, _ => st
  end.

(** Lines 141-151: W, S, Q and E move the camera. *)
Definition move_keys (app : Application) (deltaTime : float)
    (cameraEntity : nat) (cameraFront cameraUp current_sensitivity : vec3)
    (st : State) : State :=
  let st :=
    if isPressed app GLFW_KEY_W
    then write_position (fun p =>
           vadd p (vscale cameraFront (deltaTime * vz current_sensitivity)))
           cameraEntity st
    else st in
  let st :=
    if isPressed app GLFW_KEY_S
    then write_position (fun p =>
           vsub p (vscale cameraFront (deltaTime * vz current_sensitivity)))
           cameraEntity st
    else st in
  let st :=
    if isPressed app GLFW_KEY_Q
    then write_position (fun p =>
           vadd p (vscale cameraUp (deltaTime * vy current_sensitivity)))
           cameraEntity st
    else st in
  if isPressed app GLFW_KEY_E
  then write_position (fun p =>
         vadd p (vscale (vneg cameraUp) (deltaTime * vy current_sensitivity)))
         cameraEntity st
  else st.

(** Lines 157-170: the jump starts. *)
Definition jump_start (app : Application) (deltaTime : float)
    (cameraEntity : nat) (st : State) : State :=
  if (isPressed app GLFW_KEY_SPACE || isPressed app GLFW_KEY_UP)
     && negb (levelState app =? 3)%Z
  then
    if is_GROUNDED (jumpState (system st))
       && is_NORMAL (slideState (system st))
    then
      let st := with_system (set_jumpState JUMPING) st in
      write_position (fun p => set_y (vy p + deltaTime * jumpSpeed) p)
        cameraEntity st
    else st
  else st.

(** Lines 172-184: the height decides the state. *)
Definition jump_switch (cameraEntity : nat) (st : State) : State :=
  if fge (vy (position_of st cameraEntity)) jumpMaxHeight then
    with_system (set_jumpState FALLING) st
  else if fle (vy (position_of st cameraEntity)) 1 then
    with_system (set_jumpState GROUNDED) st
  else st.

(** Lines 187-195: the state decides the height. *)
Definition jump_move (deltaTime : float) (cameraEntity : nat) (st : State)
  : State :=
  match jumpState (system st) with
  | JUMPING =>
      write_position (fun p => set_y (vy p + deltaTime * jumpSpeed) p)
        cameraEntity st
  | FALLING =>
      write_position (fun p => set_y (vy p - deltaTime * jumpSpeed) p)
        cameraEntity st
  | GROUNDED =>
      write_position (set_y 1) cameraEntity st
  end.

Definition jump (app : Application) (deltaTime : float)
    (cameraEntity : nat) (st : State) : State :=
  jump_move deltaTime cameraEntity
    (jump_switch cameraEntity (jump_start app deltaTime cameraEntity st)).

(** Lines 198-215: the slide starts. *)
Definition slide_start (app : Application) (playerEntity : nat)
    (st : State) : State :=
  if (isPressed app GLFW_KEY_S || isPressed app GLFW_KEY_DOWN)
     && negb (levelState app =? 3)%Z
  then
    if is_NORMAL (slideState (system st))
       && is_GROUNDED (jumpState (system st))
    then
      let st := set_isSlided true st in
      let st := with_system (set_slideState Slided) st in
      let st := write_rotation (fun r => set_x (vx r - 90) r) playerEntity st in
      let st := write_position (fun p => set_z (vz p - 1) p) playerEntity st in
      let st := write_position (fun p => set_y (vy p + 1) p) playerEntity st in
      with_system (set_slideTime 0) st
    else st
  else st.

(** Lines 216-229: the slide goes on and ends.  ([actualposition] is
    computed there and never read.) *)
Definition slide_end (deltaTime : float) (playerEntity : nat) (st : State)
  : State :=
  match slideState (system st) with
  | Slided =>
      let st :=
        with_system (fun s => set_slideTime (slideTime s + deltaTime) s) st in
      let st := set_isSlided true st in
      if fge (slideTime (system st)) (deltaTime * 50) then
        let st := set_isSlided false st in
        let st := with_system (set_slideState NORMAL) st in
        let st := write_position (fun p => set_y (vy p - 1) p) playerEntity st in
        let st := write_position (fun p => set_z (vz p + 1) p) playerEntity st in
        write_rotation (fun r => set_x (vx r + 90) r) playerEntity st
      else st
  | NORMAL => st
  end.

Definition slide (app : Application) (deltaTime : float)
    (playerEntity : nat) (st : State) : State :=
  slide_end deltaTime playerEntity (slide_start app playerEntity st).

(** Lines 232-237. *)
Definition run (app : Application) (deltaTime : float) (cameraEntity : nat)
    (cameraFront : vec3) (st : State) : State :=
  let st :=
    if isPressed app GLFW_KEY_ENTER then set_motionState RUNNING st else st in
  if is_RUNNING (motionState st)
  then write_position (fun p => vadd p (vscale cameraFront (deltaTime * 20)))
         cameraEntity st
  else st.

(** [player->speed] *)
Definition player_speed (st : State) (playerEntity : nat) : float :=
  match player (entity_at (world st) playerEntity) with
  | Some pl => speed pl
  | None => 0
  end.

(** [cameraPosition -= cameraRight * (deltaTime * player->speed)] and
    [cameraPosition += cameraRight * (deltaTime * player->speed)]. *)
Definition step_left (deltaTime : float) (cameraEntity playerEntity : nat)
    (cameraRight : vec3) (st : State) : State :=
  write_position (fun p =>
    vsub p (vscale cameraRight (deltaTime * player_speed st playerEntity)))
    cameraEntity st.
Definition step_right (deltaTime : float) (cameraEntity playerEntity : nat)
    (cameraRight : vec3) (st : State) : State :=
  write_position (fun p =>
    vadd p (vscale cameraRight (deltaTime * player_speed st playerEntity)))
    cameraEntity st.

(** Lines 240-249: D or the right arrow, inside the street. *)
Definition strafe_D (app : Application) (deltaTime : float)
    (cameraEntity playerEntity : nat) (cameraRight : vec3) (st : State)
  : State :=
  if isPressed app GLFW_KEY_D || isPressed app GLFW_KEY_RIGHT then
    if (level (world st) =? 3)%Z then
      if flt (vz (position_of st cameraEntity)) 5
      then step_left deltaTime cameraEntity playerEntity cameraRight st
      else st
    else
      if fgt (vz (position_of st cameraEntity)) (-5)
      then step_right deltaTime cameraEntity playerEntity cameraRight st
      else st
  else st.

(** Lines 250-259: A or the left arrow. *)
Definition strafe_A (app : Application) (deltaTime : float)
    (cameraEntity playerEntity : nat) (cameraRight : vec3) (st : State)
  : State :=
  if isPressed app GLFW_KEY_A || isPressed app GLFW_KEY_LEFT then
    if (level (world st) =? 3)%Z then
      if fgt (vz (position_of st cameraEntity)) (-5)
      then step_right deltaTime cameraEntity playerEntity cameraRight st
      else st
    else
      if flt (vz (position_of st cameraEntity)) 5
      then step_left deltaTime cameraEntity playerEntity cameraRight st
      else st
  else st.

Definition strafe (app : Application) (deltaTime : float)
    (cameraEntity playerEntity : nat) (cameraRight : vec3) (st : State)
  : State :=
  strafe_A app deltaTime cameraEntity playerEntity cameraRight
    (strafe_D app deltaTime cameraEntity playerEntity cameraRight st).

(** [controller->positionSensitivity] *)
Definition sensitivity (st : State) (cameraEntity : nat) : vec3 :=
  match controller (entity_at (world st) cameraEntity) with
  | Some ctl => positionSensitivity ctl
  | None => zero3
  end.

(** The body of [update] once the camera and the player are found.  (The
    player's matrix and axes of lines 120-125 are computed and never
    read.) *)
Definition update_found (app : Application) (deltaTime : float)
    (cameraEntity playerEntity : nat) (st : State) : State :=
  let st := lock_mouse app st in
  let st := clamp_pitch cameraEntity st in
  let st := wrap_yaw cameraEntity st in
  let st := update_fov app cameraEntity st in
  let cameraMatrix :=
    toMat4 (localTransform (entity_at (world st) cameraEntity)) in
  let cameraFront := front cameraMatrix in
  let cameraUp := up cameraMatrix in
  let cameraRight := right cameraMatrix in
  let current_sensitivity := sensitivity st cameraEntity in
  let st := move_keys app deltaTime cameraEntity cameraFront cameraUp
              current_sensitivity st in
  let st := jump app deltaTime cameraEntity st in
  let st := slide app deltaTime playerEntity st in
  let st := run app deltaTime cameraEntity cameraFront st in
  strafe app deltaTime cameraEntity playerEntity cameraRight st.

Definition update (app : Application) (deltaTime : float) (st : State)
  : State :=
  let '(cam, ctl) := find_camera (entities (world st)) 0 None None in
  let pl := find_player (entities (world st)) 0 None in
  match cam, ctl, pl with
  | Some cameraEntity, Some _, Some playerEntity =>
      update_found app deltaTime cameraEntity playerEntity st
  | _, _, _ => st
  end.

(** The state after the first [k] frames, frame [i] being called with the
    application snapshot and the time step [inputs i]. *)
Fixpoint after (inputs : nat -> Application * float) (k : nat) (st : State)
  : State :=
  match k with
  | O => st
  | S k' => update (fst (inputs k')) (snd (inputs k')) (after inputs k' st)
  end.

End Update.

(** [exit] (lines 263-268): the system gives the pointer back if it holds
    it. *)
Definition exit (st : State) : State :=
  if mouse_locked (system st)
  then set_pointerLocked false (with_system (set_mouse_locked false) st)
  else st.

(* ================================================================== *)
(** * LevelsState *)
(* ================================================================== *)

(** The fields of the state that the fade-in and the hover cue use. *)
Record LevelsState := mkLevelsState {
  time : float;
  menuMaterial_tint : vec4;
  buttonHover : bool
}.

(** [glm::vec4(s)] *)
Definition vec4_of (s : float) : vec4 := Vec4 s s s s.

(** [onInitialize]: the tint starts black, the clock at zero. *)
Definition onInitialize : LevelsState :=
  mkLevelsState 0 (Vec4 0 0 0 0) false.

(** [onDraw]: the fade-in (lines 167-168) and the hover flag (lines 176-193);
    [isHover] tells whether the cursor is inside one of the buttons.  The
    key shortcuts and the button actions change the application, not these
    fields. *)
Definition onDraw (deltaTime : float) (isHover : bool) (s : LevelsState)
  : LevelsState :=
  let time := time s + deltaTime in
  let tint := vec4_of (smoothstep 0 2 time) in
  mkLevelsState time tint isHover.

Fixpoint draws (fs : list (float * bool)) (s : LevelsState) : LevelsState :=
  match fs with
  | [] => s
  | (deltaTime, isHover) :: rest => draws rest (onDraw deltaTime isHover s)
  end.

(** ** The buttons, the shortcuts and the hover cue *)

(** [glm::vec2] *)
Record vec2 := Vec2 { ux : float; uy : float }.

(** The fields of the application that the screen assigns
    ([getApp()->levelState], [countPepsi], [heartCount]), and the state
    that was last asked for. *)
Record Game := mkGame {
  game_levelState : Z;
  countPepsi : Z;
  heartCount : Z;
  nextState : option string
}.

(** Modelled from the spec: [Application::changeState], which is not among
    the sources; the shortcuts and the buttons use it for an "immediate
    start" and a "return to menu", so it is taken to note the state asked
    for. *)
Definition changeState (name : string) (a : Game) : Game :=
  mkGame (game_levelState a) (countPepsi a) (heartCount a) (Some name).

(** The body the three button actions and the space shortcut share:
    [levelState = lvl; countPepsi = 0; heartCount = hearts;
    changeState("play")]. *)
Definition start_level (lvl hearts : Z) (a : Game) : Game :=
  changeState "play" (mkGame lvl 0 hearts (nextState a)).

(** [Button]: position, size and action. *)
Record Button := mkButton {
  button_position : vec2;
  button_size : vec2;
  action : Game -> Game
}.

(** Lines 90-115 of [onInitialize]. *)
Definition buttons : list Button :=
  [ mkButton (Vec2 140 107) (Vec2 275 70) (start_level 1 3);
    mkButton (Vec2 90 300) (Vec2 380 80) (start_level 2 2);
    mkButton (Vec2 140 525) (Vec2 275 70) (start_level 3 1) ].

(** What a frame reads from the keyboard and the mouse. *)
Record Input := mkInput {
  space_justPressed : bool;
  escape_justPressed : bool;
  mouse_justPressed : bool;
  mousePosition : vec2
}.

(** The whole screen: the fields of [LevelsState], the application, and the
    number of times the button sound was started (a ghost counter for
    [soundEngine->play2D("audio/button.mp3")]). *)
Record Screen := mkScreen {
  levels : LevelsState;
  game : Game;
  cues : nat
}.

Section Menu.

(** [Button::isInside] (menu-state.hpp, not among the sources). *)
Variable isInside : Button -> vec2 -> bool.

(** Lines 127-136: space starts level 1, else escape returns to the menu. *)
Definition shortcuts (inp : Input) (a : Game) : Game :=
  if space_justPressed inp then start_level 1 3 a
  else if escape_justPressed inp then changeState "menu" a
  else a.

(** Lines 144-149: on a fresh press, the action of every button that the
    cursor is inside, in the order of the buttons. *)
Definition click (inp : Input) (bs : list Button) (a : Game) : Game :=
  if mouse_justPressed inp then
    fold_left (fun a button =>
                 if isInside button (mousePosition inp) then action button a
                 else a) bs a
  else a.

(** The body of the loop of lines 178-191, on [buttonHover], [isHover] and
    the counter of cues. *)
Definition hover_button (mousePosition : vec2) (acc : bool * bool * nat)
    (button : Button) : bool * bool * nat :=
  let '(buttonHover, isHover, cues) := acc in
  if isInside button mousePosition then
    let '(buttonHover, cues) :=
      if negb buttonHover then (true, S cues) else (buttonHover, cues) in
    (buttonHover, true, cues)
  else (buttonHover, isHover, cues).

(** Lines 176-193. *)
Definition hover (mousePosition : vec2) (bs : list Button)
    (buttonHover : bool) (cues : nat) : bool * nat :=
  let '(buttonHover, isHover, cues) :=
    fold_left (hover_button mousePosition) bs (buttonHover, false, cues) in
  (if negb isHover then false else buttonHover, cues).

(** [onDraw] as a whole, lines 123-196. *)
Definition onDraw_screen (deltaTime : float) (inp : Input) (s : Screen)
  : Screen :=
  let a := click inp buttons (shortcuts inp (game s)) in
  let time := time (levels s) + deltaTime in
  let tint := vec4_of (smoothstep 0 2 time) in
  let '(buttonHover, cues) :=
    hover (mousePosition inp) buttons (buttonHover (levels s)) (cues s) in
  mkScreen (mkLevelsState time tint buttonHover) a cues.

End Menu.

(* ================================================================== *)
(** * The fragment shaders *)
(* ================================================================== *)

(** The product and the quotient of [vec4] values, channel by channel. *)
Definition vmul4 (a b : vec4) : vec4 :=
  Vec4 (wx a * wx b) (wy a * wy b) (wz a * wz b) (ww a * ww b).
Definition vdiv4 (a : vec4) (s : float) : vec4 :=
  Vec4 (wx a / s) (wy a / s) (wz a / s) (ww a / s).

(** textured.frag: [frag_color = tint * fs_in.color * texture(tex,
    fs_in.tex_coord)], for the texel [texture] returns. *)
Definition textured_frag (tint color texel : vec4) : vec4 :=
  vmul4 (vmul4 tint color) texel.

(** vignette.frag, lines 24-28, for the texel [texture(tex, tex_coord)]
    returns.  (The source assigns it to [newcolor], which it does not
    declare; it is read as a local [vec4].) *)
Definition vignette_frag (texel : vec4) (tex_coord : vec2) : vec4 :=
  let newcolor := texel in
  let x := ux tex_coord * 2 - 1 in
  let y := uy tex_coord * 2 - 1 in
  let length := x * x + y * y in
  vdiv4 newcolor (1 + length).

(* ================================================================== *)
(** * The vocabulary of the statements *)
(* ================================================================== *)

(** Predicates, summaries of the code and sample inputs that the lemmas
    and theorems below are stated with. *)

(** ** The controller: what was found, sample scenes and inputs *)

(** The test of line 61. *)
Definition both (cam ctl : option nat) : bool :=
  bool_decide (is_Some cam) && bool_decide (is_Some ctl).

(** The entities [update] works on. *)
Definition found (st : State) (cameraEntity playerEntity : nat) : Prop :=
  find_camera (entities (world st)) 0 None None
    = (Some cameraEntity, Some cameraEntity) /\
  find_player (entities (world st)) 0 None = Some playerEntity.

(** The matrix of a transform that is not rotated or scaled: the identity
    with the position as last column. *)
Definition translation (t : Transform) : mat4 :=
  Mat4 (Vec4 1 0 0 0) (Vec4 0 1 0 0) (Vec4 0 0 1 0)
       (Vec4 (vx (position t)) (vy (position t)) (vz (position t)) 1).

(** A camera with its controller, and a player that is its child. *)
Definition camera_entity : Entity :=
  mkEntity "camera" None (mkTransform (Vec3 0 1 10) zero3 one3)
    (Some (mkCamera half_pi))
    (Some (mkController (3 # 10) (Vec3 3 3 3)))
    None.

Definition player_entity : Entity :=
  mkEntity "player" (Some 0%nat) (mkTransform (Vec3 0 (-1) (-2)) zero3 one3)
    None None (Some (mkPlayer 10)).

(** One entity that is camera, controller and player at once. *)
Definition solo_entity : Entity :=
  mkEntity "solo" None (mkTransform (Vec3 0 1 10) zero3 one3)
    (Some (mkCamera half_pi))
    (Some (mkController (3 # 10) (Vec3 3 3 3)))
    (Some (mkPlayer 10)).

(** A state in which the system is as constructed. *)
Definition state_of (es : list Entity) : State :=
  mkState (mkWorld es 1) new_System RESTING false false.

Definition scene : State := state_of [camera_entity; player_entity].

Definition solo_scene : State := state_of [solo_entity].

(** Keyboards: no key down, one key down. *)
Definition no_keys : Key -> bool := fun _ => false.

Definition only (k : Key) : Key -> bool :=
  fun k' => match k, k' with
            | GLFW_KEY_W, GLFW_KEY_W | GLFW_KEY_S, GLFW_KEY_S
            | GLFW_KEY_Q, GLFW_KEY_Q | GLFW_KEY_E, GLFW_KEY_E
            | GLFW_KEY_SPACE, GLFW_KEY_SPACE | GLFW_KEY_UP, GLFW_KEY_UP
            | GLFW_KEY_DOWN, GLFW_KEY_DOWN | GLFW_KEY_ENTER, GLFW_KEY_ENTER
            | GLFW_KEY_D, GLFW_KEY_D | GLFW_KEY_RIGHT, GLFW_KEY_RIGHT
            | GLFW_KEY_A, GLFW_KEY_A | GLFW_KEY_LEFT, GLFW_KEY_LEFT => true
            | _, _ => false
            end.

(** An application snapshot with the given keys, in the given level. *)
Definition pressing (keys : Key -> bool) (lvl : Z) : Application :=
  mkApplication keys false 0 lvl.

(** ** The fade-in *)

(** The time that has passed after the given frames. *)
Fixpoint elapsed (fs : list (float * bool)) : float :=
  match fs with
  | [] => 0
  | (deltaTime, _) :: rest => deltaTime + elapsed rest
  end.

(** All four channels of the tint have the value [v]. *)
Definition tint_is (s : LevelsState) (v : float) : Prop :=
  wx (menuMaterial_tint s) == v /\ wy (menuMaterial_tint s) == v /\
  wz (menuMaterial_tint s) == v /\ ww (menuMaterial_tint s) == v.

(** ** What a part of update leaves alone *)

(** The pointer designates an entity of the world. *)
Definition valid (st : State) (e : nat) : Prop :=
  (e < length (entities (world st)))%nat.

(** Which components each entity holds. *)
Definition kinds (ent : Entity) : bool * bool * bool :=
  (bool_decide (is_Some (camera ent)),
   bool_decide (is_Some (controller ent)),
   bool_decide (is_Some (player ent))).

(** A function on entities that leaves alone everything but the transform
    and the field of view. *)
Definition gentle (g : Entity -> Entity) : Prop :=
  forall ent, kinds (g ent) = kinds ent /\
              controller (g ent) = controller ent /\
              player (g ent) = player ent.

(** Every entity holds the components it held. *)
Definition keeps_kinds (st st' : State) : Prop :=
  map kinds (entities (world st')) = map kinds (entities (world st)).

(** Only the position of entity [c] may differ. *)
Definition shifts (c : nat) (st st' : State) : Prop :=
  keeps_kinds st st' /\
  (forall e, rotation_of st' e = rotation_of st e) /\
  (forall e, e <> c -> position_of st' e = position_of st e).

(** Only the rotation of entity [c] may differ. *)
Definition turns (c : nat) (st st' : State) : Prop :=
  keeps_kinds st st' /\
  (forall e, position_of st' e = position_of st e) /\
  (forall e, e <> c -> rotation_of st' e = rotation_of st e).

(** Only the transform of entity [p] may differ. *)
Definition poses (p : nat) (st st' : State) : Prop :=
  keeps_kinds st st' /\
  (forall e, e <> p -> position_of st' e = position_of st e) /\
  (forall e, e <> p -> rotation_of st' e = rotation_of st e).

(** ** The jump and the slide, summarised *)

(** The guard of lines 157-159: a jump starts in this frame. *)
Definition jump_starts (app : Application) (j : JumpState) (sl : SlideState)
  : bool :=
  (isPressed app GLFW_KEY_SPACE || isPressed app GLFW_KEY_UP)
  && negb (levelState app =? 3)%Z
  && (is_GROUNDED j && is_NORMAL sl).

(** The height the threshold tests of lines 172-174 look at, for the height
    [y] the jump logic is entered with. *)
Definition lifted (app : Application) (deltaTime : float)
    (j : JumpState) (sl : SlideState) (y : float) : float :=
  if jump_starts app j sl then y + deltaTime * jumpSpeed else y.

(** The jump state the frame ends with. *)
Definition next_jumpState (app : Application) (deltaTime : float)
    (j : JumpState) (sl : SlideState) (y : float) : JumpState :=
  if fge (lifted app deltaTime j sl y) jumpMaxHeight then FALLING
  else if fle (lifted app deltaTime j sl y) 1 then GROUNDED
  else if jump_starts app j sl then JUMPING
  else j.

(** The height the frame ends the jump logic with. *)
Definition next_height (app : Application) (deltaTime : float)
    (j : JumpState) (sl : SlideState) (y : float) : float :=
  match next_jumpState app deltaTime j sl y with
  | JUMPING => lifted app deltaTime j sl y + deltaTime * jumpSpeed
  | FALLING => lifted app deltaTime j sl y - deltaTime * jumpSpeed
  | GROUNDED => 1
  end.

(** The guard of lines 198-200, for the jump state [j] the jump logic of the
    same frame has left. *)
Definition slide_starts (app : Application) (j : JumpState) (sl : SlideState)
  : bool :=
  (isPressed app GLFW_KEY_S || isPressed app GLFW_KEY_DOWN)
  && negb (levelState app =? 3)%Z
  && (is_NORMAL sl && is_GROUNDED j).

(** The offset of lines 210-212 and its reversal of lines 225-227. *)
Definition slide_position (p : vec3) : vec3 := Vec3 (vx p) (vy p + 1) (vz p - 1).

Definition slide_rotation (r : vec3) : vec3 := Vec3 (vx r - 90) (vy r) (vz r).

Definition stand_position (p : vec3) : vec3 := Vec3 (vx p) (vy p - 1) (vz p + 1).

Definition stand_rotation (r : vec3) : vec3 := Vec3 (vx r + 90) (vy r) (vz r).

(** A sideways move of the camera [c] along [cr]. *)
Definition sidestep (c : nat) (cr : vec3) (st st' : State) : Prop :=
  system st' = system st /\ isSlided st' = isSlided st /\
  motionState st' = motionState st /\
  pointerLocked st' = pointerLocked st /\
  shifts c st st' /\
  (vy cr == 0 -> vy (position_of st' c) == vy (position_of st c)).

(** ** The view and the frame as a whole *)

(** The largest pitch, [half_pi * 0.99]. *)
Definition pitch_limit : float := half_pi * (99 # 100).

(** What lines 104-107 make of a pitch. *)
Definition clamped_pitch (a : float) : float :=
  let a1 := if flt a (- half_pi * (99 # 100)) then - half_pi * (99 # 100) else a in
  if fgt a1 (half_pi * (99 # 100)) then half_pi * (99 # 100) else a1.

(** Lines 94-117. *)
Definition view_stage (app : Application) (c : nat) (st : State) : State :=
  update_fov app c (wrap_yaw c (clamp_pitch c (lock_mouse app st))).

(** The camera matrix of the frame (line 128). *)
Definition camera_matrix (toMat4 : Transform -> mat4) (app : Application)
    (c : nat) (st : State) : mat4 :=
  toMat4 (localTransform (entity_at (world (view_stage app c st)) c)).

(** The height of the camera when the jump logic is entered (line 154). *)
Definition height_at_jump (toMat4 : Transform -> mat4) (app : Application)
    (dt : float) (c : nat) (st : State) : float :=
  let st0 := view_stage app c st in
  let m := camera_matrix toMat4 app c st in
  vy (position_of
        (move_keys app dt c (front m) (up m) (sensitivity st0 c) st0) c).

(** The matrix of a transform without pitch and roll has horizontal front
    and right axes.  (This holds for the yaw-pitch-roll matrix of the
    engine, and for [translation].) *)
Definition level_when_upright (toMat4 : Transform -> mat4) : Prop :=
  forall t, vx (rotation t) == 0 -> vz (rotation t) == 0 ->
            vy (front (toMat4 t)) == 0 /\ vy (right (toMat4 t)) == 0.

(** The jump state and the height of the camera [c] after [k] frames. *)
Definition phase_at (toMat4 : Transform -> mat4)
    (inputs : nat -> Application * float) (st : State) (k : nat)
  : JumpState :=
  jumpState (system (after toMat4 inputs k st)).

Definition height_at (toMat4 : Transform -> mat4)
    (inputs : nat -> Application * float) (st : State) (c : nat)
    (k : nat) : float :=
  vy (position_of (after toMat4 inputs k st) c).

(** Space in the first frame, nothing afterwards, ten frames a second. *)
Definition jump_once (k : nat) : Application * float :=
  (pressing (match k with O => only GLFW_KEY_SPACE | S _ => no_keys end) 1,
   1 # 10).

(** The value of the slide timer before frame [k] of a slide that starts in
    frame 0: it is reset when the slide starts and grows by the time step
    of every frame. *)
Fixpoint slid_for (inputs : nat -> Application * float) (k : nat) : float :=
  match k with
  | O => 0
  | S k' => slid_for inputs k' + snd (inputs k')
  end.

(** Down in the first frame, nothing afterwards, sixty frames a second. *)
Definition slide_once (k : nat) : Application * float :=
  (pressing (match k with O => only GLFW_KEY_DOWN | S _ => no_keys end) 1,
   1 # 60).

(** ** Deserialization *)

(** The original entity of a description, as created and deserialized. *)
Definition original (readEntity : json -> Entity -> Entity)
    (entityData : json) (parent : option nat) : Entity :=
  Entity_deserialize readEntity entityData (set_parent parent new_Entity).

(** The grid has its 400 rows of 7 columns. *)
Definition grid_shape (m : list (list bool)) : Prop :=
  length m = Z.to_nat ENTITIES_UPPER_LIMIT /\
  Forall (fun row => length row = 7%nat) m.

(** A (row, column) pair inside the grid. *)
Definition in_grid (cell : Z * Z) : Prop :=
  (0 <= fst cell < ENTITIES_UPPER_LIMIT)%Z /\ (0 <= snd cell < 7)%Z.

(** The cell of a placement. *)
Definition cell (pl : Placement) : Z * Z := (row pl, column pl).

(** The cells assigned so far are inside the grid, marked occupied, and all
    different. *)
Definition grid_inv (s : Loader) : Prop :=
  grid_shape (entityMap s) /\
  NoDup (map cell (placed s)) /\
  Forall (fun pl => in_grid (cell pl) /\
                    occupied (entityMap s) (row pl) (column pl) = true)
         (placed s).

(** Where a duplicate is put (lines 53-54 and line 57). *)
Definition random_position (vertical horizontal : Z) (q : vec3) : vec3 :=
  Vec3 (vx q + (- of_int vertical) * of_int SLICE_SIZE) (vy q)
       (- (75 # 10) + of_int horizontal * (25 # 10)).

Definition linear_position (i : Z) (spacing : float) (q : vec3) : vec3 :=
  Vec3 (vx q + (- of_int i) * spacing) (vy q) (vz q).

(** The copy that is assigned the cell of [pl]. *)
Definition placed_copy (readEntity : json -> Entity -> Entity)
    (entityData : json) (par : option nat)
    (pl : Placement) : Entity :=
  map_position (random_position (row pl) (column pl))
    (original readEntity entityData par).

(** The state in which the children of a description are deserialized. *)
Definition created (readEntity : json -> Entity -> Entity)
    (entityData : json) (par : option nat) (s : Loader)
  : Loader :=
  snd (create readEntity entityData par s).

(** [s'] has the entities of [s] and more, and each of the new entities
    has the parent [par] or one of the new entities as its parent. *)
Definition grows (par : option nat) (s s' : Loader) : Prop :=
  exists added,
    entities (this s') = entities (this s) ++ added /\
    Forall (fun e =>
              parent e = par \/
              exists j, parent e = Some j /\
                        (length (entities (this s)) <= j
                         < length (entities (this s)) + length added)%nat)
           added.

(** A reader of descriptions for the examples: it reads the [position]. *)
Definition read_position (d : json) (ent : Entity) : Entity :=
  match at_key "position" d with
  | Some j =>
      match get_vec3 j with
      | Some v => map_position (fun _ => v) ent
      | None => ent
      end
  | None => ent
  end.

(** An empty world of level 1, the grid as constructed, and the given
    random numbers to come. *)
Definition fresh (rs : list N) : Loader :=
  mkLoader (mkWorld [] 1) entityMap_init rs [].

(** Sample scene files. *)
Definition plain_scene : list json :=
  [Jobj [("name"%string, Jstr "road")];
   Jobj [("name"%string, Jstr "sky");
         ("position"%string, Jarr [Jnum 0; Jnum 5; Jnum 0])]].

Definition row_of_cans : json :=
  Jobj [("position"%string, Jarr [Jnum 2; Jnum 0; Jnum 1]);
        ("duplicates"%string, Jarr [Jnum 4; Jnum 10; Jbool false])].

(** What a placement logged between [s] and [s'] says: its cell is in the
    grid and was free in [s], and its entity is in [s'] a deserialized
    original moved to that cell's place. *)
Definition placement_ok (readEntity : json -> Entity -> Entity)
    (s s' : Loader) (pl : Placement) : Prop :=
  in_grid (cell pl) /\
  occupied (entityMap s) (row pl) (column pl) = false /\
  exists d par,
    entities (this s') !! who pl = Some (placed_copy readEntity d par pl).

(** [s'] has the entities of [s] and more, the grid of [s'] has the cells
    of [s] and more, the invariant of the grid is kept, and the
    placements logged in between are as said. *)
Definition fills (readEntity : json -> Entity -> Entity)
    (s s' : Loader) : Prop :=
  (exists added, entities (this s') = entities (this s) ++ added) /\
  (forall v h, occupied (entityMap s) v h = true ->
               occupied (entityMap s') v h = true) /\
  (grid_inv s -> grid_inv s') /\
  exists new, placed s' = new ++ placed s /\ Forall (placement_ok readEntity s s') new.

Definition scattered_cans : json :=
  Jarr [Jobj [("position"%string, Jarr [Jnum 2; Jnum 0; Jnum 1]);
              ("duplicates"%string, Jarr [Jnum 3; Jnum 0; Jbool true])]].

(** [rand()] gives 3, 10, then 3, 10 again (an occupied cell), then 5, 20. *)
Definition some_randoms : list N := [3; 10; 3; 10; 5; 20]%N.

(** The state [deserialize] leaves for [scattered_cans]. *)
Definition scattered : Loader :=
  Eval vm_compute in
    match deserialize read_position scattered_cans None (fresh some_randoms) with
    | Done s' => s'
    | _ => fresh []
    end.

(** A description with a child and two copies. *)
Definition family : json :=
  Jobj [("position"%string, Jarr [Jnum 2; Jnum 0; Jnum 1]);
        ("children"%string, Jarr [Jobj [("name"%string, Jstr "wheel")]]);
        ("duplicates"%string, Jarr [Jnum 3; Jnum 2; Jbool false])].

(** The state [deserialize] leaves for [family]. *)
Definition family_loaded : Loader :=
  Eval vm_compute in
    match deserialize read_position (Jarr [family]) None (fresh []) with
    | Done s' => s'
    | _ => fresh []
    end.

(** ** What update leaves alone, entity by entity *)

(** [st'] has the entities of [st], each with its name, parent, scale,
    controller and player; apart from the field of view of [c] (when [fov]
    is set) the cameras are the same; the entities other than [c] and [p]
    are the same altogether. *)
Definition touches (fov : bool) (c p : nat) (st st' : State) : Prop :=
  length (entities (world st')) = length (entities (world st)) /\
  level (world st') = level (world st) /\
  (forall e,
     let a := entity_at (world st) e in
     let a' := entity_at (world st') e in
     name a' = name a /\ parent a' = parent a /\
     scale (localTransform a') = scale (localTransform a) /\
     controller a' = controller a /\ player a' = player a /\
     (fov = false \/ e <> c -> camera a' = camera a)) /\
  (forall e, e <> c -> e <> p ->
             entities (world st') !! e = entities (world st) !! e).

(** The pointer is locked exactly when the system says so. *)
Definition lock_agrees (st : State) : Prop :=
  pointerLocked st = mouse_locked (system st).

(** The flag [isSlided] tells the slide state. *)
Definition slide_agrees (st : State) : Prop :=
  isSlided st = negb (is_NORMAL (slideState (system st))).

(** The field of view of entity [c], if it is a camera. *)
Definition fov_of (st : State) (c : nat) : option float :=
  option_map fovY (camera (entity_at (world st) c)).

(** The heights a camera can have in each jump state, when no frame is
    longer than [D]: on the ground at 1, rising above 1 and less than one
    step above the maximal height, falling at most one step below the
    ground and above the maximal height. *)
Definition in_band (D : float) (j : JumpState) (y : float) : Prop :=
  match j with
  | GROUNDED => y == 1
  | JUMPING => 1 < y /\ y < jumpMaxHeight + D * jumpSpeed
  | FALLING => 1 - D * jumpSpeed <= y /\ y <= jumpMaxHeight + D * jumpSpeed
  end.

(** ** The grid when it fills up *)

(** The cells of the grid, row by row. *)
Definition all_cells : list (Z * Z) :=
  list_prod (seqZ 0 ENTITIES_UPPER_LIMIT) (seqZ 0 7).

(** Every cell of the grid is occupied. *)
Definition saturated (m : list (list bool)) : bool :=
  forallb (fun c => occupied m (fst c) (snd c)) all_cells.

(** The cell that the values [r1] and [r2] of [rand()] name, in the order
    of lines 46-47: the first gives the column, the second the row. *)
Definition drawn_cell (r : N * N) : Z * Z :=
  (randomNumber 0 (ENTITIES_UPPER_LIMIT - 1) (snd r), randomNumber 0 6 (fst r)).

(** The values of [rand()] behind a list of draws. *)
Definition draws_of (ds : list (N * N)) : list N :=
  flat_map (fun r => [fst r; snd r]) ds.

(** A grid in which every cell is occupied, and a state that has it. *)
Definition full_grid : list (list bool) :=
  replicate (Z.to_nat ENTITIES_UPPER_LIMIT) (replicate 7%nat true).

Definition crowded (rs : list N) : Loader :=
  mkLoader (mkWorld [] 1) full_grid rs [].

(** A state in which entity 0 has been placed at the cell that the draws
    3 and 10 name, and the same two values come up again. *)
Definition one_placed : Loader :=
  mkLoader (mkWorld [new_Entity; new_Entity] 1)
    (occupy entityMap_init (fst (drawn_cell (3, 10)%N)) (snd (drawn_cell (3, 10)%N)))
    [3; 10; 5; 20]%N
    [mkPlacement 0 (fst (drawn_cell (3, 10)%N)) (snd (drawn_cell (3, 10)%N))].

(** ** The level selection and the shaders *)

(** Modelled from the spec: [Button::isInside], which is not among the
    sources, as the test of "each button's axis-aligned rectangle"; it is
    the hit test of the sample inputs. *)
Definition inside_rectangle (b : Button) (v : vec2) : bool :=
  fle (ux (button_position b)) (ux v) &&
  fle (ux v) (ux (button_position b) + ux (button_size b)) &&
  fle (uy (button_position b)) (uy v) &&
  fle (uy v) (uy (button_position b) + uy (button_size b)).

(** The cursor is inside one of the buttons. *)
Definition hovered (isInside : Button -> vec2 -> bool) (bs : list Button)
    (v : vec2) : bool :=
  existsb (fun b => isInside b v) bs.

(** A screen as [onInitialize] leaves it, for a game in progress. *)
Definition entered (a : Game) : Screen := mkScreen onInitialize a 0.

(** A game that was lost in level 2 with five cans. *)
Definition lost_game : Game := mkGame 2 5 0 (Some "levels"%string).

(** The four channels of a colour. *)
Definition channels (v : vec4) : list float := [wx v; wy v; wz v; ww v].

(** The colour [b] is the colour [a] scaled by [k]. *)
Definition scaled (k : float) (a b : vec4) : Prop :=
  Forall2 (fun x y => y == k * x) (channels a) (channels b).

(** The vertex colour of the rectangle of [onInitialize]. *)
Definition white : vec4 := Vec4 1 1 1 1.

(** ** The entities update works on *)

(** The entity holds a camera and a controller; the entity holds a
    player. *)
Definition has_view (ent : Entity) : bool :=
  bool_decide (is_Some (camera ent)) && bool_decide (is_Some (controller ent)).
Definition has_player (ent : Entity) : bool :=
  bool_decide (is_Some (player ent)).

(** Entity [i] is the first of [es] that passes the test. *)
Definition first_with (test : Entity -> bool) (es : list Entity) (i : nat)
  : Prop :=
  (exists ent, es !! i = Some ent /\ test ent = true) /\
  forall k ent, (k < i)%nat -> es !! k = Some ent -> test ent = false.

(** ** The street *)

(** With the right keys (D, RIGHT) down and the left keys (A, LEFT) up
    [rightwards] is set, with the left keys down and the right keys up it
    is not.  The camera then moves along its right axis when exactly one of
    [rightwards] and "the world's level is 3" holds, and against it
    otherwise. *)
Definition along_right (rightwards : bool) (w : World) : bool :=
  xorb rightwards (level w =? 3)%Z.

(** The test of the edge of the street for a camera at [z]. *)
Definition in_street (along : bool) (z : float) : bool :=
  if along then fgt z (-5) else flt z 5.

(** ** The scene graph *)

(** Every parent pointer designates an entity that was created before its
    child. *)
Definition rooted (es : list Entity) : Prop :=
  forall i e j, es !! i = Some e -> parent e = Some j -> (j < i)%nat.

(* ================================================================== *)
(** * Comparisons and the glm functions *)
(* ================================================================== *)

Lemma fle_spec (a b : float) : fle a b = true <-> a <= b.
Proof. apply Qle_bool_iff. Qed.

Lemma flt_spec (a b : float) : flt a b = true <-> a < b.
Proof.
  unfold flt. rewrite negb_true_iff. split.
  - intros H. apply Qnot_le_lt. intros Hle.
    apply Qle_bool_iff in Hle. congruence.
  - intros H. destruct (Qle_bool b a) eqn:E; [|reflexivity].
    apply Qle_bool_iff in E. lra.
Qed.

Lemma fge_spec (a b : float) : fge a b = true <-> b <= a.
Proof. apply fle_spec. Qed.

Lemma fgt_spec (a b : float) : fgt a b = true <-> b < a.
Proof. apply flt_spec. Qed.

Lemma fle_false (a b : float) : fle a b = false <-> b < a.
Proof.
  split; intros H.
  - apply Qnot_le_lt. intros Hle. apply fle_spec in Hle. congruence.
  - destruct (fle a b) eqn:E; [|reflexivity]. apply fle_spec in E. lra.
Qed.

Lemma flt_false (a b : float) : flt a b = false <-> b <= a.
Proof.
  split; intros H.
  - apply Qnot_lt_le. intros Hlt. apply flt_spec in Hlt. congruence.
  - destruct (flt a b) eqn:E; [|reflexivity]. apply flt_spec in E. lra.
Qed.

Lemma fge_false (a b : float) : fge a b = false <-> a < b.
Proof. apply fle_false. Qed.

Lemma fgt_false (a b : float) : fgt a b = false <-> a <= b.
Proof. apply flt_false. Qed.

Lemma clamp_bounds (a lo hi : float) :
  lo <= hi -> lo <= clamp a lo hi <= hi.
Proof.
  intros Hlh. unfold clamp, fmin, fmax.
  destruct (flt a lo) eqn:E1.
  - destruct (flt hi lo) eqn:E2.
    + apply flt_spec in E2. lra.
    + lra.
  - apply flt_false in E1.
    destruct (flt hi a) eqn:E2.
    + lra.
    + apply flt_false in E2. lra.
Qed.

Lemma clamp_mono (a b lo hi : float) :
  lo <= hi -> a <= b -> clamp a lo hi <= clamp b lo hi.
Proof.
  intros Hlh Hab. unfold clamp, fmin, fmax.
  destruct (flt a lo) eqn:Ea, (flt b lo) eqn:Eb;
    try apply flt_spec in Ea; try apply flt_false in Ea;
    try apply flt_spec in Eb; try apply flt_false in Eb;
    repeat match goal with
           | |- context [flt ?u ?v] =>
               let E := fresh "E" in
               destruct (flt u v) eqn:E;
               [apply flt_spec in E | apply flt_false in E]
           end; lra.
Qed.

Lemma two_pi_pos : 0 < two_pi.
Proof. reflexivity. Qed.

(** [glm::mod] by a positive number lands in [0, b). *)
Lemma fmod_range (a b : Q) : 0 < b -> 0 <= fmod a b < b.
Proof.
  intros Hb. unfold fmod.
  pose proof (Qfloor_le (a / b)) as Hlo.
  pose proof (Qlt_floor (a / b)) as Hhi.
  rewrite inject_Z_plus in Hhi.
  set (k := inject_Z (Qfloor (a / b))) in *.
  assert (Hab : a == b * (a / b)) by (field; lra).
  assert (H1 : b * k <= b * (a / b)) by (apply Qmult_le_l; assumption).
  assert (H2 : b * (a / b) < b * (k + inject_Z 1))
    by (apply Qmult_lt_l; assumption).
  change (inject_Z 1) with 1 in H2.
  split; lra.
Qed.

Lemma wrapAngle_range (angle : float) :
  0 <= wrapAngle angle < two_pi.
Proof.
  unfold wrapAngle.
  pose proof (fmod_range angle two_pi two_pi_pos) as [H0 H1].
  rewrite Qabs_pos by assumption. split; assumption.
Qed.

(* ================================================================== *)
(** * Reading and writing entities *)
(* ================================================================== *)

Lemma update_entity_length (f : Entity -> Entity) (e : nat) (w : World) :
  length (entities (update_entity f e w)) = length (entities w).
Proof.
  unfold update_entity. destruct (entities w !! e); simpl; [|reflexivity].
  apply length_insert.
Qed.

Lemma update_entity_level (f : Entity -> Entity) (e : nat) (w : World) :
  level (update_entity f e w) = level w.
Proof. unfold update_entity. destruct (entities w !! e); reflexivity. Qed.

Lemma update_entity_lookup_ne (f : Entity -> Entity) (e e' : nat) (w : World) :
  e <> e' -> entities (update_entity f e w) !! e' = entities w !! e'.
Proof.
  intros Hne. unfold update_entity.
  destruct (entities w !! e); simpl; [|reflexivity].
  apply list_lookup_insert_ne. exact Hne.
Qed.

Lemma update_entity_lookup (f : Entity -> Entity) (e : nat) (w : World) :
  entities (update_entity f e w) !! e = f <$> entities w !! e.
Proof.
  unfold update_entity.
  destruct (entities w !! e) as [ent|] eqn:E; simpl.
  - rewrite list_lookup_insert_eq; [reflexivity|].
    eapply lookup_lt_Some; eassumption.
  - rewrite E. reflexivity.
Qed.

Lemma entity_at_update_ne (f : Entity -> Entity) (e e' : nat) (w : World) :
  e <> e' -> entity_at (update_entity f e w) e' = entity_at w e'.
Proof.
  intros Hne. unfold entity_at. rewrite update_entity_lookup_ne; auto.
Qed.

Lemma entity_at_update (f : Entity -> Entity) (e : nat) (w : World) :
  (e < length (entities w))%nat ->
  entity_at (update_entity f e w) e = f (entity_at w e).
Proof.
  intros Hlt. unfold entity_at. rewrite update_entity_lookup.
  destruct (lookup_lt_is_Some_2 _ _ Hlt) as [ent E]. rewrite E. reflexivity.
Qed.

(* ================================================================== *)
(** * The search loops of update *)
(* ================================================================== *)

Lemma getComponent_Some {T} (field : Entity -> option T) i ent c :
  getComponent field i ent = Some c -> c = i /\ is_Some (field ent).
Proof.
  unfold getComponent. destruct (field ent); intros H; inversion H; eauto.
Qed.

Lemma find_camera_none (es : list Entity) (i : nat) (cam ctl : option nat) :
  Forall (fun ent => camera ent = None \/ controller ent = None) es ->
  both cam ctl = false ->
  both (fst (find_camera es i cam ctl)) (snd (find_camera es i cam ctl)) = false.
Proof.
  intros Hall. revert i cam ctl.
  induction Hall as [|ent es Hent _ IH]; intros i cam ctl Hb; simpl.
  - exact Hb.
  - fold (both (getComponent camera i ent) (getComponent controller i ent)).
    destruct (both (getComponent camera i ent) (getComponent controller i ent))
      eqn:E.
    + exfalso. unfold both, getComponent in E.
      destruct Hent as [H|H]; rewrite H in E; simpl in E.
      * discriminate.
      * rewrite andb_false_r in E. discriminate.
    + apply IH. exact E.
Qed.

Lemma find_camera_found (es : list Entity) (i : nat) (cam ctl : option nat)
    (c k : nat) :
  both cam ctl = false ->
  find_camera es i cam ctl = (Some c, Some k) ->
  c = k /\ (i <= c)%nat /\
  exists ent, es !! (c - i)%nat = Some ent /\
              is_Some (camera ent) /\ is_Some (controller ent).
Proof.
  revert i cam ctl. induction es as [|ent es IH]; intros i cam ctl Hb H; simpl in H.
  - inversion H; subst. discriminate.
  - fold (both (getComponent camera i ent) (getComponent controller i ent)) in H.
    destruct (both (getComponent camera i ent) (getComponent controller i ent))
      eqn:E.
    + inversion H as [[H1 H2]].
      apply getComponent_Some in H1 as [-> Hc].
      apply getComponent_Some in H2 as [-> Hk].
      split; [reflexivity|]. split; [lia|].
      exists ent. rewrite Nat.sub_diag. auto.
    + destruct (IH _ _ _ E H) as (-> & Hle & ent' & Hl & Hc & Hk).
      split; [reflexivity|]. split; [lia|].
      exists ent'. replace (k - i)%nat with (S (k - S i)) by lia. auto.
Qed.

Lemma find_player_none (es : list Entity) (i : nat) :
  Forall (fun ent => player ent = None) es ->
  find_player es i None = None.
Proof.
  intros Hall. revert i. induction Hall as [|ent es Hent _ IH]; intros i; simpl.
  - reflexivity.
  - unfold getComponent. rewrite Hent. simpl. apply IH.
Qed.

Lemma find_player_found (es : list Entity) (i : nat) (pl : option nat) (p : nat) :
  pl = None ->
  find_player es i pl = Some p ->
  (i <= p)%nat /\ exists ent, es !! (p - i)%nat = Some ent /\ is_Some (player ent).
Proof.
  revert i pl. induction es as [|ent es IH]; intros i pl Hpl H; simpl in H.
  - congruence.
  - destruct (bool_decide _) eqn:E.
    + apply getComponent_Some in H as [-> Hp].
      split; [lia|]. exists ent. rewrite Nat.sub_diag. auto.
    + assert (Hn : getComponent player i ent = None).
      { destruct (getComponent player i ent); [|reflexivity].
        rewrite bool_decide_eq_false in E. exfalso. apply E. eauto. }
      destruct (IH _ _ Hn H) as (Hle & ent' & Hl & Hp).
      split; [lia|]. exists ent'.
      replace (p - i)%nat with (S (p - S i)) by lia. auto.
Qed.

Lemma found_valid st cameraEntity playerEntity :
  found st cameraEntity playerEntity ->
  (cameraEntity < length (entities (world st)))%nat /\
  (playerEntity < length (entities (world st)))%nat.
Proof.
  intros [Hc Hp].
  apply find_camera_found in Hc as (_ & _ & ent & Hl & _); [|reflexivity].
  apply find_player_found in Hp as (_ & ent' & Hl' & _); [|reflexivity].
  rewrite Nat.sub_0_r in Hl, Hl'.
  split; eapply lookup_lt_Some; eassumption.
Qed.

Lemma update_when_found toMat4 app deltaTime st cameraEntity playerEntity :
  found st cameraEntity playerEntity ->
  update toMat4 app deltaTime st
  = update_found toMat4 app deltaTime cameraEntity playerEntity st.
Proof. intros [Hc Hp]. unfold update. rewrite Hc, Hp. reflexivity. Qed.

(** C7.  When no entity holds both a camera and a controller component, or
    no entity holds a player component, [update] returns the state it was
    given: no transform, field of view, jump or slide state, or pointer
    lock is changed. *)
Theorem update_skips_without_components
    (toMat4 : Transform -> mat4) (app : Application) (deltaTime : float)
    (st : State) :
  Forall (fun ent => camera ent = None \/ controller ent = None)
         (entities (world st))
  \/ Forall (fun ent => player ent = None) (entities (world st)) ->
  update toMat4 app deltaTime st = st.
Proof.
  intros H. unfold update.
  destruct (find_camera (entities (world st)) 0 None None) as [cam ctl] eqn:Ec.
  destruct H as [H|H].
  - pose proof (find_camera_none _ 0 None None H eq_refl) as Hb.
    rewrite Ec in Hb. simpl in Hb.
    destruct cam, ctl; try discriminate; reflexivity.
  - rewrite (find_player_none _ 0 H).
    destruct cam, ctl; reflexivity.
Qed.

Lemma update_skips_witness :
  update translation (pressing (only GLFW_KEY_SPACE) 1) (1 # 60)
    (state_of [player_entity])
  = state_of [player_entity].
Proof.
  apply update_skips_without_components.
  left. repeat constructor.
Defined.

(* ================================================================== *)
(** * The fade-in of the level selection *)
(* ================================================================== *)

Lemma smoothstep_0_2 (t : Q) :
  smoothstep 0 2 t = (let u := clamp ((t - 0) / (2 - 0)) 0 1 in u * u * (3 - 2 * u)).
Proof. reflexivity. Qed.

Lemma ramp_mono (u v : Q) :
  0 <= u -> u <= v -> v <= 1 -> u * u * (3 - 2 * u) <= v * v * (3 - 2 * v).
Proof.
  intros H0 Huv H1.
  assert (E : v * v * (3 - 2 * v) - u * u * (3 - 2 * u)
              == (v - u) * ((u - u * u) + (v - v * v) + (u * (1 - v) + v * (1 - u))
                            + (u - u * u) + (v - v * v)))
    by ring.
  assert (Hu : 0 <= u - u * u) by nra.
  assert (Hv : 0 <= v - v * v) by nra.
  assert (Hx : 0 <= u * (1 - v) + v * (1 - u)) by nra.
  assert (Hp : 0 <= (v - u) * ((u - u * u) + (v - v * v) + (u * (1 - v) + v * (1 - u))
                            + (u - u * u) + (v - v * v))).
  { apply Qmult_le_0_compat; lra. }
  lra.
Qed.

Lemma smoothstep_mono (a b : Q) :
  a <= b -> smoothstep 0 2 a <= smoothstep 0 2 b.
Proof.
  intros Hab. rewrite !smoothstep_0_2. cbv zeta.
  assert (Hd : (a - 0) / (2 - 0) <= (b - 0) / (2 - 0)).
  { unfold Qdiv. apply Qmult_le_compat_r; [lra|]. discriminate. }
  pose proof (clamp_mono _ _ 0 1 ltac:(lra) Hd) as Hc.
  pose proof (clamp_bounds ((a - 0) / (2 - 0)) 0 1 ltac:(lra)) as [Ha0 Ha1].
  pose proof (clamp_bounds ((b - 0) / (2 - 0)) 0 1 ltac:(lra)) as [Hb0 Hb1].
  apply ramp_mono; assumption.
Qed.

Lemma smoothstep_full (t : Q) : 2 <= t -> smoothstep 0 2 t == 1.
Proof.
  intros Ht. rewrite smoothstep_0_2. cbv zeta.
  assert (Hd : 1 <= (t - 0) / (2 - 0)).
  { apply Qle_shift_div_l; [reflexivity|]. lra. }
  assert (Hc : clamp ((t - 0) / (2 - 0)) 0 1 == 1).
  { unfold clamp, fmin, fmax.
    destruct (flt ((t - 0) / (2 - 0)) 0) eqn:E1.
    - apply flt_spec in E1. lra.
    - destruct (flt 1 ((t - 0) / (2 - 0))) eqn:E2; [reflexivity|].
      apply flt_false in E2. lra. }
  rewrite Hc. reflexivity.
Qed.

Lemma smoothstep_start : smoothstep 0 2 0 == 0.
Proof. reflexivity. Qed.

Lemma draws_time (fs : list (float * bool)) (s : LevelsState) :
  time (draws fs s) == time s + elapsed fs.
Proof.
  revert s. induction fs as [|[deltaTime isHover] rest IH]; intros s; simpl.
  - lra.
  - rewrite IH. simpl. lra.
Qed.

Lemma onDraw_tint (deltaTime : float) (isHover : bool) (s : LevelsState) :
  menuMaterial_tint (onDraw deltaTime isHover s)
  = vec4_of (smoothstep 0 2 (time (onDraw deltaTime isHover s))).
Proof. reflexivity. Qed.

Lemma draws_tint (fs : list (float * bool)) (s : LevelsState) :
  tint_is s (smoothstep 0 2 (time s)) ->
  tint_is (draws fs s) (smoothstep 0 2 (time (draws fs s))).
Proof.
  revert s. induction fs as [|[deltaTime isHover] rest IH]; intros s Hs; simpl.
  - exact Hs.
  - apply IH. unfold tint_is. rewrite onDraw_tint. simpl.
    repeat split; reflexivity.
Qed.



(* ================================================================== *)
(** * Frame lemmas: what a write leaves alone *)
(* ================================================================== *)

Lemma entity_at_update_cases (g : Entity -> Entity) (e e' : nat) (w : World) :
  entity_at (update_entity g e w) e' = entity_at w e' \/
  entity_at (update_entity g e w) e' = g (entity_at w e').
Proof.
  destruct (decide (e = e')) as [<-|Hne].
  - destruct (decide (e < length (entities w))%nat) as [Hlt|Hge].
    + right. apply entity_at_update. exact Hlt.
    + left. unfold update_entity.
      rewrite (lookup_ge_None_2 (entities w) e) by lia. reflexivity.
  - left. apply entity_at_update_ne. exact Hne.
Qed.

Section Frame.

Variables (f : vec3 -> vec3) (e e' : nat) (st : State).

Lemma position_write_position :
  valid st e -> position_of (write_position f e st) e = f (position_of st e).
Proof.
  intros Hv. unfold position_of, write_position. simpl.
  rewrite entity_at_update by exact Hv. reflexivity.
Qed.

Lemma position_write_position_ne :
  e <> e' -> position_of (write_position f e st) e' = position_of st e'.
Proof.
  intros Hne. unfold position_of, write_position. simpl.
  rewrite entity_at_update_ne by exact Hne. reflexivity.
Qed.

Lemma position_write_rotation :
  position_of (write_rotation f e st) e' = position_of st e'.
Proof.
  unfold position_of, write_rotation. simpl.
  destruct (entity_at_update_cases (map_rotation f) e e' (world st)) as [H|H];
    rewrite H; reflexivity.
Qed.

Lemma rotation_write_rotation :
  valid st e -> rotation_of (write_rotation f e st) e = f (rotation_of st e).
Proof.
  intros Hv. unfold rotation_of, write_rotation. simpl.
  rewrite entity_at_update by exact Hv. reflexivity.
Qed.

Lemma rotation_write_rotation_ne :
  e <> e' -> rotation_of (write_rotation f e st) e' = rotation_of st e'.
Proof.
  intros Hne. unfold rotation_of, write_rotation. simpl.
  rewrite entity_at_update_ne by exact Hne. reflexivity.
Qed.

Lemma rotation_write_position :
  rotation_of (write_position f e st) e' = rotation_of st e'.
Proof.
  unfold rotation_of, write_position. simpl.
  destruct (entity_at_update_cases (map_position f) e e' (world st)) as [H|H];
    rewrite H; reflexivity.
Qed.

Lemma valid_write_position :
  valid (write_position f e st) e' <-> valid st e'.
Proof.
  unfold valid, write_position. simpl. rewrite update_entity_length. tauto.
Qed.

Lemma valid_write_rotation :
  valid (write_rotation f e st) e' <-> valid st e'.
Proof.
  unfold valid, write_rotation. simpl. rewrite update_entity_length. tauto.
Qed.

End Frame.

Lemma gentle_map_position f : gentle (map_position f).
Proof. intros ent. repeat split. Qed.

Lemma gentle_map_rotation f : gentle (map_rotation f).
Proof. intros ent. repeat split. Qed.

Lemma gentle_set_fovY v : gentle (set_fovY v).
Proof.
  intros ent. unfold kinds, set_fovY. simpl.
  destruct (camera ent); repeat split.
Qed.

Lemma getComponent_kind {T} (field : Entity -> option T) (i : nat) (a b : Entity) :
  bool_decide (is_Some (field a)) = bool_decide (is_Some (field b)) ->
  getComponent field i a = getComponent field i b.
Proof.
  unfold getComponent. destruct (field a), (field b); cbv; congruence.
Qed.

Lemma find_camera_kinds (es es' : list Entity) (i : nat) (cam ctl : option nat) :
  map kinds es = map kinds es' ->
  find_camera es i cam ctl = find_camera es' i cam ctl.
Proof.
  revert es' i cam ctl. induction es as [|a es IH]; intros [|b es'] i cam ctl H;
    try discriminate; [reflexivity|].
  cbn [map] in H. injection H as Hc Hl Hp Hrest. cbn [find_camera].
  rewrite (getComponent_kind camera i a b Hc).
  rewrite (getComponent_kind controller i a b Hl).
  destruct (_ && _); [reflexivity|]. apply IH. exact Hrest.
Qed.

Lemma find_player_kinds (es es' : list Entity) (i : nat) (pl : option nat) :
  map kinds es = map kinds es' ->
  find_player es i pl = find_player es' i pl.
Proof.
  revert es' i pl. induction es as [|a es IH]; intros [|b es'] i pl H;
    try discriminate; [reflexivity|].
  cbn [map] in H. injection H as Hc Hl Hp Hrest. cbn [find_player].
  rewrite (getComponent_kind player i a b Hp).
  destruct (bool_decide (is_Some (getComponent player i b)));
    [reflexivity|]. apply IH. exact Hrest.
Qed.

Lemma update_entity_kinds (g : Entity -> Entity) (e : nat) (w : World) :
  gentle g ->
  map kinds (entities (update_entity g e w)) = map kinds (entities w).
Proof.
  intros Hg. unfold update_entity.
  destruct (entities w !! e) as [ent|] eqn:E; [|reflexivity]. simpl.
  rewrite list_fmap_insert. destruct (Hg ent) as [-> _].
  apply list_insert_id. rewrite list_lookup_fmap, E. reflexivity.
Qed.

(** ** What each part of update can change *)

Lemma keeps_kinds_valid st st' e :
  keeps_kinds st st' -> (valid st' e <-> valid st e).
Proof.
  unfold keeps_kinds, valid. intros H.
  apply (f_equal length) in H. rewrite !length_map in H. rewrite H. tauto.
Qed.

Lemma keeps_kinds_found st st' c p :
  keeps_kinds st st' -> found st c p -> found st' c p.
Proof.
  unfold keeps_kinds, found. intros H [Hc Hp].
  rewrite (find_camera_kinds _ _ _ _ _ H), (find_player_kinds _ _ _ _ H).
  split; assumption.
Qed.

Lemma keeps_kinds_refl st : keeps_kinds st st.
Proof. reflexivity. Qed.

Lemma keeps_kinds_trans st1 st2 st3 :
  keeps_kinds st1 st2 -> keeps_kinds st2 st3 -> keeps_kinds st1 st3.
Proof. unfold keeps_kinds. congruence. Qed.

Lemma keeps_kinds_with_world g e st :
  gentle g -> keeps_kinds st (with_world (update_entity g e) st).
Proof. intros Hg. unfold keeps_kinds. simpl. apply update_entity_kinds, Hg. Qed.

Lemma shifts_refl c st : shifts c st st.
Proof. repeat split. Qed.

Lemma shifts_trans c st1 st2 st3 :
  shifts c st1 st2 -> shifts c st2 st3 -> shifts c st1 st3.
Proof.
  intros (K1 & R1 & P1) (K2 & R2 & P2). split; [|split].
  - eapply keeps_kinds_trans; eassumption.
  - intros e. rewrite R2. apply R1.
  - intros e He. rewrite P2 by exact He. apply P1, He.
Qed.

Lemma shifts_write_position f c st : shifts c st (write_position f c st).
Proof.
  split; [|split].
  - apply keeps_kinds_with_world, gentle_map_position.
  - intros e. apply rotation_write_position.
  - intros e He. apply position_write_position_ne. congruence.
Qed.

Lemma turns_refl c st : turns c st st.
Proof. repeat split. Qed.

Lemma turns_trans c st1 st2 st3 :
  turns c st1 st2 -> turns c st2 st3 -> turns c st1 st3.
Proof.
  intros (K1 & P1 & R1) (K2 & P2 & R2). split; [|split].
  - eapply keeps_kinds_trans; eassumption.
  - intros e. rewrite P2. apply P1.
  - intros e He. rewrite R2 by exact He. apply R1, He.
Qed.

Lemma turns_write_rotation f c st : turns c st (write_rotation f c st).
Proof.
  split; [|split].
  - apply keeps_kinds_with_world, gentle_map_rotation.
  - intros e. apply position_write_rotation.
  - intros e He. apply rotation_write_rotation_ne. congruence.
Qed.

Lemma poses_refl p st : poses p st st.
Proof. repeat split. Qed.

Lemma poses_trans p st1 st2 st3 :
  poses p st1 st2 -> poses p st2 st3 -> poses p st1 st3.
Proof.
  intros (K1 & P1 & R1) (K2 & P2 & R2). split; [|split].
  - eapply keeps_kinds_trans; eassumption.
  - intros e He. rewrite P2 by exact He. apply P1, He.
  - intros e He. rewrite R2 by exact He. apply R1, He.
Qed.

Lemma poses_write_position f p st : poses p st (write_position f p st).
Proof.
  split; [|split].
  - apply keeps_kinds_with_world, gentle_map_position.
  - intros e He. apply position_write_position_ne. congruence.
  - intros e He. apply rotation_write_position.
Qed.

Lemma poses_write_rotation f p st : poses p st (write_rotation f p st).
Proof.
  split; [|split].
  - apply keeps_kinds_with_world, gentle_map_rotation.
  - intros e He. apply position_write_rotation.
  - intros e He. apply rotation_write_rotation_ne. congruence.
Qed.

Lemma shifts_poses c st st' : shifts c st st' -> poses c st st'.
Proof. intros (K & R & P). split; [|split]; auto. Qed.

Lemma turns_poses c st st' : turns c st st' -> poses c st st'.
Proof. intros (K & P & R). split; [|split]; auto. Qed.

Lemma shifts_same_world c st st' : world st' = world st -> shifts c st st'.
Proof.
  intros H. unfold shifts, keeps_kinds, position_of, rotation_of.
  rewrite H. repeat split.
Qed.

Lemma turns_same_world c st st' : world st' = world st -> turns c st st'.
Proof.
  intros H. unfold turns, keeps_kinds, position_of, rotation_of.
  rewrite H. repeat split.
Qed.

Lemma poses_same_world p st st' : world st' = world st -> poses p st st'.
Proof.
  intros H. unfold poses, keeps_kinds, position_of, rotation_of.
  rewrite H. repeat split.
Qed.

Create HintDb frame.
#[local] Hint Resolve shifts_refl shifts_write_position turns_refl
  turns_write_rotation poses_refl poses_write_position poses_write_rotation
  : frame.

Ltac split_all := repeat match goal with |- _ /\ _ => split end.

Ltac chain lem :=
  repeat first [ assumption
               | solve [auto with frame]
               | eapply lem; [solve [auto with frame]|] ].

(** The parts of update, one by one. *)

Lemma lock_mouse_world app st : world (lock_mouse app st) = world st.
Proof. unfold lock_mouse. repeat (destruct (_ && _)); reflexivity. Qed.

Lemma lock_mouse_turns c app st : turns c st (lock_mouse app st).
Proof.
  unfold turns, keeps_kinds, position_of, rotation_of.
  rewrite lock_mouse_world. repeat split.
Qed.

Lemma clamp_pitch_turns c st : turns c st (clamp_pitch c st).
Proof.
  unfold clamp_pitch.
  destruct (flt _ _); destruct (fgt _ _);
    eauto using turns_trans, turns_refl, turns_write_rotation.
Qed.

Lemma wrap_yaw_turns c st : turns c st (wrap_yaw c st).
Proof. apply turns_write_rotation. Qed.

Lemma update_fov_turns c app st : turns c st (update_fov app c st).
Proof.
  unfold update_fov.
  destruct (camera _) as [cam|]; [|apply turns_refl].
  destruct (controller _) as [ctl|]; [|apply turns_refl].
  split; [|split].
  - apply keeps_kinds_with_world, gentle_set_fovY.
  - intros e. unfold position_of. simpl.
    destruct (entity_at_update_cases (set_fovY (clamp
      (fovY cam + scrollOffset_y app * fovSensitivity ctl)
      (pi * (1 # 100)) (pi * (99 # 100)))) c e (world st)) as [H|H];
      rewrite H; reflexivity.
  - intros e _. unfold rotation_of. simpl.
    destruct (entity_at_update_cases (set_fovY (clamp
      (fovY cam + scrollOffset_y app * fovSensitivity ctl)
      (pi * (1 # 100)) (pi * (99 # 100)))) c e (world st)) as [H|H];
      rewrite H; reflexivity.
Qed.

Lemma update_fov_rotation c app st e :
  rotation_of (update_fov app c st) e = rotation_of st e.
Proof.
  unfold update_fov.
  destruct (camera _) as [cam|]; [|reflexivity].
  destruct (controller _) as [ctl|]; [|reflexivity].
  unfold rotation_of. simpl.
  destruct (entity_at_update_cases (set_fovY (clamp
    (fovY cam + scrollOffset_y app * fovSensitivity ctl)
    (pi * (1 # 100)) (pi * (99 # 100)))) c e (world st)) as [H|H];
    rewrite H; reflexivity.
Qed.

(** Cases on the keys the goal tests. *)
Ltac key_cases app :=
  repeat match goal with
         | |- context [if isPressed app ?k then _ else _] =>
             destruct (isPressed app k)
         end.

Lemma move_keys_shifts app dt c cf cu sens st :
  shifts c st (move_keys app dt c cf cu sens st).
Proof.
  unfold move_keys. key_cases app; chain shifts_trans.
Qed.

(** ** The jump *)

Lemma jump_start_spec app dt c st :
  valid st c ->
  let st' := jump_start app dt c st in
  system st' = (if jump_starts app (jumpState (system st)) (slideState (system st))
                then set_jumpState JUMPING (system st) else system st) /\
  vy (position_of st' c)
    = lifted app dt (jumpState (system st)) (slideState (system st))
        (vy (position_of st c)) /\
  motionState st' = motionState st /\ isSlided st' = isSlided st /\
  pointerLocked st' = pointerLocked st /\
  shifts c st st'.
Proof.
  intros Hv. unfold jump_start, lifted, jump_starts.
  destruct ((isPressed app GLFW_KEY_SPACE || isPressed app GLFW_KEY_UP)
            && negb (levelState app =? 3)%Z); simpl.
  - destruct (is_GROUNDED (jumpState (system st))
              && is_NORMAL (slideState (system st))); simpl.
    + split_all; try reflexivity.
      * rewrite position_write_position by exact Hv. reflexivity.
      * apply (shifts_write_position _ c (with_system (set_jumpState JUMPING) st)).
    + split_all; try reflexivity. apply shifts_refl.
  - split_all; try reflexivity. apply shifts_refl.
Qed.

Lemma jump_switch_spec c st :
  let st' := jump_switch c st in
  world st' = world st /\
  jumpState (system st') =
    (if fge (vy (position_of st c)) jumpMaxHeight then FALLING
     else if fle (vy (position_of st c)) 1 then GROUNDED
     else jumpState (system st)) /\
  slideState (system st') = slideState (system st) /\
  slideTime (system st') = slideTime (system st) /\
  mouse_locked (system st') = mouse_locked (system st) /\
  motionState st' = motionState st /\ isSlided st' = isSlided st /\
  pointerLocked st' = pointerLocked st.
Proof.
  unfold jump_switch.
  destruct (fge _ _); [repeat split|].
  destruct (fle _ _); repeat split.
Qed.

Lemma jump_move_spec dt c st :
  valid st c ->
  let st' := jump_move dt c st in
  system st' = system st /\
  vy (position_of st' c) =
    match jumpState (system st) with
    | JUMPING => vy (position_of st c) + dt * jumpSpeed
    | FALLING => vy (position_of st c) - dt * jumpSpeed
    | GROUNDED => 1
    end /\
  motionState st' = motionState st /\ isSlided st' = isSlided st /\
  pointerLocked st' = pointerLocked st /\
  shifts c st st'.
Proof.
  intros Hv. unfold jump_move.
  destruct (jumpState (system st)); simpl;
    (split_all; try reflexivity; try apply shifts_write_position);
    rewrite position_write_position by exact Hv; reflexivity.
Qed.

(** The whole jump logic, lines 154-195. *)
Lemma jump_spec app dt c st :
  valid st c ->
  let j := jumpState (system st) in
  let sl := slideState (system st) in
  let y := vy (position_of st c) in
  let st' := jump app dt c st in
  jumpState (system st') = next_jumpState app dt j sl y /\
  vy (position_of st' c) = next_height app dt j sl y /\
  slideState (system st') = sl /\
  slideTime (system st') = slideTime (system st) /\
  mouse_locked (system st') = mouse_locked (system st) /\
  motionState st' = motionState st /\ isSlided st' = isSlided st /\
  pointerLocked st' = pointerLocked st /\
  shifts c st st'.
Proof.
  intros Hv j sl y st'. subst j sl y st'. unfold jump, next_height.
  destruct (jump_start_spec app dt c st Hv) as (S1 & Y1 & M1 & I1 & L1 & F1).
  set (st1 := jump_start app dt c st) in *.
  destruct (jump_switch_spec c st1) as (W2 & J2 & SS2 & ST2 & ML2 & M2 & I2 & L2).
  set (st2 := jump_switch c st1) in *.
  assert (Hv2 : valid st2 c).
  { unfold valid. rewrite W2. apply (keeps_kinds_valid st st1 c); [apply F1|exact Hv]. }
  destruct (jump_move_spec dt c st2 Hv2) as (S3 & Y3 & M3 & I3 & L3 & F3).
  set (st3 := jump_move dt c st2) in *.
  assert (P2 : position_of st2 c = position_of st1 c)
    by (unfold position_of; rewrite W2; reflexivity).
  assert (J : jumpState (system st2)
              = next_jumpState app dt (jumpState (system st))
                  (slideState (system st)) (vy (position_of st c))).
  { rewrite J2, Y1, S1. unfold next_jumpState. clear.
    destruct (fge _ _); [reflexivity|].
    destruct (fle _ _); [reflexivity|].
    destruct (jump_starts app _ _); reflexivity. }
  assert (F2 : shifts c st1 st2).
  { unfold shifts, keeps_kinds, position_of, rotation_of. rewrite W2.
    repeat split. }
  assert (F : shifts c st st3).
  { eapply shifts_trans; [exact F1|]. eapply shifts_trans; [exact F2|exact F3]. }
  rewrite S3, Y3, J, P2, Y1, SS2, ST2, ML2, M3, M2, M1, I3, I2, I1, L3, L2, L1.
  rewrite S1.
  split_all; try exact F; try reflexivity;
    destruct (jump_starts app _ _); reflexivity.
Qed.

(** ** The slide *)

Lemma slide_start_spec app p st :
  valid st p ->
  let go := slide_starts app (jumpState (system st)) (slideState (system st)) in
  let st' := slide_start app p st in
  slideState (system st') = (if go then Slided else slideState (system st)) /\
  slideTime (system st') = (if go then 0 else slideTime (system st)) /\
  jumpState (system st') = jumpState (system st) /\
  mouse_locked (system st') = mouse_locked (system st) /\
  position_of st' p
    = (if go then slide_position (position_of st p) else position_of st p) /\
  rotation_of st' p
    = (if go then slide_rotation (rotation_of st p) else rotation_of st p) /\
  isSlided st' = (if go then true else isSlided st) /\
  motionState st' = motionState st /\
  pointerLocked st' = pointerLocked st /\
  poses p st st'.
Proof.
  intros Hv. unfold slide_start, slide_starts.
  destruct ((isPressed app GLFW_KEY_S || isPressed app GLFW_KEY_DOWN)
            && negb (levelState app =? 3)%Z); simpl;
    [|split_all; try reflexivity; apply poses_refl].
  destruct (is_NORMAL (slideState (system st))
            && is_GROUNDED (jumpState (system st))); simpl;
    [|split_all; try reflexivity; apply poses_refl].
  set (st0 := with_system (set_slideState Slided) (set_isSlided true st)).
  set (st1 := write_rotation (fun r => set_x (vx r - 90) r) p st0).
  set (st2 := write_position (fun q => set_z (vz q - 1) q) p st1).
  set (st3 := write_position (fun q => set_y (vy q + 1) q) p st2).
  assert (V0 : valid st0 p) by exact Hv.
  assert (V1 : valid st1 p) by (apply valid_write_rotation; exact V0).
  assert (V2 : valid st2 p) by (apply valid_write_position; exact V1).
  split_all; try reflexivity.
  - change (position_of st3 p = slide_position (position_of st0 p)).
    unfold st3. rewrite position_write_position by exact V2.
    unfold st2. rewrite position_write_position by exact V1.
    unfold st1. rewrite position_write_rotation. reflexivity.
  - change (rotation_of st3 p = slide_rotation (rotation_of st0 p)).
    unfold st3. rewrite rotation_write_position.
    unfold st2. rewrite rotation_write_position.
    unfold st1. rewrite rotation_write_rotation by exact V0. reflexivity.
  - change (poses p st0 st3). unfold st3, st2, st1.
    eapply poses_trans; [apply poses_write_rotation|].
    eapply poses_trans; apply poses_write_position.
Qed.

Lemma slide_end_spec dt p st :
  valid st p ->
  let stop := fge (slideTime (system st) + dt) (dt * 50) in
  let st' := slide_end dt p st in
  jumpState (system st') = jumpState (system st) /\
  mouse_locked (system st') = mouse_locked (system st) /\
  motionState st' = motionState st /\
  pointerLocked st' = pointerLocked st /\
  poses p st st' /\
  match slideState (system st) with
  | Slided =>
      slideState (system st') = (if stop then NORMAL else Slided) /\
      slideTime (system st') = slideTime (system st) + dt /\
      position_of st' p
        = (if stop then stand_position (position_of st p) else position_of st p) /\
      rotation_of st' p
        = (if stop then stand_rotation (rotation_of st p) else rotation_of st p) /\
      isSlided st' = negb stop
  | NORMAL => st' = st
  end.
Proof.
  intros Hv. unfold slide_end.
  destruct (slideState (system st)) eqn:Esl;
    [|split_all; try reflexivity; apply poses_refl].
  cbn [slideTime system with_system set_isSlided set_slideTime].
  destruct (fge (slideTime (system st) + dt) (dt * 50)) eqn:Estop;
    [|split_all; try reflexivity; try exact Esl;
      apply poses_same_world; reflexivity].
  set (st0 := with_system (set_slideState NORMAL)
                (set_isSlided false
                   (set_isSlided true
                      (with_system (fun s => set_slideTime (slideTime s + dt) s) st)))).
  set (st1 := write_position (fun q => set_y (vy q - 1) q) p st0).
  set (st2 := write_position (fun q => set_z (vz q + 1) q) p st1).
  set (st3 := write_rotation (fun r => set_x (vx r + 90) r) p st2).
  assert (V0 : valid st0 p) by exact Hv.
  assert (V1 : valid st1 p) by (apply valid_write_position; exact V0).
  assert (V2 : valid st2 p) by (apply valid_write_position; exact V1).
  split_all; try reflexivity.
  - change (poses p st0 st3). unfold st3, st2, st1.
    eapply poses_trans; [apply poses_write_position|].
    eapply poses_trans; [apply poses_write_position|].
    apply poses_write_rotation.
  - change (position_of st3 p = stand_position (position_of st0 p)).
    unfold st3. rewrite position_write_rotation.
    unfold st2. rewrite position_write_position by exact V1.
    unfold st1. rewrite position_write_position by exact V0. reflexivity.
  - change (rotation_of st3 p = stand_rotation (rotation_of st0 p)).
    unfold st3. rewrite rotation_write_rotation by exact V2.
    unfold st2. rewrite rotation_write_position.
    unfold st1. rewrite rotation_write_position. reflexivity.
Qed.

Lemma slide_spec app dt p st :
  valid st p ->
  let j := jumpState (system st) in
  let go := slide_starts app j (slideState (system st)) in
  let sl1 := if go then Slided else slideState (system st) in
  let t1 := if go then 0 else slideTime (system st) in
  let p1 := if go then slide_position (position_of st p) else position_of st p in
  let r1 := if go then slide_rotation (rotation_of st p) else rotation_of st p in
  let stop := fge (t1 + dt) (dt * 50) in
  let st' := slide app dt p st in
  jumpState (system st') = j /\
  mouse_locked (system st') = mouse_locked (system st) /\
  motionState st' = motionState st /\
  pointerLocked st' = pointerLocked st /\
  poses p st st' /\
  match sl1 with
  | Slided =>
      slideState (system st') = (if stop then NORMAL else Slided) /\
      slideTime (system st') = t1 + dt /\
      position_of st' p = (if stop then stand_position p1 else p1) /\
      rotation_of st' p = (if stop then stand_rotation r1 else r1) /\
      isSlided st' = negb stop
  | NORMAL =>
      slideState (system st') = NORMAL /\
      slideTime (system st') = slideTime (system st) /\
      position_of st' p = position_of st p /\
      rotation_of st' p = rotation_of st p /\
      isSlided st' = isSlided st
  end.
Proof.
  intros Hv. cbv zeta. unfold slide.
  destruct (slide_start_spec app p st Hv)
    as (SL1 & T1 & J1 & ML1 & P1 & R1 & I1 & M1 & L1 & F1).
  set (st1 := slide_start app p st) in *.
  assert (Hv1 : valid st1 p)
    by (apply (keeps_kinds_valid st st1 p); [apply F1|exact Hv]).
  destruct (slide_end_spec dt p st1 Hv1) as (J2 & ML2 & M2 & L2 & F2 & E2).
  set (st2 := slide_end dt p st1) in *.
  rewrite J2, J1, ML2, ML1, M2, M1, L2, L1.
  split_all; try reflexivity.
  { eapply poses_trans; eassumption. }
  rewrite SL1 in E2.
  destruct (slide_starts app (jumpState (system st)) (slideState (system st))).
  - destruct E2 as (A & B & C & D & E). rewrite A, B, C, D, E, T1, P1, R1.
    split_all; reflexivity.
  - destruct (slideState (system st)) eqn:Esl.
    + destruct E2 as (A & B & C & D & E). rewrite A, B, C, D, E, T1, P1, R1.
      split_all; reflexivity.
    + rewrite E2. rewrite SL1, T1, P1, R1, I1. split_all; reflexivity.
Qed.

(** ** Running and strafing *)

Lemma run_spec app dt c cf st :
  valid st c ->
  let st' := run app dt c cf st in
  system st' = system st /\ isSlided st' = isSlided st /\
  pointerLocked st' = pointerLocked st /\
  shifts c st st' /\
  (vy cf == 0 -> vy (position_of st' c) == vy (position_of st c)).
Proof.
  intros Hv. unfold run.
  destruct (isPressed app GLFW_KEY_ENTER); simpl.
  - split_all; try reflexivity.
    + apply (shifts_write_position _ c (set_motionState RUNNING st)).
    + intros H0.
      rewrite (position_write_position _ c (set_motionState RUNNING st)) by exact Hv.
      change (position_of (set_motionState RUNNING st) c) with (position_of st c).
      simpl. rewrite H0. lra.
  - destruct (is_RUNNING (motionState st)).
    + split_all; try reflexivity.
      * apply shifts_write_position.
      * intros H0. rewrite position_write_position by exact Hv.
        simpl. rewrite H0. lra.
    + split_all; try reflexivity. apply shifts_refl.
Qed.

Lemma sidestep_refl c cr st : sidestep c cr st st.
Proof. unfold sidestep. split_all; try reflexivity. apply shifts_refl. Qed.

Lemma sidestep_trans c cr st1 st2 st3 :
  sidestep c cr st1 st2 -> sidestep c cr st2 st3 -> sidestep c cr st1 st3.
Proof.
  intros (S1 & I1 & M1 & L1 & F1 & Y1) (S2 & I2 & M2 & L2 & F2 & Y2).
  unfold sidestep. rewrite S2, I2, M2, L2. split_all; try assumption.
  - eapply shifts_trans; eassumption.
  - intros H0. rewrite (Y2 H0). apply Y1, H0.
Qed.

Lemma step_left_sidestep dt c p cr st :
  valid st c -> sidestep c cr st (step_left dt c p cr st).
Proof.
  intros Hv. unfold sidestep, step_left. split_all; try reflexivity.
  - apply shifts_write_position.
  - intros H0. rewrite position_write_position by exact Hv.
    simpl. rewrite H0. lra.
Qed.

Lemma step_right_sidestep dt c p cr st :
  valid st c -> sidestep c cr st (step_right dt c p cr st).
Proof.
  intros Hv. unfold sidestep, step_right. split_all; try reflexivity.
  - apply shifts_write_position.
  - intros H0. rewrite position_write_position by exact Hv.
    simpl. rewrite H0. lra.
Qed.

Lemma strafe_spec app dt c p cr st :
  valid st c -> sidestep c cr st (strafe app dt c p cr st).
Proof.
  intros Hv. unfold strafe.
  assert (H1 : sidestep c cr st (strafe_D app dt c p cr st)).
  { unfold strafe_D.
    destruct (isPressed app GLFW_KEY_D || isPressed app GLFW_KEY_RIGHT);
      [|apply sidestep_refl].
    destruct (level (world st) =? 3)%Z.
    - destruct (flt _ _); [apply step_left_sidestep, Hv|apply sidestep_refl].
    - destruct (fgt _ _); [apply step_right_sidestep, Hv|apply sidestep_refl]. }
  set (st1 := strafe_D app dt c p cr st) in *.
  assert (Hv1 : valid st1 c).
  { apply (keeps_kinds_valid st st1 c); [apply H1|exact Hv]. }
  eapply sidestep_trans; [exact H1|].
  unfold strafe_A.
  destruct (isPressed app GLFW_KEY_A || isPressed app GLFW_KEY_LEFT);
    [|apply sidestep_refl].
  destruct (level (world st1) =? 3)%Z.
  - destruct (fgt _ _); [apply step_right_sidestep, Hv1|apply sidestep_refl].
  - destruct (flt _ _); [apply step_left_sidestep, Hv1|apply sidestep_refl].
Qed.

(** ** The view: pitch, yaw and field of view *)

Lemma clamped_pitch_range (a : float) :
  - pitch_limit <= clamped_pitch a <= pitch_limit.
Proof.
  unfold clamped_pitch, pitch_limit.
  assert (Hpos : 0 < half_pi * (99 # 100)) by reflexivity.
  assert (Hneg : - half_pi * (99 # 100) == - (half_pi * (99 # 100))) by ring.
  destruct (flt a (- half_pi * (99 # 100))) eqn:E1.
  - destruct (fgt _ _) eqn:E2.
    + split; lra.
    + split; lra.
  - apply flt_false in E1.
    destruct (fgt a _) eqn:E2.
    + split; lra.
    + apply fgt_false in E2. split; lra.
Qed.

Lemma clamped_pitch_level (a : float) : a == 0 -> clamped_pitch a = a.
Proof.
  intros H. unfold clamped_pitch.
  assert (Hpos : 0 < half_pi * (99 # 100)) by reflexivity.
  assert (Hneg : - half_pi * (99 # 100) == - (half_pi * (99 # 100))) by ring.
  destruct (flt a (- half_pi * (99 # 100))) eqn:E1.
  - apply flt_spec in E1. lra.
  - destruct (fgt a _) eqn:E2; [|reflexivity].
    apply fgt_spec in E2. lra.
Qed.

Lemma clamp_pitch_rotation c st :
  valid st c ->
  rotation_of (clamp_pitch c st) c
  = set_x (clamped_pitch (vx (rotation_of st c))) (rotation_of st c)
  \/ rotation_of (clamp_pitch c st) c = rotation_of st c
     /\ clamped_pitch (vx (rotation_of st c)) = vx (rotation_of st c).
Proof.
  intros Hv. unfold clamp_pitch, clamped_pitch.
  destruct (flt (vx (rotation_of st c)) _) eqn:E1.
  - rewrite (rotation_write_rotation _ c st Hv). cbn [vx set_x].
    assert (V1 : valid (write_rotation (set_x (- half_pi * (99 # 100))) c st) c)
      by (apply valid_write_rotation; exact Hv).
    destruct (fgt _ _) eqn:E2.
    + left. rewrite rotation_write_rotation by exact V1.
      rewrite rotation_write_rotation by exact Hv. reflexivity.
    + left. rewrite rotation_write_rotation by exact Hv. reflexivity.
  - destruct (fgt _ _) eqn:E2.
    + left. rewrite rotation_write_rotation by exact Hv. reflexivity.
    + right. split; reflexivity.
Qed.

Lemma view_stage_spec app c st :
  valid st c ->
  let st' := view_stage app c st in
  turns c st st' /\
  jumpState (system st') = jumpState (system st) /\
  slideState (system st') = slideState (system st) /\
  slideTime (system st') = slideTime (system st) /\
  motionState st' = motionState st /\
  isSlided st' = isSlided st /\
  vx (rotation_of st' c) = clamped_pitch (vx (rotation_of st c)) /\
  vy (rotation_of st' c) = wrapAngle (vy (rotation_of st c)) /\
  vz (rotation_of st' c) = vz (rotation_of st c).
Proof.
  intros Hv. unfold view_stage.
  set (st1 := lock_mouse app st).
  assert (W1 : world st1 = world st) by apply lock_mouse_world.
  assert (R1 : rotation_of st1 c = rotation_of st c)
    by (unfold rotation_of; rewrite W1; reflexivity).
  assert (V1 : valid st1 c) by (unfold valid; rewrite W1; exact Hv).
  assert (S1 : jumpState (system st1) = jumpState (system st) /\
               slideState (system st1) = slideState (system st) /\
               slideTime (system st1) = slideTime (system st) /\
               motionState st1 = motionState st /\ isSlided st1 = isSlided st).
  { unfold st1, lock_mouse. repeat (destruct (_ && _)); repeat split. }
  set (st2 := clamp_pitch c st1).
  assert (T2 : turns c st1 st2) by apply clamp_pitch_turns.
  assert (V2 : valid st2 c) by (apply (keeps_kinds_valid st1 st2 c); [apply T2|exact V1]).
  assert (S2 : system st2 = system st1 /\ motionState st2 = motionState st1 /\
               isSlided st2 = isSlided st1).
  { unfold st2, clamp_pitch. destruct (flt _ _); destruct (fgt _ _); repeat split. }
  set (st3 := wrap_yaw c st2).
  assert (T3 : turns c st2 st3) by apply wrap_yaw_turns.
  assert (R3 : rotation_of st3 c
               = set_y (wrapAngle (vy (rotation_of st2 c))) (rotation_of st2 c)).
  { unfold st3, wrap_yaw. rewrite rotation_write_rotation by exact V2. reflexivity. }
  set (st4 := update_fov app c st3).
  assert (T4 : turns c st3 st4) by apply update_fov_turns.
  assert (R4 : rotation_of st4 c = rotation_of st3 c) by apply update_fov_rotation.
  assert (S4 : system st4 = system st3 /\ motionState st4 = motionState st3 /\
               isSlided st4 = isSlided st3).
  { unfold st4, update_fov. destruct (camera _); [|repeat split].
    destruct (controller _); repeat split. }
  destruct S1 as (A1 & B1 & C1 & D1 & E1).
  destruct S2 as (A2 & D2 & E2). destruct S4 as (A4 & D4 & E4).
  assert (A3 : system st3 = system st2) by reflexivity.
  assert (D3 : motionState st3 = motionState st2) by reflexivity.
  assert (E3 : isSlided st3 = isSlided st2) by reflexivity.
  rewrite A4, A3, A2, A1, B1, C1, D4, D3, D2, D1, E4, E3, E2, E1, R4, R3.
  cbn [vx vy vz set_y].
  split_all; try reflexivity.
  - eapply turns_trans; [apply turns_same_world; exact W1|].
    eapply turns_trans; [exact T2|]. eapply turns_trans; eassumption.
  - destruct (clamp_pitch_rotation c st1 V1) as [H|[H H']].
    + fold st2 in H. rewrite H, R1. reflexivity.
    + fold st2 in H. rewrite H, R1. rewrite R1 in H'. symmetry. exact H'.
  - destruct (clamp_pitch_rotation c st1 V1) as [H|[H H']];
      fold st2 in H; rewrite H, R1; reflexivity.
  - destruct (clamp_pitch_rotation c st1 V1) as [H|[H H']];
      fold st2 in H; rewrite H, R1; reflexivity.
Qed.

Lemma move_keys_spec app dt c cf cu sens st :
  valid st c ->
  let st' := move_keys app dt c cf cu sens st in
  system st' = system st /\ motionState st' = motionState st /\
  isSlided st' = isSlided st /\ pointerLocked st' = pointerLocked st /\
  shifts c st st' /\
  (isPressed app GLFW_KEY_Q = false -> isPressed app GLFW_KEY_E = false ->
   vy cf == 0 -> vy (position_of st' c) == vy (position_of st c)).
Proof.
  intros Hv. cbv zeta. split_all.
  - unfold move_keys. key_cases app; reflexivity.
  - unfold move_keys. key_cases app; reflexivity.
  - unfold move_keys. key_cases app; reflexivity.
  - unfold move_keys. key_cases app; reflexivity.
  - apply move_keys_shifts.
  - intros HQ HE H0. unfold move_keys. rewrite HQ, HE.
    destruct (isPressed app GLFW_KEY_W), (isPressed app GLFW_KEY_S).
    + assert (V1 : valid (write_position (fun p => vadd p (vscale cf (dt * vz sens))) c st) c)
        by (apply valid_write_position; exact Hv).
      rewrite position_write_position by exact V1.
      rewrite position_write_position by exact Hv.
      simpl. rewrite H0. lra.
    + rewrite position_write_position by exact Hv. simpl. rewrite H0. lra.
    + rewrite position_write_position by exact Hv. simpl. rewrite H0. lra.
    + reflexivity.
Qed.

(** ** One frame, as a whole *)

Lemma update_found_summary toMat4 app dt c p st :
  valid st c -> valid st p -> c <> p ->
  let st' := update_found toMat4 app dt c p st in
  let m := camera_matrix toMat4 app c st in
  let y0 := height_at_jump toMat4 app dt c st in
  let j := jumpState (system st) in
  let sl := slideState (system st) in
  let j' := next_jumpState app dt j sl y0 in
  let go := slide_starts app j' sl in
  let sl1 := if go then Slided else sl in
  let t1 := if go then 0 else slideTime (system st) in
  let p1 := if go then slide_position (position_of st p) else position_of st p in
  let r1 := if go then slide_rotation (rotation_of st p) else rotation_of st p in
  let stop := fge (t1 + dt) (dt * 50) in
  keeps_kinds st st' /\
  rotation_of st' c = rotation_of (view_stage app c st) c /\
  jumpState (system st') = j' /\
  (vy (front m) == 0 -> vy (right m) == 0 ->
   vy (position_of st' c) == next_height app dt j sl y0) /\
  (isPressed app GLFW_KEY_Q = false -> isPressed app GLFW_KEY_E = false ->
   vy (front m) == 0 -> y0 == vy (position_of st c)) /\
  match sl1 with
  | Slided =>
      slideState (system st') = (if stop then NORMAL else Slided) /\
      slideTime (system st') = t1 + dt /\
      position_of st' p = (if stop then stand_position p1 else p1) /\
      rotation_of st' p = (if stop then stand_rotation r1 else r1)
  | NORMAL =>
      slideState (system st') = NORMAL /\
      slideTime (system st') = slideTime (system st) /\
      position_of st' p = position_of st p /\
      rotation_of st' p = rotation_of st p
  end.
Proof.
  intros Hc Hp Hne. cbv zeta.
  unfold update_found, height_at_jump, camera_matrix.
  fold (view_stage app c st).
  destruct (view_stage_spec app c st Hc)
    as (T0 & J0 & SL0 & ST0 & M0 & I0 & _).
  set (st0 := view_stage app c st) in *.
  set (m := toMat4 (localTransform (entity_at (world st0) c))).
  assert (Vc0 : valid st0 c) by (apply (keeps_kinds_valid st st0 c); [apply T0|exact Hc]).
  assert (Vp0 : valid st0 p) by (apply (keeps_kinds_valid st st0 p); [apply T0|exact Hp]).
  destruct (move_keys_spec app dt c (front m) (up m) (sensitivity st0 c) st0 Vc0)
    as (S1 & M1 & I1 & L1 & F1 & Y1).
  set (st1 := move_keys app dt c (front m) (up m) (sensitivity st0 c) st0) in *.
  assert (Vc1 : valid st1 c) by (apply (keeps_kinds_valid st0 st1 c); [apply F1|exact Vc0]).
  assert (Vp1 : valid st1 p) by (apply (keeps_kinds_valid st0 st1 p); [apply F1|exact Vp0]).
  destruct (jump_spec app dt c st1 Vc1)
    as (J2 & Y2 & SL2 & ST2 & ML2 & M2 & I2 & L2 & F2).
  set (st2 := jump app dt c st1) in *.
  assert (Vc2 : valid st2 c) by (apply (keeps_kinds_valid st1 st2 c); [apply F2|exact Vc1]).
  assert (Vp2 : valid st2 p) by (apply (keeps_kinds_valid st1 st2 p); [apply F2|exact Vp1]).
  pose proof (slide_spec app dt p st2 Vp2) as H3. cbv zeta in H3.
  destruct H3 as (J3 & ML3 & M3 & L3 & F3 & E3).
  set (st3 := slide app dt p st2) in *.
  assert (Vc3 : valid st3 c) by (apply (keeps_kinds_valid st2 st3 c); [apply F3|exact Vc2]).
  destruct (run_spec app dt c (front m) st3 Vc3) as (S4 & I4 & L4 & F4 & Y4).
  set (st4 := run app dt c (front m) st3) in *.
  assert (Vc4 : valid st4 c) by (apply (keeps_kinds_valid st3 st4 c); [apply F4|exact Vc3]).
  destruct (strafe_spec app dt c p (right m) st4 Vc4) as (S5 & I5 & M5 & L5 & F5 & Y5).
  set (st5 := strafe app dt c p (right m) st4) in *.
  (* the system fields entering the jump logic *)
  rewrite S1, J0, SL0 in J2, Y2. rewrite S1, SL0 in SL2. rewrite S1, ST0 in ST2.
  (* the player before the slide *)
  assert (Pp2 : position_of st2 p = position_of st p).
  { destruct F2 as (_ & _ & P2). rewrite P2 by congruence.
    destruct F1 as (_ & _ & P1). rewrite P1 by congruence.
    destruct T0 as (_ & P0 & _). apply P0. }
  assert (Rp2 : rotation_of st2 p = rotation_of st p).
  { destruct F2 as (_ & R2 & _). rewrite R2.
    destruct F1 as (_ & R1 & _). rewrite R1.
    destruct T0 as (_ & _ & R0). apply R0. congruence. }
  (* after the slide *)
  assert (P5 : forall e, e <> c -> position_of st5 e = position_of st3 e).
  { intros e He. destruct F5 as (_ & _ & P5). rewrite P5 by exact He.
    destruct F4 as (_ & _ & P4). apply P4, He. }
  assert (R5 : forall e, rotation_of st5 e = rotation_of st3 e).
  { intros e. destruct F5 as (_ & R5 & _). rewrite R5.
    destruct F4 as (_ & R4 & _). apply R4. }
  split_all.
  - eapply keeps_kinds_trans; [apply T0|].
    eapply keeps_kinds_trans; [apply F1|].
    eapply keeps_kinds_trans; [apply F2|].
    eapply keeps_kinds_trans; [apply F3|].
    eapply keeps_kinds_trans; [apply F4|apply F5].
  - rewrite R5. destruct F3 as (_ & _ & R3). rewrite R3 by congruence.
    destruct F2 as (_ & R2 & _). rewrite R2.
    destruct F1 as (_ & R1 & _). apply R1.
  - rewrite S5, S4, J3. exact J2.
  - intros Hf Hr. rewrite (Y5 Hr), (Y4 Hf).
    destruct F3 as (_ & P3 & _). rewrite P3 by congruence.
    rewrite Y2. reflexivity.
  - intros HQ HE Hf. rewrite (Y1 HQ HE Hf).
    destruct T0 as (_ & P0 & _). rewrite P0. reflexivity.
  - rewrite S5, S4, P5, R5 by congruence.
    rewrite J2, SL2, ST2, Pp2, Rp2 in E3.
    destruct (slide_starts app _ _).
    + destruct E3 as (A & B & C & D & _). split_all; assumption.
    + destruct (slideState (system st)).
      * destruct E3 as (A & B & C & D & _). split_all; assumption.
      * destruct E3 as (A & B & C & D & _). split_all; assumption.
Qed.

Lemma update_keeps_found toMat4 app dt st c p :
  found st c p -> c <> p -> found (update toMat4 app dt st) c p.
Proof.
  intros Hf Hne. destruct (found_valid _ _ _ Hf) as [Hc Hp].
  rewrite (update_when_found toMat4 app dt st c p Hf).
  eapply keeps_kinds_found; [|exact Hf].
  apply (update_found_summary toMat4 app dt c p st Hc Hp Hne).
Qed.

(* ================================================================== *)
(** * Pitch and yaw (C8) *)
(* ================================================================== *)




(* ================================================================== *)
(** * A level camera *)
(* ================================================================== *)

Lemma translation_level : level_when_upright translation.
Proof. intros t _ _. simpl. split; ring. Qed.

Lemma fge_proper (a a' b : float) : a == a' -> fge a b = fge a' b.
Proof. intros H. unfold fge, fle. rewrite H. reflexivity. Qed.

Lemma fle_proper (a a' b : float) : a == a' -> fle a b = fle a' b.
Proof. intros H. unfold fle. rewrite H. reflexivity. Qed.

Lemma lifted_proper app dt j sl (y y' : float) :
  y == y' -> lifted app dt j sl y == lifted app dt j sl y'.
Proof.
  intros H. unfold lifted. destruct (jump_starts app j sl); rewrite H; reflexivity.
Qed.

Lemma next_jumpState_proper app dt j sl (y y' : float) :
  y == y' -> next_jumpState app dt j sl y = next_jumpState app dt j sl y'.
Proof.
  intros H. unfold next_jumpState.
  rewrite (fge_proper _ _ jumpMaxHeight (lifted_proper app dt j sl y y' H)).
  rewrite (fle_proper _ _ 1 (lifted_proper app dt j sl y y' H)).
  reflexivity.
Qed.

Lemma next_height_proper app dt j sl (y y' : float) :
  y == y' -> next_height app dt j sl y == next_height app dt j sl y'.
Proof.
  intros H. unfold next_height.
  rewrite (next_jumpState_proper app dt j sl y y' H).
  pose proof (lifted_proper app dt j sl y y' H) as HL.
  destruct (next_jumpState app dt j sl y'); rewrite ?HL; reflexivity.
Qed.

(** A frame of a level camera that Q and E do not lift: the jump logic sees
    the height the frame started with. *)
Lemma update_level_frame toMat4 app dt c p st :
  found st c p -> c <> p ->
  level_when_upright toMat4 ->
  vx (rotation_of st c) == 0 -> vz (rotation_of st c) == 0 ->
  isPressed app GLFW_KEY_Q = false -> isPressed app GLFW_KEY_E = false ->
  let st' := update toMat4 app dt st in
  let j := jumpState (system st) in
  let sl := slideState (system st) in
  let y := vy (position_of st c) in
  found st' c p /\
  vx (rotation_of st' c) == 0 /\ vz (rotation_of st' c) == 0 /\
  jumpState (system st') = next_jumpState app dt j sl y /\
  vy (position_of st' c) == next_height app dt j sl y /\
  height_at_jump toMat4 app dt c st == y.
Proof.
  intros Hf Hne Hlev Hx Hz HQ HE. cbv zeta.
  destruct (found_valid _ _ _ Hf) as [Hc Hp].
  pose proof (update_keeps_found toMat4 app dt st c p Hf Hne) as Hf'.
  rewrite (update_when_found toMat4 app dt st c p Hf) in *.
  pose proof (update_found_summary toMat4 app dt c p st Hc Hp Hne) as H.
  cbv zeta in H. destruct H as (_ & R & J & Y & Y0 & _).
  destruct (view_stage_spec app c st Hc)
    as (_ & _ & _ & _ & _ & _ & RX & RY & RZ).
  rewrite (clamped_pitch_level _ Hx) in RX.
  assert (Hm : vy (front (camera_matrix toMat4 app c st)) == 0 /\
               vy (right (camera_matrix toMat4 app c st)) == 0).
  { unfold camera_matrix. apply Hlev.
    - change (vx (rotation_of (view_stage app c st) c) == 0). rewrite RX. exact Hx.
    - change (vz (rotation_of (view_stage app c st) c) == 0). rewrite RZ. exact Hz. }
  destruct Hm as [Hfr Hri].
  specialize (Y Hfr Hri). specialize (Y0 HQ HE Hfr).
  split_all.
  - exact Hf'.
  - rewrite R, RX. exact Hx.
  - rewrite R, RZ. exact Hz.
  - rewrite J. apply next_jumpState_proper. exact Y0.
  - rewrite Y. apply next_height_proper. exact Y0.
  - exact Y0.
Qed.

(* ================================================================== *)
(** * Height and jump state in one frame (C2) *)
(* ================================================================== *)




(* ================================================================== *)
(** * The jump, frame after frame (C1) *)
(* ================================================================== *)

Lemma jump_starts_airborne app j sl :
  j <> GROUNDED -> jump_starts app j sl = false.
Proof.
  intros H. unfold jump_starts. destruct j; try congruence;
    simpl; apply andb_false_r.
Qed.

Lemma airborne_next_jumpState app dt j sl y :
  j <> GROUNDED ->
  next_jumpState app dt j sl y
  = (if fge y jumpMaxHeight then FALLING else if fle y 1 then GROUNDED else j).
Proof.
  intros H. unfold next_jumpState, lifted.
  rewrite (jump_starts_airborne app j sl H). reflexivity.
Qed.

Lemma airborne_next_height app dt j sl y :
  j <> GROUNDED ->
  next_height app dt j sl y
  = match next_jumpState app dt j sl y with
    | JUMPING => y + dt * jumpSpeed
    | FALLING => y - dt * jumpSpeed
    | GROUNDED => 1
    end.
Proof.
  intros H. unfold next_height, lifted.
  rewrite (jump_starts_airborne app j sl H). reflexivity.
Qed.

(** Enough steps of size [e] cover any distance. *)
Lemma enough_steps (q e : Q) :
  0 < e -> exists N : nat, q <= inject_Z (Z.of_nat N) * e.
Proof.
  intros He.
  exists (Z.to_nat (Qceiling (q / e))).
  destruct (Qlt_le_dec q 0) as [Hneg|Hpos].
  - assert (0 <= inject_Z (Z.of_nat (Z.to_nat (Qceiling (q / e)))) * e).
    { apply Qmult_le_0_compat; [|lra].
      change 0 with (inject_Z 0). rewrite <- Zle_Qle. lia. }
    lra.
  - assert (H0 : 0 <= q / e).
    { apply Qle_shift_div_l; [exact He|]. lra. }
    assert (Hc : (0 <= Qceiling (q / e))%Z).
    { change 0%Z with (Qceiling 0). apply Qceiling_resp_le. exact H0. }
    rewrite Z2Nat.id by exact Hc.
    pose proof (Qle_ceiling (q / e)) as Hle.
    assert (Hq : q == (q / e) * e) by (field; lra).
    rewrite Hq at 1. apply Qmult_le_compat_r; [exact Hle|lra].
Qed.

Section JumpCycle.

Variable toMat4 : Transform -> mat4.
Variable inputs : nat -> Application * float.
Variable eps : float.
Variables (st : State) (c p : nat).

Hypothesis Hfound : found st c p.
Hypothesis Hne : c <> p.
Hypothesis Hlevel : level_when_upright toMat4.
Hypothesis Hpitch : vx (rotation_of st c) == 0.
Hypothesis Hroll : vz (rotation_of st c) == 0.
Hypothesis Heps : 0 < eps.
Hypothesis Hinputs :
  forall k, eps <= snd (inputs k) /\
            isPressed (fst (inputs k)) GLFW_KEY_Q = false /\
            isPressed (fst (inputs k)) GLFW_KEY_E = false.

Local Abbreviation phase := (phase_at toMat4 inputs st).
Local Abbreviation height := (height_at toMat4 inputs st c).

Lemma level_all (k : nat) :
  found (after toMat4 inputs k st) c p /\
  vx (rotation_of (after toMat4 inputs k st) c) == 0 /\
  vz (rotation_of (after toMat4 inputs k st) c) == 0.
Proof using Hfound Hne Hlevel Hpitch Hroll Hinputs.
  induction k as [|k (F & X & Z)].
  - simpl. auto.
  - destruct (Hinputs k) as (_ & HQ & HE).
    pose proof (update_level_frame toMat4 (fst (inputs k)) (snd (inputs k))
                  c p _ F Hne Hlevel X Z HQ HE) as H.
    cbv zeta in H. destruct H as (F' & X' & Z' & _).
    simpl. auto.
Qed.

Lemma frame_step (k : nat) :
  phase (S k)
  = next_jumpState (fst (inputs k)) (snd (inputs k)) (phase k)
      (slideState (system (after toMat4 inputs k st))) (height k) /\
  height (S k)
  == next_height (fst (inputs k)) (snd (inputs k)) (phase k)
       (slideState (system (after toMat4 inputs k st))) (height k).
Proof using Hfound Hne Hlevel Hpitch Hroll Hinputs.
  destruct (level_all k) as (F & X & Z).
  destruct (Hinputs k) as (_ & HQ & HE).
  pose proof (update_level_frame toMat4 (fst (inputs k)) (snd (inputs k))
                c p _ F Hne Hlevel X Z HQ HE) as H.
  cbv zeta in H. destruct H as (_ & _ & _ & J & Y & _).
  unfold phase_at, height_at. simpl. split; assumption.
Qed.

(** While JUMPING below the maximal height, the camera rises. *)
Lemma rising_step (k : nat) :
  phase k = JUMPING -> 1 < height k -> height k < jumpMaxHeight ->
  phase (S k) = JUMPING /\
  height (S k) == height k + snd (inputs k) * jumpSpeed.
Proof using Hfound Hne Hlevel Hpitch Hroll Hinputs.
  intros Hp H1 H4. destruct (frame_step k) as [J Y].
  rewrite Hp in J, Y.
  rewrite airborne_next_height in Y by discriminate.
  rewrite airborne_next_jumpState in J, Y by discriminate.
  assert (E4 : fge (height k) jumpMaxHeight = false) by (apply fge_false; exact H4).
  assert (E1 : fle (height k) 1 = false) by (apply fle_false; exact H1).
  rewrite E4, E1 in J, Y. split; assumption.
Qed.

(** At or above the maximal height, the camera starts to fall. *)
Lemma turning_step (k : nat) :
  phase k <> GROUNDED -> jumpMaxHeight <= height k ->
  phase (S k) = FALLING /\
  height (S k) == height k - snd (inputs k) * jumpSpeed.
Proof using Hfound Hne Hlevel Hpitch Hroll Hinputs.
  intros Hp H4. destruct (frame_step k) as [J Y].
  rewrite airborne_next_height in Y by exact Hp.
  rewrite airborne_next_jumpState in J, Y by exact Hp.
  assert (E4 : fge (height k) jumpMaxHeight = true) by (apply fge_spec; exact H4).
  rewrite E4 in J, Y. split; assumption.
Qed.

(** While FALLING above the ground, the camera falls. *)
Lemma falling_step (k : nat) :
  phase k = FALLING -> 1 < height k ->
  phase (S k) = FALLING /\
  height (S k) == height k - snd (inputs k) * jumpSpeed.
Proof using Hfound Hne Hlevel Hpitch Hroll Hinputs.
  intros Hp H1. destruct (frame_step k) as [J Y].
  rewrite Hp in J, Y.
  rewrite airborne_next_height in Y by discriminate.
  rewrite airborne_next_jumpState in J, Y by discriminate.
  assert (E1 : fle (height k) 1 = false) by (apply fle_false; exact H1).
  rewrite E1 in J, Y.
  destruct (fge (height k) jumpMaxHeight); split; assumption.
Qed.

(** FALLING at ground height or below, the camera lands. *)
Lemma landing_step (k : nat) :
  phase k = FALLING -> height k <= 1 ->
  phase (S k) = GROUNDED /\ height (S k) == 1.
Proof using Hfound Hne Hlevel Hpitch Hroll Hinputs.
  intros Hp H1. destruct (frame_step k) as [J Y].
  rewrite Hp in J, Y.
  rewrite airborne_next_height in Y by discriminate.
  rewrite airborne_next_jumpState in J, Y by discriminate.
  assert (E4 : fge (height k) jumpMaxHeight = false).
  { apply fge_false. unfold jumpMaxHeight. lra. }
  assert (E1 : fle (height k) 1 = true) by (apply fle_spec; exact H1).
  rewrite E4, E1 in J, Y. split; assumption.
Qed.

Lemma step_size (k : nat) : eps * jumpSpeed <= snd (inputs k) * jumpSpeed.
Proof using Hinputs.
  destruct (Hinputs k) as (H & _). unfold jumpSpeed. lra.
Qed.

Lemma rise (N : nat) :
  forall k, phase k = JUMPING -> 1 < height k ->
    jumpMaxHeight - height k <= inject_Z (Z.of_nat N) * (eps * jumpSpeed) ->
    exists n, (k <= n)%nat /\
      (forall i, (k < i <= n)%nat ->
                 phase i = JUMPING /\ height (i - 1) < height i) /\
      (forall i, (k <= i < n)%nat -> height i < jumpMaxHeight) /\
      jumpMaxHeight <= height n /\ phase n = JUMPING.
Proof using Hfound Hne Hlevel Hpitch Hroll Heps Hinputs.
  induction N as [|N IH]; intros k Hp H1 HN.
  - exists k. split_all; try lia; try assumption.
    change (inject_Z (Z.of_nat 0)) with 0 in HN. lra.
  - destruct (Qlt_le_dec (height k) jumpMaxHeight) as [Hlt|Hge].
    + destruct (rising_step k Hp H1 Hlt) as [Hp' Hy'].
      pose proof (step_size k) as Hs.
      assert (Hpos : 0 < eps * jumpSpeed) by (unfold jumpSpeed; lra).
      assert (HN' : jumpMaxHeight - height (S k)
                    <= inject_Z (Z.of_nat N) * (eps * jumpSpeed)).
      { rewrite Nat2Z.inj_succ, <- Z.add_1_r, inject_Z_plus in HN.
        change (inject_Z 1) with 1 in HN. rewrite Hy'. lra. }
      assert (H1' : 1 < height (S k)) by (rewrite Hy'; lra).
      destruct (IH (S k) Hp' H1' HN') as (n & Hle & A & B & C & D).
      exists n. split_all; try assumption; try lia.
      * intros i Hi. destruct (decide (i = S k)) as [->|Hi'].
        -- split; [exact Hp'|].
           replace (S k - 1)%nat with k by lia. rewrite Hy'. lra.
        -- apply A. lia.
      * intros i Hi. destruct (decide (i = k)) as [->|Hi'].
        -- exact Hlt.
        -- apply B. lia.
    + exists k. split_all; try lia; assumption.
Qed.

Lemma fall (N : nat) :
  forall k, phase k = FALLING ->
    height k - 1 <= inject_Z (Z.of_nat N) * (eps * jumpSpeed) ->
    exists n, (k <= n)%nat /\
      (forall i, (k < i <= n)%nat ->
                 phase i = FALLING /\ height i < height (i - 1)) /\
      (forall i, (k <= i < n)%nat -> 1 < height i) /\
      height n <= 1 /\ phase n = FALLING.
Proof using Hfound Hne Hlevel Hpitch Hroll Heps Hinputs.
  induction N as [|N IH]; intros k Hp HN.
  - exists k. split_all; try lia; try assumption.
    change (inject_Z (Z.of_nat 0)) with 0 in HN. lra.
  - destruct (Qlt_le_dec 1 (height k)) as [Hgt|Hle1].
    + destruct (falling_step k Hp Hgt) as [Hp' Hy'].
      pose proof (step_size k) as Hs.
      assert (Hpos : 0 < eps * jumpSpeed) by (unfold jumpSpeed; lra).
      assert (HN' : height (S k) - 1
                    <= inject_Z (Z.of_nat N) * (eps * jumpSpeed)).
      { rewrite Nat2Z.inj_succ, <- Z.add_1_r, inject_Z_plus in HN.
        change (inject_Z 1) with 1 in HN. rewrite Hy'. lra. }
      destruct (IH (S k) Hp' HN') as (n & Hle & A & B & C & D).
      exists n. split_all; try assumption; try lia.
      * intros i Hi. destruct (decide (i = S k)) as [->|Hi'].
        -- split; [exact Hp'|].
           replace (S k - 1)%nat with k by lia. rewrite Hy'. lra.
        -- apply A. lia.
      * intros i Hi. destruct (decide (i = k)) as [->|Hi'].
        -- exact Hgt.
        -- apply B. lia.
    + exists k. split_all; try lia; assumption.
Qed.

End JumpCycle.




(** The jump of [jump_once], frame by frame. *)
Example jump_once_trace :
  map (fun k => (phase_at translation jump_once scene k,
                 Qred (height_at translation jump_once scene 0%nat k)))
      (seq 0 11)
  = [(GROUNDED, 1); (JUMPING, 11 # 5); (JUMPING, 14 # 5); (JUMPING, 17 # 5);
     (JUMPING, 4); (FALLING, 17 # 5); (FALLING, 14 # 5); (FALLING, 11 # 5);
     (FALLING, 8 # 5); (FALLING, 1); (GROUNDED, 1)].
Proof. vm_compute. reflexivity. Qed.

(* ================================================================== *)
(** * The slide, frame after frame (C3) *)
(* ================================================================== *)

Lemma stand_after_slide_position (q : vec3) :
  veq (stand_position (slide_position q)) q.
Proof. unfold veq. simpl. split_all; lra. Qed.

Lemma stand_after_slide_rotation (r : vec3) :
  veq (stand_rotation (slide_rotation r)) r.
Proof. unfold veq. simpl. split_all; lra. Qed.

Lemma grounded_stays app dt y :
  isPressed app GLFW_KEY_SPACE || isPressed app GLFW_KEY_UP = false ->
  y < jumpMaxHeight ->
  next_jumpState app dt GROUNDED NORMAL y = GROUNDED.
Proof.
  intros Hk Hy. unfold next_jumpState, lifted, jump_starts. rewrite Hk. simpl.
  assert (E : fge y jumpMaxHeight = false) by (apply fge_false; exact Hy).
  rewrite E. destruct (fle y 1); reflexivity.
Qed.

(** The frame in which the slide starts. *)
Lemma slide_first_frame toMat4 app dt c p st :
  found st c p -> c <> p ->
  level_when_upright toMat4 ->
  vx (rotation_of st c) == 0 -> vz (rotation_of st c) == 0 ->
  isPressed app GLFW_KEY_Q = false -> isPressed app GLFW_KEY_E = false ->
  isPressed app GLFW_KEY_SPACE || isPressed app GLFW_KEY_UP = false ->
  isPressed app GLFW_KEY_S || isPressed app GLFW_KEY_DOWN = true ->
  levelState app <> 3%Z ->
  jumpState (system st) = GROUNDED -> slideState (system st) = NORMAL ->
  vy (position_of st c) < jumpMaxHeight ->
  let st' := update toMat4 app dt st in
  let stop := fge (0 + dt) (dt * 50) in
  slideState (system st') = (if stop then NORMAL else Slided) /\
  slideTime (system st') = 0 + dt /\
  position_of st' p
    = (if stop then stand_position (slide_position (position_of st p))
       else slide_position (position_of st p)) /\
  rotation_of st' p
    = (if stop then stand_rotation (slide_rotation (rotation_of st p))
       else slide_rotation (rotation_of st p)).
Proof.
  intros Hf Hne Hlev Hx Hz HQ HE Hjump Hslide Hlvl Hj Hsl Hy. cbv zeta.
  destruct (found_valid _ _ _ Hf) as [Hc Hp].
  pose proof (update_level_frame toMat4 app dt c p st Hf Hne Hlev Hx Hz HQ HE)
    as HL. cbv zeta in HL. destruct HL as (_ & _ & _ & _ & _ & Y0).
  rewrite (update_when_found toMat4 app dt st c p Hf).
  pose proof (update_found_summary toMat4 app dt c p st Hc Hp Hne) as H.
  cbv zeta in H. destruct H as (_ & _ & _ & _ & _ & E).
  rewrite (next_jumpState_proper app dt _ _ _ _ Y0) in E.
  rewrite Hj, Hsl in E. rewrite (grounded_stays app dt _ Hjump Hy) in E.
  assert (Hgo : slide_starts app GROUNDED NORMAL = true).
  { unfold slide_starts. rewrite Hslide. simpl.
    apply Z.eqb_neq in Hlvl. rewrite Hlvl. reflexivity. }
  rewrite Hgo in E. exact E.
Qed.

(** A frame that finds the slide going on. *)
Lemma slide_later_frame toMat4 app dt c p st :
  found st c p -> c <> p ->
  slideState (system st) = Slided ->
  let st' := update toMat4 app dt st in
  let stop := fge (slideTime (system st) + dt) (dt * 50) in
  slideState (system st') = (if stop then NORMAL else Slided) /\
  slideTime (system st') = slideTime (system st) + dt /\
  position_of st' p
    = (if stop then stand_position (position_of st p) else position_of st p) /\
  rotation_of st' p
    = (if stop then stand_rotation (rotation_of st p) else rotation_of st p).
Proof.
  intros Hf Hne Hsl. cbv zeta.
  destruct (found_valid _ _ _ Hf) as [Hc Hp].
  rewrite (update_when_found toMat4 app dt st c p Hf).
  pose proof (update_found_summary toMat4 app dt c p st Hc Hp Hne) as H.
  cbv zeta in H. destruct H as (_ & _ & _ & _ & _ & E).
  rewrite Hsl in E.
  assert (Hgo : forall j, slide_starts app j Slided = false).
  { intros j. unfold slide_starts. simpl. apply andb_false_r. }
  rewrite Hgo in E. exact E.
Qed.

Section SlideCycle.

Variable toMat4 : Transform -> mat4.
Variable inputs : nat -> Application * float.
Variables (st : State) (c p : nat).
Variable K : nat.

Hypothesis Hfound : found st c p.
Hypothesis Hne : c <> p.
Hypothesis Hfirst :
  let st' := update toMat4 (fst (inputs 0%nat)) (snd (inputs 0%nat)) st in
  let stop := fge (0 + snd (inputs 0%nat)) (snd (inputs 0%nat) * 50) in
  slideState (system st') = (if stop then NORMAL else Slided) /\
  slideTime (system st') = 0 + snd (inputs 0%nat) /\
  position_of st' p
    = (if stop then stand_position (slide_position (position_of st p))
       else slide_position (position_of st p)) /\
  rotation_of st' p
    = (if stop then stand_rotation (slide_rotation (rotation_of st p))
       else slide_rotation (rotation_of st p)).
Hypothesis Hbefore :
  forall k, (k < K)%nat -> slid_for inputs (S k) < snd (inputs k) * 50.

Lemma found_all (k : nat) : found (after toMat4 inputs k st) c p.
Proof using Hfound Hne.
  induction k as [|k IH]; [exact Hfound|].
  simpl. apply update_keeps_found; assumption.
Qed.

Lemma sliding (k : nat) :
  (1 <= k <= K)%nat ->
  slideState (system (after toMat4 inputs k st)) = Slided /\
  slideTime (system (after toMat4 inputs k st)) = slid_for inputs k /\
  position_of (after toMat4 inputs k st) p = slide_position (position_of st p) /\
  rotation_of (after toMat4 inputs k st) p = slide_rotation (rotation_of st p).
Proof using Hfound Hne Hfirst Hbefore.
  induction k as [|k IH]; [lia|]. intros Hk.
  destruct k as [|k].
  - cbv zeta in Hfirst. simpl.
    assert (E : fge (0 + snd (inputs 0%nat)) (snd (inputs 0%nat) * 50) = false).
    { apply fge_false. apply (Hbefore 0%nat). lia. }
    rewrite E in Hfirst. exact Hfirst.
  - destruct (IH ltac:(lia)) as (A & B & C & D).
    pose proof (slide_later_frame toMat4 (fst (inputs (S k))) (snd (inputs (S k)))
                  c p _ (found_all (S k)) Hne A) as H.
    cbv zeta in H. rewrite B, C, D in H.
    assert (E : fge (slid_for inputs (S k) + snd (inputs (S k)))
                    (snd (inputs (S k)) * 50) = false).
    { apply fge_false. apply (Hbefore (S k)). lia. }
    rewrite E in H. exact H.
Qed.

Lemma slide_over :
  snd (inputs K) * 50 <= slid_for inputs (S K) ->
  slideState (system (after toMat4 inputs (S K) st)) = NORMAL /\
  position_of (after toMat4 inputs (S K) st) p
    = stand_position (slide_position (position_of st p)) /\
  rotation_of (after toMat4 inputs (S K) st) p
    = stand_rotation (slide_rotation (rotation_of st p)).
Proof using Hfound Hne Hfirst Hbefore.
  destruct (decide (K = 0%nat)) as [E0|E0].
  - rewrite E0. intros Hend. cbv zeta in Hfirst. simpl.
    assert (E : fge (0 + snd (inputs 0%nat)) (snd (inputs 0%nat) * 50) = true).
    { apply fge_spec. exact Hend. }
    rewrite E in Hfirst. destruct Hfirst as (A & _ & C & D). auto.
  - intros Hend.
    destruct (sliding K ltac:(lia)) as (A & B & C & D).
    pose proof (slide_later_frame toMat4 (fst (inputs K)) (snd (inputs K))
                  c p _ (found_all K) Hne A) as H.
    cbv zeta in H. rewrite B, C, D in H.
    assert (E : fge (slid_for inputs K + snd (inputs K))
                    (snd (inputs K) * 50) = true).
    { apply fge_spec. exact Hend. }
    rewrite E in H. destruct H as (A' & _ & C' & D'). auto.
Qed.

End SlideCycle.




(** The slide of [slide_once]: the timer and the player's position after
    0, 1, 49 and 50 frames. *)
Example slide_once_trace :
  map (fun k =>
         let st := after translation slide_once k scene in
         (slideState (system st), Qred (slideTime (system st)),
          position_of st 1%nat))
      [0; 1; 49; 50]%nat
  = [(NORMAL, 0, Vec3 0 (-1) (-2));
     (Slided, 1 # 60, Vec3 0 (-1 + 1) (-2 - 1));
     (Slided, 49 # 60, Vec3 0 (-1 + 1) (-2 - 1));
     (NORMAL, 5 # 6, Vec3 0 (-1 + 1 - 1) (-2 - 1 + 1))].
Proof. reflexivity. Qed.

(* ================================================================== *)
(** * Deserialization: equations *)
(* ================================================================== *)

(** Induction on JSON values, through arrays and objects. *)
Lemma json_ind (P : json -> Prop)
    (Hnull : P Jnull) (Hbool : forall b, P (Jbool b))
    (Hnum : forall q, P (Jnum q)) (Hstr : forall s, P (Jstr s))
    (Harr : forall items, Forall P items -> P (Jarr items))
    (Hobj : forall fields, Forall (fun kv => P (snd kv)) fields -> P (Jobj fields)) :
  forall j, P j.
Proof.
  fix IH 1. intros [| b | q | s | items | fields].
  - exact Hnull.
  - apply Hbool.
  - apply Hnum.
  - apply Hstr.
  - apply Harr. induction items as [|x r IHr]; constructor.
    + apply IH.
    + exact IHr.
  - apply Hobj. induction fields as [|kv r IHr]; constructor.
    + apply IH.
    + exact IHr.
Qed.

Section DeserializeEquations.

Variable readEntity : json -> Entity -> Entity.

Lemma deserialize_not_array (data : json) (parent : option nat) (s : Loader) :
  (forall items, data <> Jarr items) ->
  deserialize readEntity data parent s = Done s.
Proof.
  intros H. destruct data; try reflexivity. exfalso. eapply H. reflexivity.
Qed.

Lemma deserialize_array (items : list json) (parent : option nat) (s : Loader) :
  deserialize readEntity (Jarr items) parent s
  = deserialize_each readEntity items parent s.
Proof.
  cbn [deserialize]. revert s.
  induction items as [|entityData rest IH]; intros s; [reflexivity|].
  cbn [deserialize_each]. unfold deserialize_entity.
  destruct (create readEntity entityData parent s) as [newEntity s1].
  assert (E : match entityData with
              | Jobj fields =>
                  (fix children (fs : list (string * json)) : outcome Loader :=
                     match fs with
                     | [] => Done s1
                     | (k, v) :: fs' =>
                         if String.eqb k "children"
                         then deserialize readEntity v (Some newEntity) s1
                         else children fs'
                     end) fields
              | _ => Done s1
              end
              = deserialize_children readEntity entityData newEntity s1).
  { unfold deserialize_children, contains, at_key.
    destruct entityData as [| | | | |fields]; try reflexivity.
    induction fields as [|[k v] fs IHfs]; [reflexivity|].
    cbn [assoc]. destruct (String.eqb k "children"); [reflexivity|].
    exact IHfs. }
  rewrite E.
  destruct (deserialize_children readEntity entityData newEntity s1)
    as [s2| |]; try reflexivity.
  cbn [mbind outcome_bind bind].
  destruct (duplicate_entities readEntity entityData parent s2)
    as [s3| |]; try reflexivity.
  cbn [mbind outcome_bind bind]. apply IH.
Qed.

Lemma original_parent (entityData : json) (par : option nat) :
  parent (original readEntity entityData par) = par.
Proof. reflexivity. Qed.

Lemma update_last (f : Entity -> Entity) (l : list Entity) (x : Entity)
    (lv : Z) :
  update_entity f (length l) (mkWorld (l ++ [x]) lv) = mkWorld (l ++ [f x]) lv.
Proof.
  unfold update_entity. cbn [entities level].
  rewrite (list_lookup_middle l [] x (length l) eq_refl).
  f_equal. rewrite insert_app_r_alt by lia.
  rewrite Nat.sub_diag. reflexivity.
Qed.

Lemma create_spec (entityData : json) (par : option nat) (s : Loader) :
  create readEntity entityData par s
  = (length (entities (this s)),
     mkLoader (mkWorld (entities (this s) ++ [original readEntity entityData par])
                       (level (this s)))
              (entityMap s) (randoms s) (placed s)).
Proof.
  unfold create, add. rewrite !update_last. reflexivity.
Qed.

End DeserializeEquations.

(* ================================================================== *)
(** * The occupancy grid *)
(* ================================================================== *)

Lemma grid_shape_init : grid_shape entityMap_init.
Proof.
  unfold grid_shape, entityMap_init. split.
  - apply length_replicate.
  - apply Forall_replicate. reflexivity.
Qed.

Lemma grid_shape_occupy m v h : grid_shape m -> grid_shape (occupy m v h).
Proof.
  intros [Hl Hr]. unfold occupy.
  destruct (m !! Z.to_nat v) as [row|] eqn:E; [|split; assumption].
  split.
  - rewrite length_insert. exact Hl.
  - apply Forall_insert; [exact Hr|].
    rewrite length_insert.
    exact (proj1 (Forall_lookup _ m) Hr _ _ E).
Qed.

Lemma occupied_occupy m v h :
  grid_shape m -> in_grid (v, h) -> occupied (occupy m v h) v h = true.
Proof.
  intros [Hl Hr] [Hv Hh]. simpl in Hv, Hh. unfold occupy, occupied.
  assert (Hlt : (Z.to_nat v < length m)%nat).
  { rewrite Hl. unfold ENTITIES_UPPER_LIMIT in *. lia. }
  destruct (lookup_lt_is_Some_2 _ _ Hlt) as [row E]. rewrite E.
  rewrite list_lookup_insert_eq by exact Hlt.
  assert (Hrow : length row = 7%nat)
    by exact (proj1 (Forall_lookup _ m) Hr _ _ E).
  rewrite list_lookup_insert_eq by (rewrite Hrow; lia). reflexivity.
Qed.

Lemma occupied_occupy_mono m v h v' h' :
  occupied m v' h' = true -> occupied (occupy m v h) v' h' = true.
Proof.
  unfold occupy, occupied. intros H.
  destruct (m !! Z.to_nat v) as [row|] eqn:E; [|exact H].
  destruct (decide (Z.to_nat v = Z.to_nat v')) as [Ev|Ev].
  - rewrite <- Ev in *. rewrite E in H.
    rewrite list_lookup_insert_eq by (eapply lookup_lt_Some; eassumption).
    destruct (decide (Z.to_nat h = Z.to_nat h')) as [Eh|Eh].
    + rewrite <- Eh in *.
      destruct (row !! Z.to_nat h) as [b|] eqn:Er; [|discriminate H].
      rewrite list_lookup_insert_eq by (eapply lookup_lt_Some; eassumption).
      reflexivity.
    + rewrite list_lookup_insert_ne by exact Eh. exact H.
  - rewrite list_lookup_insert_ne by exact Ev. exact H.
Qed.

Lemma randomNumber_range (lo hi : Z) (r : N) :
  (lo <= hi)%Z -> (lo <= randomNumber lo hi r <= hi)%Z.
Proof.
  intros H. unfold randomNumber.
  pose proof (Z.rem_bound_pos (Z.of_N r) (hi - lo + 1)) as Hb.
  specialize (Hb ltac:(lia) ltac:(lia)). lia.
Qed.

Lemma random_cell_in_grid (r1 r2 : N) :
  in_grid (randomNumber 0 (ENTITIES_UPPER_LIMIT - 1) r2, randomNumber 0 6 r1).
Proof.
  pose proof (randomNumber_range 0 (ENTITIES_UPPER_LIMIT - 1) r2) as H2.
  pose proof (randomNumber_range 0 6 r1) as H1.
  unfold in_grid, ENTITIES_UPPER_LIMIT in *. simpl fst. simpl snd. lia.
Qed.

(** When the search loop ends, it ends on a free cell of the grid. *)
Lemma while_occupied_spec m (rs : list N) :
  forall h v h' v' rs',
    in_grid (v, h) ->
    while_occupied m h v rs = Done (h', v', rs') ->
    in_grid (v', h') /\ occupied m v' h' = false /\
    (length rs' <= length rs)%nat.
Proof.
  induction rs as [rs IH] using (induction_ltof1 _ (@length N)).
  unfold ltof in IH. intros h v h' v' rs' Hin H.
  destruct rs as [|r1 [|r2 rs2]]; cbn [while_occupied] in H.
  - destruct (occupied m v h) eqn:E; [discriminate|].
    inversion H; subst. auto.
  - destruct (occupied m v h) eqn:E; [discriminate|].
    inversion H; subst. auto.
  - destruct (occupied m v h) eqn:E.
    + destruct (IH rs2 ltac:(simpl; lia) _ _ _ _ _
                  (random_cell_in_grid r1 r2) H) as (A & B & C).
      split_all; try assumption. simpl. lia.
    + inversion H; subst. auto.
Qed.

(** The loop ends as soon as the random numbers name a free cell. *)
Lemma while_occupied_ends m (rs : list N) :
  forall h v,
    occupied m v h = false -> while_occupied m h v rs = Done (h, v, rs).
Proof.
  intros h v H. destruct rs; cbn [while_occupied]; rewrite H; reflexivity.
Qed.

(* ================================================================== *)
(** * The duplicates of one description *)
(* ================================================================== *)

Lemma world_eta (w : World) : w = mkWorld (entities w) (level w).
Proof. destruct w; reflexivity. Qed.

Section Duplicates.

Variable readEntity : json -> Entity -> Entity.

Lemma place_linear_spec (i : Z) (duplicates : vec3) (l : list Entity)
    (x : Entity) (s : Loader) :
  entities (this s) = l ++ [x] ->
  place_linear i duplicates (length l) s
  = mkLoader (mkWorld (l ++ [map_position (linear_position i (vy duplicates)) x])
                      (level (this s)))
             (entityMap s) (randoms s) (placed s).
Proof.
  intros E. unfold place_linear, on_world.
  rewrite (world_eta (this s)), E, update_last. reflexivity.
Qed.

Lemma place_random_spec (l : list Entity) (x : Entity) (s s' : Loader) :
  entities (this s) = l ++ [x] ->
  place_random (length l) s = Done s' ->
  exists v h rs',
    in_grid (v, h) /\
    occupied (entityMap s) v h = false /\
    (length rs' <= length (randoms s))%nat /\
    s' = mkLoader (mkWorld (l ++ [map_position (random_position v h) x])
                           (level (this s)))
                  (occupy (entityMap s) v h) rs'
                  (mkPlacement (length l) v h :: placed s).
Proof.
  intros E H. unfold place_random in H.
  destruct (randoms s) as [|r1 [|r2 rs]] eqn:Er; try discriminate H.
  cbn [generateRandomNumber mbind outcome_bind bind] in H.
  destruct (while_occupied (entityMap s) (randomNumber 0 6 r1)
              (randomNumber 0 (ENTITIES_UPPER_LIMIT - 1) r2) rs)
    as [[[h v] rs']| |] eqn:Ew; try discriminate H.
  cbn [mbind outcome_bind bind] in H.
  destruct (while_occupied_spec _ _ _ _ _ _ _ (random_cell_in_grid r1 r2) Ew)
    as (Hin & Hfree & Hlen).
  exists v, h, rs'. split_all; try assumption.
  - simpl. lia.
  - inversion H as [H']. clear H H'.
    rewrite (world_eta (this s)), E, !update_last. reflexivity.
Qed.

Lemma grid_inv_place (s : Loader) (w : World) (rs : list N) (e : nat)
    (v h : Z) :
  grid_inv s -> in_grid (v, h) -> occupied (entityMap s) v h = false ->
  grid_inv (mkLoader w (occupy (entityMap s) v h) rs
              (mkPlacement e v h :: placed s)).
Proof.
  intros (Hs & Hn & Hall) Hin Hfree. unfold grid_inv.
  cbn [entityMap placed map].
  split_all.
  - apply grid_shape_occupy, Hs.
  - apply NoDup_cons. split; [|exact Hn].
    intros Hel. apply list_elem_of_fmap in Hel as (pl & Hc & Hel).
    rewrite Forall_forall in Hall.
    destruct (Hall _ Hel) as [_ Hocc].
    unfold cell in Hc. cbn [row column] in Hc. inversion Hc; subst.
    congruence.
  - apply Forall_cons. split.
    + split; [exact Hin|]. apply occupied_occupy; assumption.
    + eapply Forall_impl; [exact Hall|].
      intros c [Hc Ho]. split; [exact Hc|].
      apply occupied_occupy_mono, Ho.
Qed.

(** The loop in the linear mode: it always ends, and adds the copies in
    order, the copy of index [i] moved by [-i * spacing] along x. *)
Lemma duplicate_loop_linear (todo : nat) :
  forall (i : Z) entityData duplicates par s,
    to_bool (vz duplicates) = false ->
    exists s',
      duplicate_loop readEntity todo i entityData duplicates par s = Done s' /\
      entities (this s')
      = entities (this s)
        ++ map (fun k =>
                  map_position
                    (linear_position (i + Z.of_nat k) (vy duplicates))
                    (original readEntity entityData par))
               (seq 0 todo) /\
      level (this s') = level (this s) /\
      entityMap s' = entityMap s /\ placed s' = placed s /\
      randoms s' = randoms s.
Proof.
  induction todo as [|todo IH]; intros i entityData duplicates par s Hmode.
  - exists s. cbn [duplicate_loop seq map]. rewrite app_nil_r.
    split_all; reflexivity.
  - cbn [duplicate_loop]. rewrite create_spec, Hmode.
    cbn [mbind outcome_bind bind].
    rewrite (place_linear_spec i duplicates (entities (this s))
               (original readEntity entityData par)) by reflexivity.
    cbn [this entities level].
    destruct (IH (i + 1)%Z entityData duplicates par
                (mkLoader
                   (mkWorld
                      (entities (this s)
                       ++ [map_position (linear_position i (vy duplicates))
                             (original readEntity entityData par)])
                      (level (this s)))
                   (entityMap s) (randoms s) (placed s)) Hmode)
      as (s' & Hrun & He & Hl & Hm & Hp & Hr).
    exists s'. split; [exact Hrun|].
    cbn [this entities level entityMap placed randoms] in He, Hl, Hm, Hp, Hr.
    split_all; try assumption.
    rewrite He, <- app_assoc. f_equal.
    cbn [seq map]. rewrite Z.add_0_r. f_equal.
    rewrite <- seq_shift, map_map. apply map_ext. intros k.
    do 2 f_equal. lia.
Qed.

(** The loop in the random mode: when it ends, it has added one copy for
    each cell it has assigned, in order, and each of these cells was free
    when the loop started. *)
Lemma duplicate_loop_random (todo : nat) :
  forall (i : Z) entityData duplicates par s s',
    to_bool (vz duplicates) = true ->
    duplicate_loop readEntity todo i entityData duplicates par s = Done s' ->
    exists pls,
      length pls = todo /\
      entities (this s')
      = entities (this s) ++ map (placed_copy readEntity entityData par) pls /\
      level (this s') = level (this s) /\
      placed s' = rev pls ++ placed s /\
      map who pls = seq (length (entities (this s))) todo /\
      Forall (fun pl => in_grid (cell pl) /\
                        occupied (entityMap s) (row pl) (column pl) = false)
             pls /\
      (forall v h, occupied (entityMap s) v h = true ->
                   occupied (entityMap s') v h = true) /\
      (grid_inv s -> grid_inv s').
Proof.
  induction todo as [|todo IH];
    intros i entityData duplicates par s s' Hmode H.
  - cbn [duplicate_loop] in H. inversion H; subst s'.
    exists []. cbn. rewrite app_nil_r.
    split_all; try reflexivity; auto.
  - cbn [duplicate_loop] in H. rewrite create_spec, Hmode in H.
    set (s1 := mkLoader
                 (mkWorld (entities (this s)
                           ++ [original readEntity entityData par])
                          (level (this s)))
                 (entityMap s) (randoms s) (placed s)) in H.
    destruct (place_random (length (entities (this s))) s1) as [s2| |] eqn:E2;
      try discriminate H.
    cbn [mbind outcome_bind bind] in H.
    destruct (place_random_spec (entities (this s))
                (original readEntity entityData par) s1 s2 eq_refl E2)
      as (v & h & rs' & Hin & Hfree & _ & Hs2).
    cbn [entityMap placed this level s1] in Hfree, Hs2.
    destruct (IH _ _ _ _ _ _ Hmode H)
      as (pls & Hlen & He & Hl & Hp & Hw & Hf & Hmono & Hinv').
    exists (mkPlacement (length (entities (this s))) v h :: pls).
    rewrite Hs2 in He, Hl, Hp, Hw, Hf, Hmono, Hinv'.
    cbn [this entities level placed entityMap] in He, Hl, Hp, Hw, Hf, Hmono.
    split_all.
    + simpl. lia.
    + rewrite He, <- app_assoc. reflexivity.
    + exact Hl.
    + rewrite Hp. cbn [rev]. rewrite <- app_assoc. reflexivity.
    + cbn [map who seq]. f_equal. rewrite Hw.
      rewrite length_app. cbn [length]. f_equal. lia.
    + apply Forall_cons. split; [split; assumption|].
      eapply Forall_impl; [exact Hf|].
      intros pl [Hc Ho]. split; [exact Hc|].
      destruct (occupied (entityMap s) (row pl) (column pl)) eqn:Eo;
        [|reflexivity].
      rewrite (occupied_occupy_mono _ v h _ _ Eo) in Ho. discriminate.
    + intros v' h' Ho. apply Hmono. apply occupied_occupy_mono, Ho.
    + intros Hinv. apply Hinv'. apply (grid_inv_place s); assumption.
Qed.

End Duplicates.

(* ================================================================== *)
(** * Deserialization: induction and invariants *)
(* ================================================================== *)

Section DeserializeInvariants.

Variable readEntity : json -> Entity -> Entity.

Lemma created_entities entityData par s :
  entities (this (created readEntity entityData par s))
  = entities (this s) ++ [original readEntity entityData par].
Proof. unfold created. rewrite create_spec. reflexivity. Qed.

Lemma created_grid entityData par s :
  entityMap (created readEntity entityData par s) = entityMap s /\
  placed (created readEntity entityData par s) = placed s.
Proof. unfold created. rewrite create_spec. split; reflexivity. Qed.

(** A relation between the states before and after holds of every run of
    [deserialize] when it holds of a run that does nothing and is kept by
    the steps of the loop over the descriptions. *)
Lemma deserialize_rel (R : option nat -> Loader -> Loader -> Prop) :
  (forall par s, R par s s) ->
  (forall entityData par s s2 s3 s4,
      let newEntity := length (entities (this s)) in
      (s2 = created readEntity entityData par s \/
       exists c, at_key "children" entityData = Some c /\
                 deserialize readEntity c (Some newEntity)
                   (created readEntity entityData par s) = Done s2 /\
                 R (Some newEntity) (created readEntity entityData par s) s2) ->
      duplicate_entities readEntity entityData par s2 = Done s3 ->
      R par s3 s4 ->
      R par s s4) ->
  forall data par s s',
    deserialize readEntity data par s = Done s' -> R par s s'.
Proof.
  intros Hrefl Hstep.
  set (Q := fun c : json => forall par s s',
              deserialize readEntity c par s = Done s' -> R par s s').
  assert (H : forall j, Q j /\
                        forall c, at_key "children" j = Some c -> Q c).
  { induction j as [| b | q | str | items IH | fields IH] using json_ind.
    - split; [|discriminate]. intros par s s' H. inversion H; subst. apply Hrefl.
    - split; [|discriminate]. intros par s s' H. inversion H; subst. apply Hrefl.
    - split; [|discriminate]. intros par s s' H. inversion H; subst. apply Hrefl.
    - split; [|discriminate]. intros par s s' H. inversion H; subst. apply Hrefl.
    - split; [|discriminate]. intros par s s'.
      rewrite deserialize_array. revert s.
      induction IH as [|entityData rest [_ Hd] _ IHrest]; intros s H.
      + inversion H; subst. apply Hrefl.
      + cbn [deserialize_each] in H. unfold deserialize_entity in H.
        rewrite create_spec in H.
        destruct (deserialize_children readEntity entityData
                    (length (entities (this s))) _) as [s2| |] eqn:Ec;
          try discriminate H.
        cbn [mbind outcome_bind bind] in H.
        destruct (duplicate_entities readEntity entityData par s2)
          as [s3| |] eqn:Ed; try discriminate H.
        cbn [mbind outcome_bind bind] in H.
        eapply (Hstep entityData par s s2 s3 s').
        * unfold created. rewrite create_spec. cbn [snd].
          unfold deserialize_children in Ec.
          destruct (contains "children" entityData).
          -- destruct (at_key "children" entityData) as [c|] eqn:Ek.
             ++ right. exists c. split; [reflexivity|]. split; [exact Ec|].
                eapply Hd; [reflexivity|exact Ec].
             ++ left. inversion Ec; reflexivity.
          -- left. inversion Ec; reflexivity.
        * exact Ed.
        * apply IHrest. exact H.
    - split.
      + intros par s s' H. inversion H; subst. apply Hrefl.
      + intros c Hc. cbn [at_key] in Hc.
        induction IH as [|[k v] rest [Hv _] _ IHrest]; [discriminate|].
        cbn [assoc] in Hc. destruct (String.eqb k "children").
        * inversion Hc; subst. exact Hv.
        * apply IHrest, Hc. }
  intros data. apply H.
Qed.

End DeserializeInvariants.

Section Loading.

Variable readEntity : json -> Entity -> Entity.

Lemma contains_at_key (key : string) (d : json) :
  contains key d = bool_decide (is_Some (at_key key d)).
Proof.
  unfold contains, at_key. destruct d; try reflexivity.
  destruct (assoc key fields); reflexivity.
Qed.

Lemma duplicate_entities_cases (d : json) (par : option nat) (s : Loader) :
  duplicate_entities readEntity d par s
  = match at_key "duplicates" d with
    | None => Done s
    | Some dj =>
        match get_vec3 dj with
        | Some duplicates =>
            duplicate_loop readEntity (Z.to_nat (to_int (vx duplicates) - 1)) 1
              d duplicates par s
        | None => Thrown
        end
    end.
Proof.
  unfold duplicate_entities. rewrite contains_at_key.
  destruct (at_key "duplicates" d); reflexivity.
Qed.

Lemma deserialize_children_cases (d : json) (e : nat) (s : Loader) :
  deserialize_children readEntity d e s
  = match at_key "children" d with
    | None => Done s
    | Some c => deserialize readEntity c (Some e) s
    end.
Proof.
  unfold deserialize_children. rewrite contains_at_key.
  destruct (at_key "children" d); reflexivity.
Qed.

(** ** Entities and parents *)

Lemma grows_refl par s : grows par s s.
Proof. exists []. rewrite app_nil_r. split; [reflexivity|constructor]. Qed.

Lemma grows_flat par s s' added :
  entities (this s') = entities (this s) ++ added ->
  Forall (fun e => parent e = par) added ->
  grows par s s'.
Proof.
  intros E H. exists added. split; [exact E|].
  eapply Forall_impl; [exact H|]. intros e He. left. exact He.
Qed.

(** The step of the loop over the descriptions. *)
Lemma grows_step par s s1 s2 s3 s4 (orig : Entity) :
  entities (this s1) = entities (this s) ++ [orig] ->
  parent orig = par ->
  s2 = s1 \/ grows (Some (length (entities (this s)))) s1 s2 ->
  grows par s2 s3 -> grows par s3 s4 ->
  grows par s s4.
Proof.
  intros E1 Hp H2 (a3 & E3 & F3) (a4 & E4 & F4).
  assert (H2' : exists a2,
             entities (this s2) = entities (this s1) ++ a2 /\
             Forall (fun e =>
               exists j, parent e = Some j /\
                 (length (entities (this s)) <= j
                  < length (entities (this s1)) + length a2)%nat) a2).
  { destruct H2 as [->|(a2 & E2 & F2)].
    - exists []. rewrite app_nil_r. split; [reflexivity|constructor].
    - exists a2. split; [exact E2|].
      eapply Forall_impl; [exact F2|].
      intros e [He|(j & He & Hj)].
      + exists (length (entities (this s))). split; [exact He|].
        rewrite E1, length_app. simpl. lia.
      + exists j. split; [exact He|].
        rewrite E1, length_app in Hj. rewrite E1, length_app. simpl in *. lia. }
  destruct H2' as (a2 & E2 & F2).
  exists ([orig] ++ a2 ++ a3 ++ a4). split.
  - rewrite E4, E3, E2, E1. rewrite <- !app_assoc. reflexivity.
  - rewrite E1, length_app in F2. cbn [length] in F2.
    rewrite E2, E1, !length_app in F3. cbn [length] in F3.
    rewrite E3, E2, E1, !length_app in F4. cbn [length] in F4.
    repeat apply Forall_app_2.
    + constructor; [left; exact Hp|constructor].
    + eapply Forall_impl; [exact F2|].
      intros e (j & He & Hj). right. exists j. split; [exact He|].
      rewrite !length_app. cbn [length]. lia.
    + eapply Forall_impl; [exact F3|].
      intros e [He|(j & He & Hj)]; [left; exact He|].
      right. exists j. split; [exact He|].
      rewrite !length_app. cbn [length]. lia.
    + eapply Forall_impl; [exact F4|].
      intros e [He|(j & He & Hj)]; [left; exact He|].
      right. exists j. split; [exact He|].
      rewrite !length_app. cbn [length]. lia.
Qed.

(** The copies of a description: what the duplicates block adds. *)
Lemma duplicate_entities_adds (d : json) (par : option nat) (s s' : Loader) :
  duplicate_entities readEntity d par s = Done s' ->
  exists copies,
    entities (this s') = entities (this s) ++ copies /\
    Forall (fun e => parent e = par) copies /\
    (at_key "duplicates" d = None -> s' = s) /\
    (forall dj duplicates,
        at_key "duplicates" d = Some dj ->
        get_vec3 dj = Some duplicates ->
        length copies = Z.to_nat (to_int (vx duplicates) - 1)).
Proof.
  rewrite duplicate_entities_cases.
  destruct (at_key "duplicates" d) as [dj|] eqn:Ek.
  - destruct (get_vec3 dj) as [duplicates|] eqn:Eg; [|discriminate].
    intros H. destruct (to_bool (vz duplicates)) eqn:Emode.
    + destruct (duplicate_loop_random readEntity _ _ _ _ _ _ _ Emode H)
        as (pls & Hlen & He & _).
      exists (map (placed_copy readEntity d par) pls).
      split_all; try assumption.
      * apply Forall_forall. intros e He'.
        apply list_elem_of_fmap in He' as (pl & -> & _). reflexivity.
      * discriminate.
      * intros dj' dup' Hdj Hdup. inversion Hdj; subst dj'.
        rewrite Eg in Hdup. inversion Hdup; subst dup'.
        rewrite length_map. exact Hlen.
    + destruct (duplicate_loop_linear readEntity
                  (Z.to_nat (to_int (vx duplicates) - 1)) 1 d duplicates par s
                  Emode) as (s'' & Hrun & He & _).
      rewrite Hrun in H. inversion H; subst s''.
      eexists. split; [exact He|]. split_all.
      * apply Forall_forall. intros e He'.
        apply list_elem_of_fmap in He' as (k & -> & _). reflexivity.
      * discriminate.
      * intros dj' dup' Hdj Hdup. inversion Hdj; subst dj'.
        rewrite Eg in Hdup. inversion Hdup; subst dup'.
        rewrite length_map, length_seq. reflexivity.
  - intros H. inversion H; subst s'. exists []. rewrite app_nil_r.
    split_all; try reflexivity; [constructor|discriminate].
Qed.

Lemma deserialize_grows (data : json) (par : option nat) (s s' : Loader) :
  deserialize readEntity data par s = Done s' -> grows par s s'.
Proof.
  apply (deserialize_rel readEntity grows).
  - apply grows_refl.
  - intros d p0 s0 s2 s3 s4 newEntity Hc Hd H4.
    destruct (duplicate_entities_adds _ _ _ _ Hd) as (copies & Ec & Fc & _).
    eapply (grows_step p0 s0 (created readEntity d p0 s0) s2 s3 s4).
    + apply created_entities.
    + apply original_parent.
    + destruct Hc as [->|(c & _ & _ & Hg)]; [left; reflexivity|right; exact Hg].
    + eapply grows_flat; eassumption.
    + exact H4.
Qed.

End Loading.

(* ================================================================== *)
(** * Scenes without children and duplicates (C6) *)
(* ================================================================== *)

(** C6.  For an array of N descriptions none of which has a [children] or a
    [duplicates] key, [deserialize] ends normally and adds exactly N
    entities to the world, each with the parent given to [deserialize]. *)
Theorem deserialize_plain
    (readEntity : json -> Entity -> Entity) (items : list json)
    (par : option nat) (s : Loader) :
  Forall (fun d => contains "children" d = false /\
                   contains "duplicates" d = false) items ->
  exists s' added,
    deserialize readEntity (Jarr items) par s = Done s' /\
    entities (this s') = entities (this s) ++ added /\
    length added = length items /\
    Forall (fun e => parent e = par) added.
Proof.
  intros Hplain. rewrite deserialize_array. revert s.
  induction Hplain as [|d rest [Hc Hd] _ IH]; intros s.
  - exists s, []. rewrite app_nil_r. split_all; try reflexivity. constructor.
  - cbn [deserialize_each]. unfold deserialize_entity.
    rewrite create_spec. unfold deserialize_children, duplicate_entities.
    rewrite Hc, Hd. cbn [mbind outcome_bind bind].
    destruct (IH (mkLoader
                    (mkWorld (entities (this s) ++ [original readEntity d par])
                             (level (this s)))
                    (entityMap s) (randoms s) (placed s)))
      as (s' & added & Hrun & He & Hlen & Hpar).
    exists s', (original readEntity d par :: added).
    cbn [this entities] in He.
    split_all.
    + exact Hrun.
    + rewrite He, <- app_assoc. reflexivity.
    + simpl. lia.
    + constructor; [reflexivity|exact Hpar].
Qed.

Lemma deserialize_plain_witness :
  exists s' added,
    deserialize read_position (Jarr plain_scene) (Some 7%nat) (fresh []) = Done s' /\
    entities (this s') = entities (this (fresh [])) ++ added /\
    length added = length plain_scene /\
    Forall (fun e => parent e = Some 7%nat) added.
Proof.
  apply (deserialize_plain read_position plain_scene (Some 7%nat) (fresh [])).
  repeat constructor.
Defined.

(* ================================================================== *)
(** * Duplicates in a row (C4) *)
(* ================================================================== *)



(* ================================================================== *)
(** * Duplicates in random cells (C5) *)
(* ================================================================== *)

Section Filling.

Variable readEntity : json -> Entity -> Entity.

Lemma fills_refl s : fills readEntity s s.
Proof.
  unfold fills. split; [|split; [|split]].
  - exists []. rewrite app_nil_r. reflexivity.
  - auto.
  - auto.
  - exists []. split; [reflexivity|constructor].
Qed.

Lemma fills_trans s1 s2 s3 : fills readEntity s1 s2 -> fills readEntity s2 s3 -> fills readEntity s1 s3.
Proof.
  intros ((a2 & E2) & M2 & I2 & n2 & P2 & F2)
         ((a3 & E3) & M3 & I3 & n3 & P3 & F3).
  unfold fills. split; [|split; [|split]].
  - exists (a2 ++ a3). rewrite E3, E2, <- app_assoc. reflexivity.
  - intros v h H. apply M3, M2, H.
  - intros H. apply I3, I2, H.
  - exists (n3 ++ n2). split.
    + rewrite P3, P2, <- app_assoc. reflexivity.
    + apply Forall_app_2.
      * eapply Forall_impl; [exact F3|].
        intros pl (Hin & Hfree & d & par & Hent).
        split; [exact Hin|split; [|exists d, par; exact Hent]].
        destruct (occupied (entityMap s1) (row pl) (column pl)) eqn:Eo;
          [|reflexivity].
        rewrite (M2 _ _ Eo) in Hfree. discriminate.
      * eapply Forall_impl; [exact F2|].
        intros pl (Hin & Hfree & d & par & Hent).
        split; [exact Hin|split; [exact Hfree|]].
        exists d, par. rewrite E3. apply lookup_app_l_Some. exact Hent.
Qed.

Lemma fills_created d par s : fills readEntity s (created readEntity d par s).
Proof.
  destruct (created_grid readEntity d par s) as [Em Ep].
  unfold fills. split; [|split; [|split]].
  - exists [original readEntity d par]. apply created_entities.
  - rewrite Em. auto.
  - unfold grid_inv. rewrite Em, Ep. auto.
  - exists []. split; [rewrite Ep; reflexivity|constructor].
Qed.

Lemma fills_duplicates d par s s' :
  duplicate_entities readEntity d par s = Done s' -> fills readEntity s s'.
Proof.
  rewrite duplicate_entities_cases.
  destruct (at_key "duplicates" d) as [dj|];
    [|intros H; inversion H; apply fills_refl].
  destruct (get_vec3 dj) as [duplicates|]; [|discriminate].
  intros H. destruct (to_bool (vz duplicates)) eqn:Emode.
  - destruct (duplicate_loop_random readEntity _ _ _ _ _ _ _ Emode H)
      as (pls & Hlen & He & _ & Hp & Hw & Hf & Hmono & Hinv).
    unfold fills. split; [|split; [|split]]; try assumption.
    + eexists. exact He.
    + exists (rev pls). split; [exact Hp|].
      apply Forall_rev. apply Forall_lookup. intros k pl Hk.
      destruct (proj1 (Forall_lookup _ pls) Hf k pl Hk) as [Hin Hfree].
      split; [exact Hin|split; [exact Hfree|]].
      exists d, par. rewrite He.
      assert (Hwho : who pl = (length (entities (this s)) + k)%nat).
      { assert (Hm : map who pls !! k = Some (who pl))
          by (rewrite list_lookup_fmap, Hk; reflexivity).
        rewrite Hw in Hm. apply lookup_seq in Hm. lia. }
      rewrite Hwho, lookup_app_r by lia.
      replace (length (entities (this s)) + k - length (entities (this s)))%nat
        with k by lia.
      rewrite list_lookup_fmap, Hk. reflexivity.
  - destruct (duplicate_loop_linear readEntity
                (Z.to_nat (to_int (vx duplicates) - 1)) 1 d duplicates par s
                Emode) as (s'' & Hrun & He & _ & Hm & Hp & _).
    rewrite Hrun in H. inversion H; subst s''.
    unfold fills. split; [|split; [|split]].
    + eexists. exact He.
    + rewrite Hm. auto.
    + unfold grid_inv. rewrite Hm, Hp. auto.
    + exists []. split; [rewrite Hp; reflexivity|constructor].
Qed.

Lemma deserialize_fills data par s s' :
  deserialize readEntity data par s = Done s' -> fills readEntity s s'.
Proof.
  apply (deserialize_rel readEntity (fun _ => fills readEntity)).
  - intros _ s0. apply fills_refl.
  - intros d p0 s0 s2 s3 s4 newEntity Hc Hd H4.
    eapply fills_trans; [apply (fills_created d p0 s0)|].
    eapply fills_trans; [|eapply fills_trans; [exact (fills_duplicates _ _ _ _ Hd)|exact H4]].
    destruct Hc as [->|(c & _ & _ & Hf)]; [apply fills_refl|exact Hf].
Qed.

End Filling.


Lemma grid_inv_fresh (rs : list N) : grid_inv (fresh rs).
Proof.
  unfold grid_inv, fresh. cbn [entityMap placed map]. split_all.
  - apply grid_shape_init.
  - constructor.
  - constructor.
Qed.


Example scattered_cells :
  map cell (placed scattered) = [(20, 5); (10, 3)]%Z.
Proof. reflexivity. Qed.

(* ================================================================== *)
(** * Duplicates have no children (C10) *)
(* ================================================================== *)

(** C10.  Let a description have a [duplicates] field, and let the parent
    given to [deserialize] and the parents of the entities of the world be
    entities of the world.  When [deserialize] of that description ends
    normally, the children of the description have been deserialized once,
    under the original entity, ending in a state [s1]; after that, the
    copies are added: each has the parent given to [deserialize], which is
    not the original entity; and no entity of the resulting world has one
    of the copies as its parent. *)
Theorem duplicates_have_no_children
    (readEntity : json -> Entity -> Entity) (d dj : json) (duplicates : vec3)
    (par : option nat) (s s' : Loader) :
  at_key "duplicates" d = Some dj ->
  get_vec3 dj = Some duplicates ->
  (forall j, par = Some j -> (j < length (entities (this s)))%nat) ->
  Forall (fun e => forall j, parent e = Some j ->
                             (j < length (entities (this s)))%nat)
         (entities (this s)) ->
  deserialize readEntity (Jarr [d]) par s = Done s' ->
  exists s1 copies,
    deserialize_children readEntity d (length (entities (this s)))
      (created readEntity d par s) = Done s1 /\
    entities (this s') = entities (this s1) ++ copies /\
    length copies = Z.to_nat (to_int (vx duplicates) - 1) /\
    Forall (fun e => parent e = par) copies /\
    par <> Some (length (entities (this s))) /\
    Forall (fun e => forall j, parent e = Some j ->
                               (j < length (entities (this s1)))%nat)
           (entities (this s')).
Proof.
  intros Hk Hg Hpar Hwf Hrun.
  rewrite deserialize_array in Hrun. cbn [deserialize_each] in Hrun.
  unfold deserialize_entity in Hrun.
  assert (Ecr : create readEntity d par s
                = (length (entities (this s)), created readEntity d par s)).
  { unfold created. rewrite create_spec. reflexivity. }
  rewrite Ecr in Hrun.
  destruct (deserialize_children readEntity d (length (entities (this s)))
              (created readEntity d par s)) as [s1| |] eqn:Ekids;
    try discriminate Hrun.
  cbn [mbind outcome_bind bind] in Hrun.
  destruct (duplicate_entities readEntity d par s1) as [s3| |] eqn:Edup;
    try discriminate Hrun.
  cbn [mbind outcome_bind bind] in Hrun. inversion Hrun; subst s3.
  destruct (duplicate_entities_adds readEntity _ _ _ _ Edup)
    as (copies & Ec & Fc & _ & Hlen).
  exists s1, copies.
  (* the entities before the copies *)
  assert (Hkids : exists kids,
             entities (this s1)
             = entities (this s) ++ [original readEntity d par] ++ kids /\
             Forall (fun e => forall j, parent e = Some j ->
                                        (j < length (entities (this s1)))%nat)
                    kids).
  { rewrite deserialize_children_cases in Ekids.
    destruct (at_key "children" d) as [c|].
    - destruct (deserialize_grows readEntity _ _ _ _ Ekids) as (kids & Ea & Fa).
      rewrite created_entities in Ea, Fa.
      exists kids. split; [rewrite Ea, <- app_assoc; reflexivity|].
      eapply Forall_impl; [exact Fa|].
      intros e He j Hj. rewrite Ea, !length_app. cbn [length].
      rewrite length_app in He. cbn [length] in He.
      destruct He as [He|(j' & He & Hj')].
      + rewrite He in Hj. inversion Hj; subst. lia.
      + rewrite He in Hj. inversion Hj; subst. lia.
    - inversion Ekids; subst s1. exists [].
      split; [rewrite created_entities; reflexivity|constructor]. }
  destruct Hkids as (kids & E1 & Fk).
  split_all; try assumption; try reflexivity.
  - eapply Hlen; eassumption.
  - intros Hp. specialize (Hpar _ Hp). lia.
  - rewrite Ec. apply Forall_app_2.
    + rewrite E1. repeat apply Forall_app_2.
      * eapply Forall_impl; [exact Hwf|].
        intros e He j Hj. specialize (He j Hj).
        rewrite !length_app. lia.
      * constructor; [|constructor].
        intros j Hj. rewrite original_parent in Hj. specialize (Hpar _ Hj).
        rewrite !length_app. lia.
      * rewrite E1 in Fk. exact Fk.
    + eapply Forall_impl; [exact Fc|].
      intros e He j Hj. rewrite He in Hj. specialize (Hpar _ Hj).
      rewrite E1, !length_app. lia.
Qed.

Lemma duplicates_have_no_children_witness :
  exists s1 copies,
    deserialize_children read_position family
      (length (entities (this (fresh []))))
      (created read_position family None (fresh [])) = Done s1 /\
    entities (this family_loaded) = entities (this s1) ++ copies /\
    length copies = Z.to_nat (to_int (vx (Vec3 3 2 0)) - 1) /\
    Forall (fun e => parent e = None) copies /\
    None <> Some (length (entities (this (fresh [])))) /\
    Forall (fun e => forall j, parent e = Some j ->
                               (j < length (entities (this s1)))%nat)
           (entities (this family_loaded)).
Proof.
  apply (duplicates_have_no_children read_position family
           (Jarr [Jnum 3; Jnum 2; Jbool false]) (Vec3 3 2 0) None
           (fresh []) family_loaded).
  - reflexivity.
  - reflexivity.
  - discriminate.
  - constructor.
  - vm_compute. reflexivity.
Defined.

Example family_parents :
  map parent (entities (this family_loaded))
  = [None; Some 0%nat; None; None].
Proof. reflexivity. Qed.


(* ================================================================== *)
(** * More of the controller *)
(* ================================================================== *)

(** A call of [update] either returns at once or works on the entities
    found. *)
Lemma update_cases toMat4 app dt st :
  update toMat4 app dt st = st \/
  exists c p, found st c p /\
    update toMat4 app dt st = update_found toMat4 app dt c p st.
Proof.
  unfold update.
  destruct (find_camera (entities (world st)) 0 None None) as [cam ctl] eqn:Ec.
  destruct cam as [c|]; [|left; reflexivity].
  destruct ctl as [k|]; [|left; reflexivity].
  destruct (find_player (entities (world st)) 0 None) as [p|] eqn:Ep;
    [|left; reflexivity].
  right. exists c, p.
  pose proof Ec as Ec'.
  apply find_camera_found in Ec' as (-> & _); [|reflexivity].
  split; [split; assumption|reflexivity].
Qed.

(** ** The pointer lock, the run and the flags *)

Lemma lock_mouse_spec app st :
  let st' := lock_mouse app st in
  mouse_locked (system st') = mousePressed app /\
  pointerLocked st'
    = (if Bool.eqb (mousePressed app) (mouse_locked (system st))
       then pointerLocked st else mousePressed app).
Proof.
  cbv zeta. unfold lock_mouse.
  destruct (mousePressed app), (mouse_locked (system st)) eqn:E; simpl;
    rewrite ?E; auto.
Qed.

Lemma view_stage_lock app c st :
  let st' := view_stage app c st in
  mouse_locked (system st') = mousePressed app /\
  pointerLocked st' = pointerLocked (lock_mouse app st).
Proof.
  cbv zeta. unfold view_stage.
  destruct (lock_mouse_spec app st) as [M _].
  set (st1 := lock_mouse app st) in *.
  assert (H : system (update_fov app c (wrap_yaw c (clamp_pitch c st1)))
              = system st1 /\
              pointerLocked (update_fov app c (wrap_yaw c (clamp_pitch c st1)))
              = pointerLocked st1).
  { unfold update_fov, wrap_yaw, clamp_pitch.
    destruct (camera _); [destruct (controller _)|];
      destruct (flt _ _); destruct (fgt _ _); split; reflexivity. }
  destruct H as [H1 H2]. rewrite H1, H2. auto.
Qed.

Lemma run_motion app dt c cf st :
  motionState (run app dt c cf st)
  = (if isPressed app GLFW_KEY_ENTER then RUNNING else motionState st).
Proof.
  unfold run. destruct (isPressed app GLFW_KEY_ENTER); simpl.
  - reflexivity.
  - destruct (is_RUNNING (motionState st)); reflexivity.
Qed.

(** What a frame makes of the fields of the system and of the flags,
    whichever entities the camera and the player are. *)
Lemma update_found_control toMat4 app dt c p st :
  valid st c -> valid st p ->
  let st' := update_found toMat4 app dt c p st in
  let y0 := height_at_jump toMat4 app dt c st in
  let j := jumpState (system st) in
  let sl := slideState (system st) in
  let j' := next_jumpState app dt j sl y0 in
  let go := slide_starts app j' sl in
  let sl1 := if go then Slided else sl in
  let t1 := if go then 0 else slideTime (system st) in
  let stop := fge (t1 + dt) (dt * 50) in
  mouse_locked (system st') = mousePressed app /\
  pointerLocked st' = pointerLocked (lock_mouse app st) /\
  motionState st'
    = (if isPressed app GLFW_KEY_ENTER then RUNNING else motionState st) /\
  jumpState (system st') = j' /\
  match sl1 with
  | Slided =>
      slideState (system st') = (if stop then NORMAL else Slided) /\
      slideTime (system st') = t1 + dt /\
      isSlided st' = negb stop
  | NORMAL =>
      slideState (system st') = NORMAL /\
      slideTime (system st') = slideTime (system st) /\
      isSlided st' = isSlided st
  end.
Proof.
  intros Hc Hp. cbv zeta.
  unfold update_found, height_at_jump, camera_matrix.
  fold (view_stage app c st).
  destruct (view_stage_spec app c st Hc)
    as (T0 & J0 & SL0 & ST0 & M0 & I0 & _).
  destruct (view_stage_lock app c st) as [ML0 L0].
  set (st0 := view_stage app c st) in *.
  set (m := toMat4 (localTransform (entity_at (world st0) c))).
  assert (Vc0 : valid st0 c) by (apply (keeps_kinds_valid st st0 c); [apply T0|exact Hc]).
  assert (Vp0 : valid st0 p) by (apply (keeps_kinds_valid st st0 p); [apply T0|exact Hp]).
  destruct (move_keys_spec app dt c (front m) (up m) (sensitivity st0 c) st0 Vc0)
    as (S1 & M1 & I1 & L1 & F1 & _).
  set (st1 := move_keys app dt c (front m) (up m) (sensitivity st0 c) st0) in *.
  assert (Vc1 : valid st1 c) by (apply (keeps_kinds_valid st0 st1 c); [apply F1|exact Vc0]).
  assert (Vp1 : valid st1 p) by (apply (keeps_kinds_valid st0 st1 p); [apply F1|exact Vp0]).
  destruct (jump_spec app dt c st1 Vc1)
    as (J2 & _ & SL2 & ST2 & ML2 & M2 & I2 & L2 & F2).
  set (st2 := jump app dt c st1) in *.
  assert (Vc2 : valid st2 c) by (apply (keeps_kinds_valid st1 st2 c); [apply F2|exact Vc1]).
  assert (Vp2 : valid st2 p) by (apply (keeps_kinds_valid st1 st2 p); [apply F2|exact Vp1]).
  pose proof (slide_spec app dt p st2 Vp2) as H3. cbv zeta in H3.
  destruct H3 as (J3 & ML3 & M3 & L3 & F3 & E3).
  set (st3 := slide app dt p st2) in *.
  assert (Vc3 : valid st3 c) by (apply (keeps_kinds_valid st2 st3 c); [apply F3|exact Vc2]).
  destruct (run_spec app dt c (front m) st3 Vc3) as (S4 & I4 & L4 & F4 & _).
  pose proof (run_motion app dt c (front m) st3) as M4.
  set (st4 := run app dt c (front m) st3) in *.
  assert (Vc4 : valid st4 c) by (apply (keeps_kinds_valid st3 st4 c); [apply F4|exact Vc3]).
  destruct (strafe_spec app dt c p (right m) st4 Vc4) as (S5 & I5 & M5 & L5 & _).
  set (st5 := strafe app dt c p (right m) st4) in *.
  rewrite S1, J0, SL0 in J2. rewrite S1, SL0 in SL2. rewrite S1, ST0 in ST2.
  rewrite S1, ML0 in ML2.
  split_all.
  - rewrite S5, S4, ML3. exact ML2.
  - rewrite L5, L4, L3, L2, L1. exact L0.
  - rewrite M5, M4, M3, M2, M1, M0. reflexivity.
  - rewrite S5, S4, J3. exact J2.
  - rewrite S5, S4, I5, I4.
    rewrite J2, SL2, ST2, I2, I1, I0 in E3.
    destruct (slide_starts app _ _).
    + destruct E3 as (A & B & _ & _ & E). split_all; assumption.
    + destruct (slideState (system st)).
      * destruct E3 as (A & B & _ & _ & E). split_all; assumption.
      * destruct E3 as (A & B & _ & _ & E). split_all; assumption.
Qed.

Lemma update_keeps_lock toMat4 app dt st :
  lock_agrees st -> lock_agrees (update toMat4 app dt st).
Proof.
  intros H. destruct (update_cases toMat4 app dt st) as [E|(c & p & F & E)];
    rewrite E; [exact H|].
  destruct (found_valid _ _ _ F) as [Hc Hp].
  pose proof (update_found_control toMat4 app dt c p st Hc Hp) as K.
  cbv zeta in K. destruct K as (M & L & _).
  destruct (lock_mouse_spec app st) as [_ L1].
  unfold lock_agrees in *. rewrite M, L, L1, H.
  destruct (mousePressed app), (mouse_locked (system st)); reflexivity.
Qed.

Lemma update_keeps_slide_flag toMat4 app dt st :
  slide_agrees st -> slide_agrees (update toMat4 app dt st).
Proof.
  intros H. destruct (update_cases toMat4 app dt st) as [E|(c & p & F & E)];
    rewrite E; [exact H|].
  destruct (found_valid _ _ _ F) as [Hc Hp].
  pose proof (update_found_control toMat4 app dt c p st Hc Hp) as K.
  cbv zeta in K. destruct K as (_ & _ & _ & _ & K).
  unfold slide_agrees in *.
  destruct (slide_starts app _ _).
  - destruct K as (A & _ & B). rewrite A, B. destruct (fge _ _); reflexivity.
  - destruct (slideState (system st)) eqn:Esl.
    + destruct K as (A & _ & B). rewrite A, B. destruct (fge _ _); reflexivity.
    + destruct K as (A & _ & B). rewrite A, B. exact H.
Qed.

(** X3.  After a call of [update] that finds the camera and the player, the
    system holds the lock exactly when the left mouse button is down; if
    the lock of the pointer agreed with the system before the call, the
    pointer is locked exactly when the button is down. *)
Theorem pointer_lock_follows_button
    (toMat4 : Transform -> mat4) (app : Application) (deltaTime : float)
    (st : State) (cameraEntity playerEntity : nat) :
  found st cameraEntity playerEntity ->
  let st' := update toMat4 app deltaTime st in
  mouse_locked (system st') = mousePressed app /\
  (lock_agrees st -> pointerLocked st' = mousePressed app).
Proof.
  intros F. cbv zeta.
  assert (M : mouse_locked (system (update toMat4 app deltaTime st))
              = mousePressed app).
  { rewrite (update_when_found toMat4 app deltaTime st _ _ F).
    destruct (found_valid _ _ _ F) as [Hc Hp].
    pose proof (update_found_control toMat4 app deltaTime _ _ st Hc Hp) as K.
    cbv zeta in K. apply K. }
  split; [exact M|].
  intros H. rewrite <- M. apply (update_keeps_lock toMat4 app deltaTime st H).
Qed.

Lemma pointer_lock_follows_button_witness :
  let st' := update translation (mkApplication no_keys true 0 1) (1 # 60) scene in
  mouse_locked (system st') = true /\
  (lock_agrees scene -> pointerLocked st' = true).
Proof.
  apply (pointer_lock_follows_button translation
           (mkApplication no_keys true 0 1) (1 # 60) scene 0%nat 1%nat).
  split; reflexivity.
Defined.

(** X4.  After any number of frames that start from a state in which the
    lock of the pointer agrees with the system, [exit] leaves the pointer
    unlocked and the system without the lock; a second [exit] changes
    nothing; [exit] touches neither the world nor the jump, slide and
    motion states. *)
Theorem exit_releases_pointer
    (toMat4 : Transform -> mat4) (inputs : nat -> Application * float)
    (k : nat) (st : State) :
  lock_agrees st ->
  let st1 := after toMat4 inputs k st in
  let st' := exit st1 in
  pointerLocked st' = false /\ mouse_locked (system st') = false /\
  exit st' = st' /\
  world st' = world st1 /\
  jumpState (system st') = jumpState (system st1) /\
  slideState (system st') = slideState (system st1) /\
  slideTime (system st') = slideTime (system st1) /\
  motionState st' = motionState st1 /\ isSlided st' = isSlided st1.
Proof.
  intros H. cbv zeta.
  assert (A : lock_agrees (after toMat4 inputs k st)).
  { induction k as [|k IH]; [exact H|]. simpl. apply update_keeps_lock, IH. }
  unfold lock_agrees in A. unfold exit.
  destruct (mouse_locked (system (after toMat4 inputs k st))) eqn:E.
  - simpl. split_all; reflexivity.
  - rewrite E. split_all; try reflexivity; assumption.
Qed.

Lemma exit_releases_pointer_witness :
  let st1 := after translation
               (fun _ => (mkApplication no_keys true 0 1, 1 # 60)) 2 scene in
  let st' := exit st1 in
  pointerLocked st' = false /\ mouse_locked (system st') = false /\
  exit st' = st' /\
  world st' = world st1 /\
  jumpState (system st') = jumpState (system st1) /\
  slideState (system st') = slideState (system st1) /\
  slideTime (system st') = slideTime (system st1) /\
  motionState st' = motionState st1 /\ isSlided st' = isSlided st1.
Proof.
  apply (exit_releases_pointer translation
           (fun _ => (mkApplication no_keys true 0 1, 1 # 60)) 2 scene).
  reflexivity.
Defined.

(** X10.  The flag [isSlided] that [update] reports to its caller tells the
    slide state: if it is set exactly when the state is Slided before the
    first frame, it is so after every frame, whatever the inputs. *)
Theorem isSlided_tells_slide_state
    (toMat4 : Transform -> mat4) (inputs : nat -> Application * float)
    (k : nat) (st : State) :
  slide_agrees st -> slide_agrees (after toMat4 inputs k st).
Proof.
  intros H. induction k as [|k IH]; [exact H|].
  simpl. apply update_keeps_slide_flag, IH.
Qed.

Lemma isSlided_tells_slide_state_witness :
  slide_agrees (after translation slide_once 30 scene).
Proof.
  apply (isSlided_tells_slide_state translation slide_once 30 scene).
  reflexivity.
Defined.

(** X9.  In level state 3 the jump keys and the slide keys are switched
    off: whatever keys are down, a call of [update] does not make a system
    JUMPING that was not, and leaves a NORMAL slide state, the slide timer
    and [isSlided] as they were. *)
Theorem keys_dead_in_level_state_3
    (toMat4 : Transform -> mat4) (app : Application) (deltaTime : float)
    (st : State) (cameraEntity playerEntity : nat) :
  found st cameraEntity playerEntity ->
  levelState app = 3%Z ->
  let st' := update toMat4 app deltaTime st in
  (jumpState (system st) <> JUMPING -> jumpState (system st') <> JUMPING) /\
  (slideState (system st) = NORMAL ->
   slideState (system st') = NORMAL /\
   slideTime (system st') = slideTime (system st) /\
   isSlided st' = isSlided st).
Proof.
  intros F L3. cbv zeta.
  rewrite (update_when_found toMat4 app deltaTime st _ _ F).
  destruct (found_valid _ _ _ F) as [Hc Hp].
  pose proof (update_found_control toMat4 app deltaTime _ _ st Hc Hp) as K.
  cbv zeta in K. destruct K as (_ & _ & _ & J & K).
  assert (Hj : forall j sl, jump_starts app j sl = false).
  { intros j sl. unfold jump_starts. rewrite L3. simpl.
    rewrite andb_false_r. reflexivity. }
  assert (Hs : forall j sl, slide_starts app j sl = false).
  { intros j sl. unfold slide_starts. rewrite L3. simpl.
    rewrite andb_false_r. reflexivity. }
  split.
  - intros Hn. clear K. rewrite J. unfold next_jumpState. rewrite Hj.
    destruct (fge _ _); [congruence|].
    destruct (fle _ _); [congruence|exact Hn].
  - intros Hsl. rewrite Hs, Hsl in K. exact K.
Qed.

Lemma keys_dead_in_level_state_3_witness :
  let app := pressing (fun _ => true) 3 in
  let st' := update translation app (1 # 60) scene in
  (jumpState (system scene) <> JUMPING -> jumpState (system st') <> JUMPING) /\
  (slideState (system scene) = NORMAL ->
   slideState (system st') = NORMAL /\
   slideTime (system st') = slideTime (system scene) /\
   isSlided st' = isSlided scene).
Proof.
  apply (keys_dead_in_level_state_3 translation (pressing (fun _ => true) 3)
           (1 # 60) scene 0%nat 1%nat).
  - split; reflexivity.
  - reflexivity.
Defined.

(** X8.  Jump and slide exclude each other.  During a slide no jump starts:
    the system is not JUMPING after the call unless it was before.  And no
    slide starts in a call that leaves the camera in the air: if the jump
    state after the call is not GROUNDED, a NORMAL slide state stays
    NORMAL. *)
Theorem jump_and_slide_exclude
    (toMat4 : Transform -> mat4) (app : Application) (deltaTime : float)
    (st : State) (cameraEntity playerEntity : nat) :
  found st cameraEntity playerEntity ->
  let st' := update toMat4 app deltaTime st in
  (slideState (system st) = Slided -> jumpState (system st) <> JUMPING ->
   jumpState (system st') <> JUMPING) /\
  (slideState (system st) = NORMAL -> jumpState (system st') <> GROUNDED ->
   slideState (system st') = NORMAL /\ isSlided st' = isSlided st).
Proof.
  intros F. cbv zeta.
  rewrite (update_when_found toMat4 app deltaTime st _ _ F).
  destruct (found_valid _ _ _ F) as [Hc Hp].
  pose proof (update_found_control toMat4 app deltaTime _ _ st Hc Hp) as K.
  cbv zeta in K. destruct K as (_ & _ & _ & J & K).
  split.
  - intros Hsl Hn. clear K. rewrite J. unfold next_jumpState.
    assert (Hj : jump_starts app (jumpState (system st)) (slideState (system st))
                 = false).
    { unfold jump_starts. rewrite Hsl. simpl. rewrite !andb_false_r. reflexivity. }
    rewrite Hj.
    destruct (fge _ _); [congruence|].
    destruct (fle _ _); [congruence|exact Hn].
  - intros Hsl Hg. rewrite J in Hg.
    assert (Hs : slide_starts app
                   (next_jumpState app deltaTime (jumpState (system st))
                      (slideState (system st))
                      (height_at_jump toMat4 app deltaTime cameraEntity st))
                   (slideState (system st)) = false).
    { unfold slide_starts.
      destruct (next_jumpState _ _ _ _ _); simpl;
        rewrite ?andb_false_r; try reflexivity.
      contradiction. }
    rewrite Hs, Hsl in K. destruct K as (A & _ & B). split; assumption.
Qed.

Lemma jump_and_slide_exclude_witness :
  let app := pressing (fun _ => true) 1 in
  let st' := update translation app (1 # 10) scene in
  (slideState (system scene) = Slided -> jumpState (system scene) <> JUMPING ->
   jumpState (system st') <> JUMPING) /\
  (slideState (system scene) = NORMAL -> jumpState (system st') <> GROUNDED ->
   slideState (system st') = NORMAL /\ isSlided st' = isSlided scene).
Proof.
  apply (jump_and_slide_exclude translation (pressing (fun _ => true) 1)
           (1 # 10) scene 0%nat 1%nat).
  split; reflexivity.
Defined.

(** X11.  Once started the run never stops: after a frame in which the
    components are found and ENTER is down, the motion state is RUNNING in
    every later frame, whatever the inputs. *)
Lemma update_keeps_running toMat4 app dt st :
  motionState st = RUNNING -> motionState (update toMat4 app dt st) = RUNNING.
Proof.
  intros H. destruct (update_cases toMat4 app dt st) as [E|(c & p & F & E)];
    rewrite E; [exact H|].
  destruct (found_valid _ _ _ F) as [Hc Hp].
  pose proof (update_found_control toMat4 app dt c p st Hc Hp) as K.
  cbv zeta in K. destruct K as (_ & _ & M & _).
  rewrite M, H. destruct (isPressed app GLFW_KEY_ENTER); reflexivity.
Qed.

Theorem running_never_stops
    (toMat4 : Transform -> mat4) (inputs : nat -> Application * float)
    (st : State) (cameraEntity playerEntity : nat) (k n : nat) :
  found (after toMat4 inputs k st) cameraEntity playerEntity ->
  isPressed (fst (inputs k)) GLFW_KEY_ENTER = true ->
  motionState (after toMat4 inputs (S k + n) st) = RUNNING.
Proof.
  intros F HE. induction n as [|n IH].
  - rewrite Nat.add_0_r. simpl.
    rewrite (update_when_found toMat4 _ _ _ _ _ F).
    destruct (found_valid _ _ _ F) as [Hc Hp].
    pose proof (update_found_control toMat4 (fst (inputs k)) (snd (inputs k))
                  _ _ _ Hc Hp) as K.
    cbv zeta in K. destruct K as (_ & _ & M & _).
    rewrite M, HE. reflexivity.
  - replace (S k + S n)%nat with (S (S k + n)) by lia.
    change (after toMat4 inputs (S (S k + n)) st)
      with (update toMat4 (fst (inputs (S k + n)%nat)) (snd (inputs (S k + n)%nat))
              (after toMat4 inputs (S k + n) st)).
    apply update_keeps_running, IH.
Qed.

Lemma running_never_stops_witness :
  motionState
    (after translation
       (fun k => (pressing (match k with O => only GLFW_KEY_ENTER | _ => no_keys end) 1,
                  1 # 60))
       (1 + 5) scene) = RUNNING.
Proof.
  apply (running_never_stops translation
           (fun k => (pressing (match k with O => only GLFW_KEY_ENTER | _ => no_keys end) 1,
                      1 # 60))
           scene 0%nat 1%nat 0%nat 5%nat).
  - split; reflexivity.
  - reflexivity.
Defined.

(** ** What a frame leaves alone *)

Lemma touches_same_world b c p st st' :
  world st' = world st -> touches b c p st st'.
Proof.
  intros H. unfold touches. rewrite H. split_all; auto.
  intros e. cbv zeta. split_all; auto.
Qed.

Lemma touches_refl b c p st : touches b c p st st.
Proof. apply touches_same_world. reflexivity. Qed.

Lemma touches_trans b c p st1 st2 st3 :
  touches b c p st1 st2 -> touches b c p st2 st3 -> touches b c p st1 st3.
Proof.
  intros (L1 & V1 & E1 & O1) (L2 & V2 & E2 & O2). unfold touches.
  split_all.
  - congruence.
  - congruence.
  - intros e. cbv zeta.
    destruct (E1 e) as (A1 & B1 & C1 & D1 & F1 & G1).
    destruct (E2 e) as (A2 & B2 & C2 & D2 & F2 & G2).
    split_all; try congruence.
    intros H. rewrite (G2 H). apply G1, H.
  - intros e Hc Hp. rewrite (O2 e Hc Hp). apply O1; assumption.
Qed.

(** A write through one of the two pointers that changes the position or
    the rotation only. *)
Lemma touches_write b c p (g : Entity -> Entity) e st :
  e = c \/ e = p ->
  (forall a, name (g a) = name a /\ parent (g a) = parent a /\
             scale (localTransform (g a)) = scale (localTransform a) /\
             controller (g a) = controller a /\ player (g a) = player a /\
             camera (g a) = camera a) ->
  touches b c p st (with_world (update_entity g e) st).
Proof.
  intros He Hg. unfold touches. simpl. split_all.
  - apply update_entity_length.
  - apply update_entity_level.
  - intros e'. cbv zeta.
    destruct (entity_at_update_cases g e e' (world st)) as [H|H]; rewrite H.
    + split_all; auto.
    + destruct (Hg (entity_at (world st) e')) as (A & B & C & D & F & G).
      split_all; auto.
  - intros e' Hc Hp. apply update_entity_lookup_ne.
    destruct He; congruence.
Qed.

Lemma touches_position b c p f e st st1 :
  touches b c p st st1 -> e = c \/ e = p ->
  touches b c p st (write_position f e st1).
Proof.
  intros H He. eapply touches_trans; [exact H|].
  apply touches_write; [exact He|]. intros a. split_all; reflexivity.
Qed.

Lemma touches_rotation b c p f e st st1 :
  touches b c p st st1 -> e = c \/ e = p ->
  touches b c p st (write_rotation f e st1).
Proof.
  intros H He. eapply touches_trans; [exact H|].
  apply touches_write; [exact He|]. intros a. split_all; reflexivity.
Qed.

Lemma touches_system b c p g st st1 :
  touches b c p st st1 -> touches b c p st (with_system g st1).
Proof.
  intros H. eapply touches_trans; [exact H|]. apply touches_same_world. reflexivity.
Qed.

Lemma touches_isSlided b c p v st st1 :
  touches b c p st st1 -> touches b c p st (set_isSlided v st1).
Proof.
  intros H. eapply touches_trans; [exact H|]. apply touches_same_world. reflexivity.
Qed.

Lemma touches_motionState b c p v st st1 :
  touches b c p st st1 -> touches b c p st (set_motionState v st1).
Proof.
  intros H. eapply touches_trans; [exact H|]. apply touches_same_world. reflexivity.
Qed.

Lemma touches_pointerLocked b c p v st st1 :
  touches b c p st st1 -> touches b c p st (set_pointerLocked v st1).
Proof.
  intros H. eapply touches_trans; [exact H|]. apply touches_same_world. reflexivity.
Qed.

Lemma touches_fov c p v st :
  touches true c p st (with_world (update_entity (set_fovY v) c) st).
Proof.
  unfold touches. simpl. split_all.
  - apply update_entity_length.
  - apply update_entity_level.
  - intros e'. cbv zeta. destruct (decide (e' = c)) as [->|Hne].
    + destruct (entity_at_update_cases (set_fovY v) c c (world st)) as [H|H];
        rewrite H; split_all; try reflexivity;
        intros [Hb|Hc]; congruence.
    + rewrite entity_at_update_ne by congruence. split_all; reflexivity.
  - intros e' Hc Hp. apply update_entity_lookup_ne. congruence.
Qed.

Lemma touches_weaken c p st st' :
  touches false c p st st' -> touches true c p st st'.
Proof.
  intros (L & V & E & O). unfold touches. split_all; auto.
  intros e. cbv zeta. destruct (E e) as (A & B & C & D & F & G).
  split_all; auto.
Qed.

(** The tests and the writes of a phase, one after the other. *)
Ltac touch :=
  repeat first
    [ apply touches_refl
    | apply touches_position
    | apply touches_rotation
    | apply touches_system
    | apply touches_isSlided
    | apply touches_motionState
    | apply touches_pointerLocked
    | match goal with
      | |- touches _ _ _ _ (if ?b then _ else _) => destruct b
      | |- touches _ _ _ _ (match ?j with
                            | JUMPING => _ | FALLING => _ | GROUNDED => _
                            end) => destruct j
      | |- touches _ _ _ _ (match ?j with Slided => _ | NORMAL => _ end) =>
          destruct j
      end ];
  auto.

Lemma lock_mouse_touches c p app st : touches false c p st (lock_mouse app st).
Proof. apply touches_same_world, lock_mouse_world. Qed.

Lemma clamp_pitch_touches c p st : touches false c p st (clamp_pitch c st).
Proof. unfold clamp_pitch. touch. Qed.

Lemma wrap_yaw_touches c p st : touches false c p st (wrap_yaw c st).
Proof. unfold wrap_yaw. touch. Qed.

Lemma update_fov_touches c p app st : touches true c p st (update_fov app c st).
Proof.
  unfold update_fov.
  destruct (camera _); [|apply touches_refl].
  destruct (controller _); [|apply touches_refl].
  apply touches_fov.
Qed.

Lemma move_keys_touches c p app dt cf cu sens st :
  touches false c p st (move_keys app dt c cf cu sens st).
Proof. unfold move_keys. touch. Qed.

Lemma jump_touches c p app dt st : touches false c p st (jump app dt c st).
Proof.
  unfold jump.
  assert (H1 : touches false c p st (jump_start app dt c st)).
  { unfold jump_start. touch. }
  assert (H2 : touches false c p (jump_start app dt c st)
                 (jump_switch c (jump_start app dt c st))).
  { apply touches_same_world. apply jump_switch_spec. }
  eapply touches_trans; [eapply touches_trans; [exact H1|exact H2]|].
  unfold jump_move. touch.
Qed.

Lemma slide_touches c p app dt st : touches false c p st (slide app dt p st).
Proof.
  unfold slide.
  assert (H1 : touches false c p st (slide_start app p st)).
  { unfold slide_start. touch. }
  eapply touches_trans; [exact H1|].
  unfold slide_end. touch.
Qed.

Lemma run_touches c p app dt cf st : touches false c p st (run app dt c cf st).
Proof. unfold run. touch. Qed.

Lemma strafe_touches c p app dt cr st :
  touches false c p st (strafe app dt c p cr st).
Proof.
  unfold strafe.
  assert (H1 : touches false c p st (strafe_D app dt c p cr st)).
  { unfold strafe_D, step_left, step_right. touch. }
  eapply touches_trans; [exact H1|].
  unfold strafe_A, step_left, step_right. touch.
Qed.

(** The frame after the view stage. *)
Lemma update_found_as_stages toMat4 app dt c p st :
  exists st1,
    touches false c p st st1 /\
    touches false c p (update_fov app c st1)
      (update_found toMat4 app dt c p st) /\
    view_stage app c st = update_fov app c st1.
Proof.
  exists (wrap_yaw c (clamp_pitch c (lock_mouse app st))).
  split_all.
  - eapply touches_trans; [apply lock_mouse_touches|].
    eapply touches_trans; [apply clamp_pitch_touches|apply wrap_yaw_touches].
  - unfold update_found.
    eapply touches_trans; [apply move_keys_touches|].
    eapply touches_trans; [apply jump_touches|].
    eapply touches_trans; [apply slide_touches|].
    eapply touches_trans; [apply run_touches|apply strafe_touches].
  - reflexivity.
Qed.

Lemma update_found_touches toMat4 app dt c p st :
  touches true c p st (update_found toMat4 app dt c p st).
Proof.
  destruct (update_found_as_stages toMat4 app dt c p st) as (st1 & A & B & _).
  eapply touches_trans; [apply touches_weaken, A|].
  eapply touches_trans; [apply update_fov_touches|apply touches_weaken, B].
Qed.

(** X2.  A call of [update] that finds the camera and the player keeps the
    number of entities and the level; it leaves every entity other than
    the camera entity and the player entity as it was; and of every entity
    it keeps the name, the parent, the scale, the controller and the
    player component, and the camera component of every entity but the
    camera entity.  So all it writes are positions and rotations of these
    two entities and the field of view of the camera. *)
Theorem update_writes_poses_and_fov
    (toMat4 : Transform -> mat4) (app : Application) (deltaTime : float)
    (st : State) (cameraEntity playerEntity : nat) :
  found st cameraEntity playerEntity ->
  let st' := update toMat4 app deltaTime st in
  length (entities (world st')) = length (entities (world st)) /\
  level (world st') = level (world st) /\
  (forall e, e <> cameraEntity -> e <> playerEntity ->
             entities (world st') !! e = entities (world st) !! e) /\
  (forall e,
     let a := entity_at (world st) e in
     let a' := entity_at (world st') e in
     name a' = name a /\ parent a' = parent a /\
     scale (localTransform a') = scale (localTransform a) /\
     controller a' = controller a /\ player a' = player a /\
     (e <> cameraEntity -> camera a' = camera a)).
Proof.
  intros F. cbv zeta.
  rewrite (update_when_found toMat4 app deltaTime st _ _ F).
  destruct (update_found_touches toMat4 app deltaTime cameraEntity playerEntity st)
    as (L & V & E & O).
  split_all; try assumption.
  intros e. destruct (E e) as (A & B & C & D & G & H).
  split_all; auto.
Qed.

Lemma update_writes_poses_and_fov_witness :
  let st' := update translation (pressing (fun _ => true) 1) (1 # 60) scene in
  length (entities (world st')) = length (entities (world scene)) /\
  level (world st') = level (world scene) /\
  (forall e, e <> 0%nat -> e <> 1%nat ->
             entities (world st') !! e = entities (world scene) !! e) /\
  (forall e,
     let a := entity_at (world scene) e in
     let a' := entity_at (world st') e in
     name a' = name a /\ parent a' = parent a /\
     scale (localTransform a') = scale (localTransform a) /\
     controller a' = controller a /\ player a' = player a /\
     (e <> 0%nat -> camera a' = camera a)).
Proof.
  apply (update_writes_poses_and_fov translation (pressing (fun _ => true) 1)
           (1 # 60) scene 0%nat 1%nat).
  split; reflexivity.
Defined.



(** ** The rotation of the camera *)

Lemma Qfloor_unit (q : Q) : 0 <= q -> q < 1 -> Qfloor q = 0%Z.
Proof.
  intros H0 H1.
  pose proof (Qfloor_le q) as Hlo.
  pose proof (Qlt_floor q) as Hhi.
  assert (A : (Qfloor q < 1)%Z).
  { rewrite Zlt_Qlt. change (inject_Z 1) with 1. lra. }
  assert (B : (0 < Qfloor q + 1)%Z).
  { rewrite Zlt_Qlt. change (inject_Z 0) with 0. lra. }
  lia.
Qed.

Lemma wrapAngle_fixed (a : Q) : 0 <= a -> a < two_pi -> wrapAngle a == a.
Proof.
  intros H0 H1. unfold wrapAngle, fmod.
  assert (Hq0 : 0 <= a / two_pi).
  { apply Qle_shift_div_l; [exact two_pi_pos|]. lra. }
  assert (Hq1 : a / two_pi < 1).
  { apply Qlt_shift_div_r; [exact two_pi_pos|]. lra. }
  rewrite (Qfloor_unit _ Hq0 Hq1).
  change (inject_Z 0) with 0.
  rewrite Qabs_pos; lra.
Qed.

Lemma clamped_pitch_fixed (a : float) :
  - pitch_limit <= a -> a <= pitch_limit -> clamped_pitch a = a.
Proof.
  unfold clamped_pitch, pitch_limit. intros H0 H1.
  destruct (flt a (- half_pi * (99 # 100))) eqn:E1.
  - apply flt_spec in E1. lra.
  - destruct (fgt a (half_pi * (99 # 100))) eqn:E2; [|reflexivity].
    apply fgt_spec in E2. lra.
Qed.

(** X6.  [update] never turns the camera by itself: when the pitch of the
    camera is within the limit and its yaw is in [[0, two_pi)], a call that
    finds the camera and another entity as player leaves the rotation of
    the camera as it was, whatever the keys, the mouse button and the
    wheel. *)
Theorem update_only_normalises_rotation
    (toMat4 : Transform -> mat4) (app : Application) (deltaTime : float)
    (st : State) (cameraEntity playerEntity : nat) :
  found st cameraEntity playerEntity ->
  cameraEntity <> playerEntity ->
  - pitch_limit <= vx (rotation_of st cameraEntity) <= pitch_limit ->
  0 <= vy (rotation_of st cameraEntity) < two_pi ->
  veq (rotation_of (update toMat4 app deltaTime st) cameraEntity)
      (rotation_of st cameraEntity).
Proof.
  intros F Hne [P0 P1] [Y0 Y1].
  rewrite (update_when_found toMat4 app deltaTime st _ _ F).
  destruct (found_valid _ _ _ F) as [Hc Hp].
  pose proof (update_found_summary toMat4 app deltaTime _ _ st Hc Hp Hne) as H.
  cbv zeta in H. destruct H as (_ & R & _).
  destruct (view_stage_spec app cameraEntity st Hc)
    as (_ & _ & _ & _ & _ & _ & RX & RY & RZ).
  rewrite R. unfold veq. rewrite RX, RY, RZ.
  rewrite (clamped_pitch_fixed _ P0 P1).
  split_all; [reflexivity|apply wrapAngle_fixed; assumption|reflexivity].
Qed.

Lemma update_only_normalises_rotation_witness :
  veq (rotation_of (update translation (mkApplication (fun _ => true) true 5 1)
                      (1 # 60) scene) 0)
      (rotation_of scene 0).
Proof.
  apply (update_only_normalises_rotation translation
           (mkApplication (fun _ => true) true 5 1) (1 # 60) scene 0%nat 1%nat).
  - split; reflexivity.
  - lia.
  - vm_compute. split; discriminate.
  - vm_compute. split; [discriminate|reflexivity].
Defined.

(** ** The height of the camera over all frames *)

Lemma in_band_proper D j (y y' : float) : y == y' -> in_band D j y -> in_band D j y'.
Proof.
  intros H. unfold in_band. destruct j; rewrite H; auto.
Qed.

Lemma band_step app dt D j sl (y : float) :
  0 <= dt -> dt <= D -> in_band D j y ->
  in_band D (next_jumpState app dt j sl y) (next_height app dt j sl y).
Proof.
  intros H0 HD Hb. unfold next_height, next_jumpState, lifted.
  destruct (jump_starts app j sl) eqn:Ej.
  - assert (Hj : j = GROUNDED).
    { unfold jump_starts in Ej. destruct j; simpl in Ej;
        rewrite ?andb_false_r in Ej; congruence. }
    subst j. simpl in Hb.
    destruct (fge (y + dt * jumpSpeed) jumpMaxHeight) eqn:E1.
    + apply fge_spec in E1. unfold in_band, jumpSpeed, jumpMaxHeight in *. lra.
    + apply fge_false in E1.
      destruct (fle (y + dt * jumpSpeed) 1) eqn:E2.
      * reflexivity.
      * apply fle_false in E2.
        unfold in_band, jumpSpeed, jumpMaxHeight in *. lra.
  - destruct (fge y jumpMaxHeight) eqn:E1.
    + apply fge_spec in E1.
      destruct j; unfold in_band, jumpSpeed, jumpMaxHeight in *; lra.
    + apply fge_false in E1.
      destruct (fle y 1) eqn:E2.
      * reflexivity.
      * apply fle_false in E2.
        destruct j; unfold in_band, jumpSpeed, jumpMaxHeight in *; lra.
Qed.



(* ================================================================== *)
(** * More of the loader *)
(* ================================================================== *)

Section MoreLoading.

Variable readEntity : json -> Entity -> Entity.

Lemma deserialize_each_app (a b : list json) (par : option nat) (s : Loader) :
  deserialize_each readEntity (a ++ b) par s
  = (s1 ← deserialize_each readEntity a par s;
     deserialize_each readEntity b par s1).
Proof.
  revert s. induction a as [|d a IH]; intros s; simpl.
  - reflexivity.
  - destruct (deserialize_entity readEntity d par s) as [s1| |]; simpl.
    + apply IH.
    + reflexivity.
    + reflexivity.
Qed.

(** X13.  Deserializing the concatenation of two arrays is deserializing
    the first and then the second, in the state the first has left; if the
    first run throws or starves, so does the whole. *)
Theorem deserialize_concatenation (a b : list json) (par : option nat)
    (s : Loader) :
  deserialize readEntity (Jarr (a ++ b)) par s
  = (s1 ← deserialize readEntity (Jarr a) par s;
     deserialize readEntity (Jarr b) par s1).
Proof.
  rewrite !deserialize_array.
  rewrite deserialize_each_app.
  destruct (deserialize_each readEntity a par s) as [s1| |];
    [|reflexivity|reflexivity].
  change (deserialize_each readEntity b par s1
          = deserialize readEntity (Jarr b) par s1).
  symmetry. apply deserialize_array.
Qed.

Lemma created_level d par s :
  level (this (created readEntity d par s)) = level (this s) /\
  randoms (created readEntity d par s) = randoms s.
Proof. unfold created. rewrite create_spec. split; reflexivity. Qed.

Lemma duplicate_entities_level d par s s' :
  duplicate_entities readEntity d par s = Done s' ->
  level (this s') = level (this s).
Proof.
  rewrite duplicate_entities_cases.
  destruct (at_key "duplicates" d) as [dj|]; [|intros H; inversion H; reflexivity].
  destruct (get_vec3 dj) as [dup|]; [|discriminate].
  destruct (to_bool (vz dup)) eqn:Eb; intros H.
  - destruct (duplicate_loop_random readEntity _ _ _ _ _ _ _ Eb H)
      as (pls & _ & _ & L & _). exact L.
  - destruct (duplicate_loop_linear readEntity
                (Z.to_nat (to_int (vx dup) - 1)) 1 d dup par s Eb)
      as (s0 & H0 & _ & L & _).
    rewrite H0 in H. inversion H; subst. exact L.
Qed.

Lemma deserialize_level data par s s' :
  deserialize readEntity data par s = Done s' ->
  level (this s') = level (this s).
Proof.
  apply (deserialize_rel readEntity
           (fun _ s s' => level (this s') = level (this s))).
  - reflexivity.
  - intros d p0 s0 s2 s3 s4 newEntity Hc Hd H4.
    rewrite H4, (duplicate_entities_level _ _ _ _ Hd).
    destruct Hc as [->|(c & _ & _ & Hf)].
    + apply created_level.
    + rewrite Hf. apply created_level.
Qed.

(** X14.  A run of [deserialize] that returns only adds: the entities that
    were in the world are still there, unchanged and at the same indices,
    the level is the same, every cell of the grid that was occupied still
    is, and the log of placements has only grown. *)
Theorem deserialize_only_adds (data : json) (par : option nat)
    (s s' : Loader) :
  deserialize readEntity data par s = Done s' ->
  (exists added, entities (this s') = entities (this s) ++ added) /\
  (forall e ent, entities (this s) !! e = Some ent ->
                 entities (this s') !! e = Some ent) /\
  level (this s') = level (this s) /\
  (forall v h, occupied (entityMap s) v h = true ->
               occupied (entityMap s') v h = true) /\
  (exists new, placed s' = new ++ placed s).
Proof.
  intros H.
  destruct (deserialize_fills readEntity data par s s' H)
    as ([added Ha] & Ho & _ & (new & Hn & _)).
  split_all.
  - exists added. exact Ha.
  - intros e ent He. rewrite Ha. apply lookup_app_l_Some. exact He.
  - apply (deserialize_level data par s s' H).
  - exact Ho.
  - exists new. exact Hn.
Qed.

End MoreLoading.

Lemma deserialize_only_adds_witness :
  (exists added, entities (this scattered)
                 = entities (this (fresh some_randoms)) ++ added) /\
  (forall e ent, entities (this (fresh some_randoms)) !! e = Some ent ->
                 entities (this scattered) !! e = Some ent) /\
  level (this scattered) = level (this (fresh some_randoms)) /\
  (forall v h, occupied (entityMap (fresh some_randoms)) v h = true ->
               occupied (entityMap scattered) v h = true) /\
  (exists new, placed scattered = new ++ placed (fresh some_randoms)).
Proof.
  apply (deserialize_only_adds read_position scattered_cans None
           (fresh some_randoms) scattered).
  vm_compute. reflexivity.
Defined.

(** ** The random numbers and the search for a free cell *)



Lemma all_cells_spec (c : Z * Z) : in_grid c -> In c all_cells.
Proof.
  destruct c as [v h]. intros [Hv Hh]. simpl in Hv, Hh.
  unfold all_cells. apply in_prod; apply list_elem_of_In, elem_of_seqZ.
  - unfold ENTITIES_UPPER_LIMIT in *. lia.
  - lia.
Qed.

Lemma saturated_spec m v h :
  saturated m = true -> in_grid (v, h) -> occupied m v h = true.
Proof.
  intros H Hc. unfold saturated in H. rewrite forallb_forall in H.
  apply (H (v, h)), all_cells_spec, Hc.
Qed.

Lemma while_occupied_saturated m (rs : list N) :
  saturated m = true ->
  forall h v, in_grid (v, h) -> while_occupied m h v rs = Starved.
Proof.
  intros Hs.
  assert (H : forall n (rs : list N) h v,
             (length rs <= n)%nat -> in_grid (v, h) ->
             while_occupied m h v rs = Starved).
  { induction n as [|n IH]; intros rs0 h v Hn Hc;
      destruct rs0 as [|r1 [|r2 rs0]]; simpl in *;
      rewrite (saturated_spec m v h Hs Hc); try reflexivity; try lia.
    apply IH; [lia|apply random_cell_in_grid]. }
  intros h v. apply (H (length rs)). lia.
Qed.

Section Saturation.

Variable readEntity : json -> Entity -> Entity.

(** X16.  When every cell of the grid is occupied, a round of the
    duplicates loop with random placement never comes to an end: whatever
    values [rand()] gives and however many of them, the search for a free
    cell is still running when they are used up. *)
Theorem no_free_cell_no_end (todo : nat) (i : Z) (entityData : json)
    (duplicates : vec3) (par : option nat) (s : Loader) :
  saturated (entityMap s) = true ->
  to_bool (vz duplicates) = true ->
  duplicate_loop readEntity (S todo) i entityData duplicates par s = Starved.
Proof.
  intros Hs Hb. cbn [duplicate_loop]. rewrite create_spec, Hb.
  unfold place_random. cbn [randoms entityMap].
  destruct (randoms s) as [|r1 [|r2 rs]]; try reflexivity.
  cbn [generateRandomNumber mbind outcome_bind bind].
  rewrite (while_occupied_saturated (entityMap s) rs Hs _ _
             (random_cell_in_grid r1 r2)).
  reflexivity.
Qed.

End Saturation.

Lemma no_free_cell_no_end_witness :
  duplicate_loop read_position 2 1 (Jobj []) (Vec3 3 0 1) None
    (crowded [3; 10; 5; 20; 6; 399]%N) = Starved.
Proof.
  apply (no_free_cell_no_end read_position 1 1 (Jobj []) (Vec3 3 0 1) None
           (crowded [3; 10; 5; 20; 6; 399]%N)).
  - vm_compute. reflexivity.
  - reflexivity.
Defined.

Lemma while_occupied_skips m (busy : list (N * N)) (r : N * N) (rs : list N) :
  Forall (fun d => occupied m (fst (drawn_cell d)) (snd (drawn_cell d)) = true)
         busy ->
  occupied m (fst (drawn_cell r)) (snd (drawn_cell r)) = false ->
  forall h v,
    occupied m v h = true ->
    while_occupied m h v (draws_of busy ++ fst r :: snd r :: rs)
    = Done (snd (drawn_cell r), fst (drawn_cell r), rs).
Proof.
  intros Hb Hr. induction Hb as [|d busy Hd _ IH]; intros h v Ho.
  - simpl. rewrite Ho. apply while_occupied_ends. exact Hr.
  - simpl. rewrite Ho. apply IH. exact Hd.
Qed.

(** X15.  The search of lines 46-51 takes the first free cell that is
    drawn: when the draws name occupied cells and then a free one, the
    placement returns with exactly these draws consumed, logs that cell
    for the entity and marks it occupied. *)
Theorem place_random_takes_first_free (e : nat) (s : Loader)
    (busy : list (N * N)) (r : N * N) (rs : list N) :
  grid_shape (entityMap s) ->
  randoms s = draws_of busy ++ fst r :: snd r :: rs ->
  Forall (fun d => occupied (entityMap s) (fst (drawn_cell d)) (snd (drawn_cell d))
                   = true) busy ->
  occupied (entityMap s) (fst (drawn_cell r)) (snd (drawn_cell r)) = false ->
  exists s',
    place_random e s = Done s' /\
    randoms s' = rs /\
    placed s' = mkPlacement e (fst (drawn_cell r)) (snd (drawn_cell r)) :: placed s /\
    entityMap s' = occupy (entityMap s) (fst (drawn_cell r)) (snd (drawn_cell r)) /\
    occupied (entityMap s') (fst (drawn_cell r)) (snd (drawn_cell r)) = true.
Proof.
  intros Hg Hrs Hb Hr. unfold place_random. rewrite Hrs.
  assert (Hw : exists rs0 h0 v0,
             generateRandomNumber 0 6 (draws_of busy ++ fst r :: snd r :: rs)
             = Done (h0, rs0) /\
             exists rs1, generateRandomNumber 0 (ENTITIES_UPPER_LIMIT - 1) rs0
                         = Done (v0, rs1) /\
             while_occupied (entityMap s) h0 v0 rs1
             = Done (snd (drawn_cell r), fst (drawn_cell r), rs)).
  { destruct Hb as [|d busy Hd Hb].
    - exists (snd r :: rs), (snd (drawn_cell r)), (fst (drawn_cell r)).
      split; [reflexivity|]. exists rs. split; [reflexivity|].
      apply while_occupied_ends. exact Hr.
    - exists (snd d :: draws_of busy ++ fst r :: snd r :: rs),
             (snd (drawn_cell d)), (fst (drawn_cell d)).
      split; [reflexivity|].
      exists (draws_of busy ++ fst r :: snd r :: rs). split; [reflexivity|].
      apply while_occupied_skips; assumption. }
  destruct Hw as (rs0 & h0 & v0 & G1 & rs1 & G2 & W).
  rewrite G1. cbn [mbind outcome_bind bind]. rewrite G2.
  cbn [mbind outcome_bind bind]. rewrite W. cbn [mbind outcome_bind bind].
  eexists. split; [reflexivity|]. cbn [randoms placed entityMap].
  split_all; try reflexivity.
  apply occupied_occupy; [exact Hg|].
  apply (random_cell_in_grid (fst r) (snd r)).
Qed.

Lemma place_random_takes_first_free_witness :
  exists s',
    place_random 1 one_placed = Done s' /\
    randoms s' = [] /\
    placed s' = mkPlacement 1 (fst (drawn_cell (5, 20)%N))
                  (snd (drawn_cell (5, 20)%N)) :: placed one_placed /\
    entityMap s' = occupy (entityMap one_placed)
                     (fst (drawn_cell (5, 20)%N)) (snd (drawn_cell (5, 20)%N)) /\
    occupied (entityMap s') (fst (drawn_cell (5, 20)%N))
      (snd (drawn_cell (5, 20)%N)) = true.
Proof.
  apply (place_random_takes_first_free 1 one_placed [(3, 10)%N] (5, 20)%N []).
  - apply grid_shape_occupy, grid_shape_init.
  - reflexivity.
  - repeat constructor.
  - reflexivity.
Defined.

(** ** The duplicates block at its edges *)

Lemma to_int_below (q : Q) (n : Z) :
  (0 < n)%Z -> q < inject_Z n -> (to_int q < n)%Z.
Proof.
  intros Hn H. unfold to_int. destruct q as [a d]. unfold Qlt in H. simpl in *.
  destruct (Z_lt_le_dec a 0) as [Hneg|Hpos].
  - assert (Z.quot a (Z.pos d) <= 0)%Z; [|lia].
    rewrite <- (Z.opp_involutive a), Z.quot_opp_l by lia.
    assert (0 <= Z.quot (- a) (Z.pos d))%Z by (apply Z.quot_pos; lia).
    lia.
  - apply Z.quot_lt_upper_bound; lia.
Qed.

Section Edges.

Variable readEntity : json -> Entity -> Entity.

(** X18.  A [duplicates] entry whose count is below 2 (zero, negative, or a
    fraction such as 1.9) adds no entity and changes nothing, with either
    kind of placement. *)
Theorem fewer_than_two_duplicates (d dj : json) (duplicates : vec3)
    (par : option nat) (s : Loader) :
  at_key "duplicates" d = Some dj ->
  get_vec3 dj = Some duplicates ->
  vx duplicates < 2 ->
  duplicate_entities readEntity d par s = Done s.
Proof.
  intros Hk Hv Hc. rewrite duplicate_entities_cases, Hk, Hv.
  assert (H : (to_int (vx duplicates) < 2)%Z)
    by (apply to_int_below; [lia|exact Hc]).
  replace (Z.to_nat (to_int (vx duplicates) - 1)) with 0%nat by lia.
  reflexivity.
Qed.


(** X17.  However many scenes are loaded, no more copies are placed at
    random than the grid has cells: after a run of [deserialize] that
    returns from a state whose grid is in order, the log of placements has
    at most 7 * 400 entries. *)
Theorem random_copies_bounded (data : json) (par : option nat)
    (s s' : Loader) :
  grid_inv s ->
  deserialize readEntity data par s = Done s' ->
  (length (placed s') <= 7 * Z.to_nat ENTITIES_UPPER_LIMIT)%nat.
Proof.
  intros Hi H.
  destruct (deserialize_fills readEntity data par s s' H) as (_ & _ & Hg & _).
  destruct (Hg Hi) as (_ & Hnd & Hall).
  rewrite <- (length_map cell).
  assert (Hlen : length all_cells = (7 * Z.to_nat ENTITIES_UPPER_LIMIT)%nat)
    by (vm_compute; reflexivity).
  rewrite <- Hlen.
  apply submseteq_length, NoDup_submseteq; [exact Hnd|].
  intros c Hc. apply list_elem_of_In, all_cells_spec.
  apply list_elem_of_fmap in Hc as (pl & -> & Hpl).
  rewrite Forall_forall in Hall. apply (Hall pl Hpl).
Qed.

End Edges.

Lemma fewer_than_two_duplicates_witness :
  duplicate_entities read_position
    (Jobj [("duplicates"%string, Jarr [Jnum (19 # 10); Jnum 10; Jbool true])])
    None (fresh []) = Done (fresh []).
Proof.
  apply (fewer_than_two_duplicates read_position
           (Jobj [("duplicates"%string, Jarr [Jnum (19 # 10); Jnum 10; Jbool true])])
           (Jarr [Jnum (19 # 10); Jnum 10; Jbool true])
           (Vec3 (19 # 10) 10 1) None (fresh [])).
  - reflexivity.
  - reflexivity.
  - reflexivity.
Defined.


Lemma random_copies_bounded_witness :
  (length (placed scattered) <= 7 * Z.to_nat ENTITIES_UPPER_LIMIT)%nat.
Proof.
  apply (random_copies_bounded read_position scattered_cans None
           (fresh some_randoms) scattered).
  - apply grid_inv_fresh.
  - vm_compute. reflexivity.
Defined.

(* ================================================================== *)
(** * More of the level selection *)
(* ================================================================== *)

Section MoreMenu.

Variable isInside : Button -> vec2 -> bool.

Lemma hover_loop (v : vec2) (bs : list Button) :
  forall (buttonHover isHover : bool) (n : nat),
    fold_left (hover_button isInside v) bs (buttonHover, isHover, n)
    = (buttonHover || hovered isInside bs v,
       isHover || hovered isInside bs v,
       (n + (if hovered isInside bs v && negb buttonHover then 1 else 0))%nat).
Proof.
  unfold hovered.
  induction bs as [|b bs IH]; intros bh ih n; simpl.
  - rewrite !orb_false_r, Nat.add_0_r. reflexivity.
  - destruct (isInside b v); simpl.
    + destruct bh; simpl; rewrite IH; simpl;
        rewrite ?orb_true_r, ?andb_false_r, ?Nat.add_0_r; f_equal; lia.
    + apply IH.
Qed.

Lemma hover_spec (v : vec2) (bs : list Button) (buttonHover : bool) (n : nat) :
  hover isInside v bs buttonHover n
  = (hovered isInside bs v,
     (n + (if hovered isInside bs v && negb buttonHover then 1 else 0))%nat).
Proof.
  unfold hover. rewrite hover_loop. simpl.
  destruct (hovered isInside bs v), buttonHover; reflexivity.
Qed.

(** X22.  In a frame of the level selection the hover flag ends up set
    exactly when the cursor is inside one of the buttons, the clock and the
    tint are those of the fade-in, and the button sound is started once if
    the cursor is inside a button and the flag was not set, and not at all
    otherwise: not twice when two buttons contain the cursor, and not again
    while the cursor stays on a button. *)
Theorem hover_cue_once (deltaTime : float) (inp : Input) (s : Screen) :
  let over := hovered isInside buttons (mousePosition inp) in
  let s' := onDraw_screen isInside deltaTime inp s in
  levels s' = onDraw deltaTime over (levels s) /\
  cues s' = (cues s + (if over && negb (buttonHover (levels s)) then 1 else 0))%nat.
Proof.
  cbv zeta. unfold onDraw_screen. rewrite hover_spec. split; reflexivity.
Qed.

(** X20.  Whatever the hit test, a frame of the level selection either
    starts a level or leaves the game alone.  When space was just pressed,
    or the mouse was just pressed inside a button, then afterwards the can
    counter is 0, the level is 1, 2 or 3, the hearts are 4 minus the level
    and the state asked for is "play".  Otherwise level, cans and hearts
    are as before, and the state asked for is "menu" if escape was just
    pressed and as before if not. *)
Theorem every_start_is_consistent (deltaTime : float) (inp : Input)
    (s : Screen) :
  let a := game s in
  let a' := game (onDraw_screen isInside deltaTime inp s) in
  let started :=
    space_justPressed inp
    || (mouse_justPressed inp && hovered isInside buttons (mousePosition inp)) in
  if started then
    countPepsi a' = 0%Z /\
    (1 <= game_levelState a' <= 3)%Z /\
    heartCount a' = (4 - game_levelState a')%Z /\
    nextState a' = Some "play"%string
  else
    game_levelState a' = game_levelState a /\
    countPepsi a' = countPepsi a /\
    heartCount a' = heartCount a /\
    nextState a' = (if escape_justPressed inp then Some "menu"%string
                    else nextState a).
Proof.
  cbv zeta. unfold onDraw_screen. rewrite hover_spec. cbn [game].
  unfold click, shortcuts, hovered, buttons.
  destruct (space_justPressed inp), (escape_justPressed inp),
    (mouse_justPressed inp); cbn [fold_left existsb orb andb];
    repeat match goal with
           | |- context [isInside ?b ?v] => destruct (isInside b v)
           end;
    cbn; split_all; try reflexivity; try lia.
Qed.

(** X21.  On a fresh press of the mouse, the last of the buttons that
    contain the cursor decides: for button [i] (counted from 0) the level
    is [i + 1], the hearts are [3 - i], the cans are 0 and the state asked
    for is "play", also when space or escape was pressed in the same
    frame. *)
Theorem last_button_hit_decides (deltaTime : float) (inp : Input)
    (s : Screen) (i : nat) (b : Button) :
  mouse_justPressed inp = true ->
  buttons !! i = Some b ->
  isInside b (mousePosition inp) = true ->
  (forall j b', (i < j)%nat -> buttons !! j = Some b' ->
                isInside b' (mousePosition inp) = false) ->
  let a' := game (onDraw_screen isInside deltaTime inp s) in
  game_levelState a' = (Z.of_nat i + 1)%Z /\
  heartCount a' = (3 - Z.of_nat i)%Z /\
  countPepsi a' = 0%Z /\ nextState a' = Some "play"%string.
Proof.
  intros Hm Hb Hin Hlater. cbv zeta. unfold onDraw_screen. rewrite hover_spec.
  cbn [game]. unfold click. rewrite Hm.
  destruct i as [|[|[|i]]]; simpl in Hb; inversion Hb; subst b; clear Hb.
  - pose proof (Hlater 1%nat _ ltac:(lia) eq_refl) as H1.
    pose proof (Hlater 2%nat _ ltac:(lia) eq_refl) as H2.
    unfold buttons. cbn [fold_left]. rewrite Hin, H1, H2.
    split_all; reflexivity.
  - pose proof (Hlater 2%nat _ ltac:(lia) eq_refl) as H2.
    unfold buttons. cbn [fold_left]. rewrite Hin, H2.
    destruct (isInside _ _); split_all; reflexivity.
  - unfold buttons. cbn [fold_left]. rewrite Hin.
    destruct (isInside _ _); destruct (isInside _ _); split_all; reflexivity.
Qed.

End MoreMenu.

Lemma last_button_hit_decides_witness :
  let inp := mkInput true false true (Vec2 200 320) in
  let a' := game (onDraw_screen inside_rectangle (1 # 60) inp (entered lost_game)) in
  game_levelState a' = (Z.of_nat 1 + 1)%Z /\
  heartCount a' = (3 - Z.of_nat 1)%Z /\
  countPepsi a' = 0%Z /\ nextState a' = Some "play"%string.
Proof.
  apply (last_button_hit_decides inside_rectangle (1 # 60)
           (mkInput true false true (Vec2 200 320)) (entered lost_game) 1%nat
           (mkButton (Vec2 90 300) (Vec2 380 80) (start_level 2 2))).
  - reflexivity.
  - reflexivity.
  - reflexivity.
  - intros j b' Hj Hb. destruct j as [|[|[|j]]]; try lia.
    + inversion Hb. reflexivity.
    + discriminate Hb.
Defined.

(** ** The colours on the screen *)

Lemma ramp_range (u : Q) : 0 <= u -> u <= 1 -> 0 <= u * u * (3 - 2 * u) <= 1.
Proof.
  intros H0 H1. split.
  - pose proof (ramp_mono 0 u ltac:(lra) H0 H1). lra.
  - pose proof (ramp_mono u 1 H0 H1 ltac:(lra)). lra.
Qed.

Lemma smoothstep_range (t : Q) : 0 <= smoothstep 0 2 t <= 1.
Proof.
  rewrite smoothstep_0_2. cbv zeta.
  pose proof (clamp_bounds ((t - 0) / (2 - 0)) 0 1 ltac:(lra)) as [H0 H1].
  apply ramp_range; assumption.
Qed.

Lemma smoothstep_proper (a b : Q) : a == b -> smoothstep 0 2 a == smoothstep 0 2 b.
Proof.
  intros H. apply Qle_antisym; apply smoothstep_mono; lra.
Qed.

Lemma smoothstep_before (t : Q) : t <= 0 -> smoothstep 0 2 t == 0.
Proof.
  intros Ht. apply Qle_antisym; [|apply smoothstep_range].
  apply Qle_trans with (smoothstep 0 2 0); [apply smoothstep_mono, Ht|].
  pose proof smoothstep_start as H. lra.
Qed.


Lemma square_nonneg (w : Q) : 0 <= w * w.
Proof.
  destruct (Qlt_le_dec w 0) as [H|H].
  - assert (E : w * w == (- w) * (- w)) by ring.
    rewrite E. apply Qmult_le_0_compat; lra.
  - apply Qmult_le_0_compat; assumption.
Qed.

Lemma vignette_factor (u v : Q) :
  0 <= u -> u <= 1 -> 0 <= v -> v <= 1 ->
  1 <= 1 + ((u * 2 - 1) * (u * 2 - 1) + (v * 2 - 1) * (v * 2 - 1)) <= 3.
Proof.
  intros U0 U1 V0 V1.
  assert (A : 0 <= u * (1 - u)) by (apply Qmult_le_0_compat; lra).
  assert (B : 0 <= v * (1 - v)) by (apply Qmult_le_0_compat; lra).
  pose proof (square_nonneg (u * 2 - 1)) as C.
  pose proof (square_nonneg (v * 2 - 1)) as D.
  split; [lra|].
  assert (E : (u * 2 - 1) * (u * 2 - 1) == 1 - 4 * (u * (1 - u))) by ring.
  assert (F : (v * 2 - 1) * (v * 2 - 1) == 1 - 4 * (v * (1 - v))) by ring.
  lra.
Qed.

Lemma darkened (c k : Q) : 0 <= c -> 1 <= k -> k <= 3 -> c / 3 <= c / k /\ c / k <= c.
Proof.
  intros Hc H1 H3. split.
  - apply Qle_shift_div_l; [lra|].
    assert (E : c / 3 * k == c * k / 3) by (field).
    rewrite E. apply Qle_shift_div_r; [lra|]. nra.
  - apply Qle_shift_div_r; [lra|]. nra.
Qed.



(* ================================================================== *)
(** * Which entities update works on *)
(* ================================================================== *)

Lemma first_with_cons test ent es i :
  first_with test (ent :: es) i <->
  (i = 0%nat /\ test ent = true) \/
  (test ent = false /\ exists i', i = S i' /\ first_with test es i').
Proof.
  unfold first_with. split.
  - intros [(x & Hx & Tx) Hbefore]. destruct i as [|i'].
    + left. simpl in Hx. inversion Hx; subst. auto.
    + right. split.
      * apply (Hbefore 0%nat ent); [lia|reflexivity].
      * exists i'. split; [reflexivity|]. split.
        -- exists x. auto.
        -- intros k e Hk He. apply (Hbefore (S k) e); [lia|exact He].
  - intros [[-> T]|(T & i' & -> & (x & Hx & Tx) & Hbefore)].
    + split; [exists ent; auto|]. intros k e Hk. lia.
    + split; [exists x; auto|].
      intros k e Hk He. destruct k as [|k].
      * simpl in He. inversion He; subst. exact T.
      * apply (Hbefore k e); [lia|exact He].
Qed.

Lemma find_camera_first (es : list Entity) :
  forall (i : nat) (cam ctl : option nat) (c : nat),
    both cam ctl = false ->
    (find_camera es i cam ctl = (Some c, Some c) <->
     exists k, c = (i + k)%nat /\ first_with has_view es k).
Proof.
  induction es as [|ent es IH]; intros i cam ctl c Hb; simpl.
  - split.
    + intros H. inversion H; subst. discriminate.
    + intros (k & _ & (x & Hx & _) & _). discriminate.
  - fold (both (getComponent camera i ent) (getComponent controller i ent)).
    assert (Hv : both (getComponent camera i ent) (getComponent controller i ent)
                 = has_view ent).
    { unfold both, has_view, getComponent.
      destruct (camera ent), (controller ent); reflexivity. }
    rewrite Hv. destruct (has_view ent) eqn:E.
    + assert (Hc : getComponent camera i ent = Some i /\
                   getComponent controller i ent = Some i).
      { unfold has_view in E. unfold getComponent.
        destruct (camera ent), (controller ent); simpl in E;
          try discriminate; auto. }
      destruct Hc as [-> ->]. split.
      * intros H. inversion H; subst. exists 0%nat. split; [lia|].
        apply first_with_cons. auto.
      * intros (k & -> & Hf). apply first_with_cons in Hf.
        destruct Hf as [[-> _]|(T & _)]; [|congruence].
        rewrite Nat.add_0_r. reflexivity.
    + rewrite IH by exact Hv. split.
      * intros (k & -> & Hf). exists (S k). split; [lia|].
        apply first_with_cons. right. split; [exact E|]. eauto.
      * intros (k & -> & Hf). apply first_with_cons in Hf.
        destruct Hf as [[_ T]|(_ & k' & -> & Hf)]; [congruence|].
        exists k'. split; [lia|exact Hf].
Qed.

Lemma find_player_first (es : list Entity) :
  forall (i : nat) (pl : option nat) (p : nat),
    pl = None ->
    (find_player es i pl = Some p <->
     exists k, p = (i + k)%nat /\ first_with has_player es k).
Proof.
  induction es as [|ent es IH]; intros i pl p Hpl; simpl.
  - subst pl. split.
    + discriminate.
    + intros (k & _ & (x & Hx & _) & _). discriminate.
  - assert (Hv : bool_decide (is_Some (getComponent player i ent))
                 = has_player ent).
    { unfold has_player, getComponent. destruct (player ent); reflexivity. }
    rewrite Hv. destruct (has_player ent) eqn:E.
    + assert (Hc : getComponent player i ent = Some i).
      { unfold has_player in E. unfold getComponent.
        destruct (player ent); simpl in E; try discriminate; auto. }
      rewrite Hc. split.
      * intros H. inversion H; subst. exists 0%nat. split; [lia|].
        apply first_with_cons. auto.
      * intros (k & -> & Hf). apply first_with_cons in Hf.
        destruct Hf as [[-> _]|(T & _)]; [|congruence].
        rewrite Nat.add_0_r. reflexivity.
    + assert (Hn : getComponent player i ent = None).
      { unfold has_player in E. unfold getComponent.
        destruct (player ent); simpl in E; try discriminate; auto. }
      rewrite IH by exact Hn. split.
      * intros (k & -> & Hf). exists (S k). split; [lia|].
        apply first_with_cons. right. split; [exact E|]. eauto.
      * intros (k & -> & Hf). apply first_with_cons in Hf.
        destruct Hf as [[_ T]|(_ & k' & -> & Hf)]; [congruence|].
        exists k'. split; [lia|exact Hf].
Qed.

(** X1.  [update] works on the first entity, in the order of the world's
    entities, that holds both a camera and a controller, and on the first
    that holds a player: if these are [cameraEntity] and [playerEntity],
    the search loops find them and the call is the body of [update] run on
    them, however many other entities hold such components. *)
Theorem update_works_on_first_matches
    (toMat4 : Transform -> mat4) (app : Application) (deltaTime : float)
    (st : State) (cameraEntity playerEntity : nat) :
  first_with has_view (entities (world st)) cameraEntity ->
  first_with has_player (entities (world st)) playerEntity ->
  found st cameraEntity playerEntity /\
  update toMat4 app deltaTime st
  = update_found toMat4 app deltaTime cameraEntity playerEntity st.
Proof.
  intros Hc Hp.
  assert (F : found st cameraEntity playerEntity).
  { split.
    - apply find_camera_first; [reflexivity|]. exists cameraEntity. auto.
    - apply find_player_first; [reflexivity|]. exists playerEntity. auto. }
  split; [exact F|apply update_when_found, F].
Qed.

Lemma update_works_on_first_matches_witness :
  found scene 0 1 /\
  update translation (pressing (only GLFW_KEY_SPACE) 1) (1 # 10) scene
  = update_found translation (pressing (only GLFW_KEY_SPACE) 1) (1 # 10) 0 1 scene.
Proof.
  apply (update_works_on_first_matches translation
           (pressing (only GLFW_KEY_SPACE) 1) (1 # 10) scene 0%nat 1%nat).
  - split; [eexists; split; reflexivity|]. intros k ent Hk. lia.
  - split; [eexists; split; reflexivity|].
    intros k ent Hk He. destruct k as [|k]; [|lia].
    inversion He. reflexivity.
Defined.


(* ================================================================== *)
(** * The street: moving sideways *)
(* ================================================================== *)

Lemma write_height_keeps_xz (h : vec3 -> float) (e0 e : nat) (st : State) :
  vx (position_of (write_position (fun q => set_y (h q) q) e0 st) e)
  = vx (position_of st e) /\
  vz (position_of (write_position (fun q => set_y (h q) q) e0 st) e)
  = vz (position_of st e).
Proof.
  unfold position_of, write_position. simpl.
  destruct (entity_at_update_cases (map_position (fun q => set_y (h q) q))
              e0 e (world st)) as [H|H]; rewrite H; split; reflexivity.
Qed.

Lemma jump_keeps_xz app dt c st e :
  vx (position_of (jump app dt c st) e) = vx (position_of st e) /\
  vz (position_of (jump app dt c st) e) = vz (position_of st e).
Proof.
  assert (H1 : vx (position_of (jump_start app dt c st) e) = vx (position_of st e) /\
               vz (position_of (jump_start app dt c st) e) = vz (position_of st e)).
  { unfold jump_start.
    destruct (_ && negb _); [|split; reflexivity].
    destruct (_ && _); [|split; reflexivity].
    apply (write_height_keeps_xz (fun q => vy q + dt * jumpSpeed) c e
             (with_system (set_jumpState JUMPING) st)). }
  assert (H2 : position_of (jump_switch c (jump_start app dt c st)) e
               = position_of (jump_start app dt c st) e).
  { unfold position_of.
    destruct (jump_switch_spec c (jump_start app dt c st)) as (W & _).
    rewrite W. reflexivity. }
  unfold jump. set (st2 := jump_switch c (jump_start app dt c st)) in *.
  assert (H3 : vx (position_of (jump_move dt c st2) e) = vx (position_of st2 e) /\
               vz (position_of (jump_move dt c st2) e) = vz (position_of st2 e)).
  { unfold jump_move. destruct (jumpState (system st2)).
    - apply (write_height_keeps_xz (fun q => vy q + dt * jumpSpeed)).
    - apply (write_height_keeps_xz (fun q => vy q - dt * jumpSpeed)).
    - apply (write_height_keeps_xz (fun _ => 1)). }
  destruct H1 as [A1 B1], H3 as [A3 B3]. rewrite A3, B3, H2. auto.
Qed.



(* ================================================================== *)
(** * The length of a slide *)
(* ================================================================== *)

Lemma slid_for_steady (inputs : nat -> Application * float) (dt : Q) (k : nat) :
  (forall i, snd (inputs i) = dt) ->
  slid_for inputs k == inject_Z (Z.of_nat k) * dt.
Proof.
  intros Hdt. induction k as [|k IH].
  - simpl. change (inject_Z (Z.of_nat 0)) with 0. lra.
  - cbn [slid_for]. rewrite IH, Hdt, Nat2Z.inj_succ.
    unfold Z.succ. rewrite inject_Z_plus. change (inject_Z 1) with 1. lra.
Qed.



(* ================================================================== *)
(** * The scene graph *)
(* ================================================================== *)

Lemma rooted_app (es added : list Entity) :
  rooted es ->
  (forall i e j, added !! i = Some e -> parent e = Some j ->
                 (j < length es + i)%nat) ->
  rooted (es ++ added).
Proof.
  intros Hr Ha i e j Hi Hp.
  destruct (decide (i < length es)%nat) as [Hlt|Hge].
  - rewrite lookup_app_l in Hi by exact Hlt. eapply Hr; eassumption.
  - rewrite lookup_app_r in Hi by lia.
    pose proof (Ha _ _ _ Hi Hp). lia.
Qed.

Section SceneGraph.

Variable readEntity : json -> Entity -> Entity.

(** What a run adds keeps the graph rooted, when the parent given to the run
    is an entity of the world. *)
Lemma deserialize_rooted_rel (data : json) (par : option nat) (s s' : Loader) :
  deserialize readEntity data par s = Done s' ->
  (exists added, entities (this s') = entities (this s) ++ added) /\
  ((forall j, par = Some j -> (j < length (entities (this s)))%nat) ->
   rooted (entities (this s)) -> rooted (entities (this s'))).
Proof.
  apply (deserialize_rel readEntity
           (fun par s s' =>
              (exists added, entities (this s') = entities (this s) ++ added) /\
              ((forall j, par = Some j -> (j < length (entities (this s)))%nat) ->
               rooted (entities (this s)) -> rooted (entities (this s'))))).
  - intros p0 s0. split; [exists []; rewrite app_nil_r; reflexivity|auto].
  - intros d p0 s0 s2 s3 s4 newEntity Hc Hd [[a4 E4] R4].
    pose proof (created_entities readEntity d p0 s0) as E1.
    destruct (duplicate_entities_adds readEntity d p0 s2 s3 Hd)
      as (copies & E3 & Hcopies & _).
    assert (H2 : (exists a2, entities (this s2)
                             = entities (this (created readEntity d p0 s0)) ++ a2) /\
                 ((forall j, p0 = Some j -> (j < length (entities (this s0)))%nat) ->
                  rooted (entities (this s0)) -> rooted (entities (this s2)))).
    { assert (Hcr : (forall j, p0 = Some j -> (j < length (entities (this s0)))%nat) ->
                    rooted (entities (this s0)) ->
                    rooted (entities (this (created readEntity d p0 s0)))).
      { intros Hp Hr. rewrite E1. apply rooted_app; [exact Hr|].
        intros i e j Hi Hj. destruct i as [|i]; [|discriminate Hi].
        inversion Hi; subst e. rewrite original_parent in Hj.
        pose proof (Hp j Hj). lia. }
      destruct Hc as [->|(c & _ & _ & [a2 E2] & R2)].
      - split; [exists []; rewrite app_nil_r; reflexivity|exact Hcr].
      - split; [exists a2; exact E2|].
        intros Hp Hr. apply R2; [|apply Hcr; assumption].
        intros j Hj. inversion Hj; subst j. rewrite E1, length_app. simpl.
        subst newEntity. lia. }
    destruct H2 as [[a2 E2] R2].
    split.
    + exists ([original readEntity d p0] ++ a2 ++ copies ++ a4).
      rewrite E4, E3, E2, E1, <- !app_assoc. reflexivity.
    + intros Hp Hr.
      assert (L2 : (length (entities (this s0)) <= length (entities (this s2)))%nat).
      { rewrite E2, E1, !length_app. lia. }
      apply R4.
      * intros j Hj. pose proof (Hp j Hj). rewrite E3, length_app. lia.
      * rewrite E3. apply rooted_app; [apply R2; assumption|].
        intros i e j Hi Hj.
        rewrite Forall_forall in Hcopies.
        assert (He : parent e = p0).
        { apply Hcopies. eapply list_elem_of_lookup_2. exact Hi. }
        rewrite He in Hj. pose proof (Hp j Hj). lia.
Qed.

(** X27.  The scene graph stays rooted.  If every parent pointer of the
    world designates an entity created before its child, and the parent
    given to [deserialize] is an entity of the world (or null), then after
    a run that returns every parent pointer again designates an entity
    created before its child: no pointer dangles and no entity is its own
    ancestor. *)
Theorem deserialize_keeps_parents_before_children
    (data : json) (par : option nat) (s s' : Loader) :
  rooted (entities (this s)) ->
  (forall j, par = Some j -> (j < length (entities (this s)))%nat) ->
  deserialize readEntity data par s = Done s' ->
  rooted (entities (this s')).
Proof.
  intros Hr Hp H.
  apply (deserialize_rooted_rel data par s s' H); assumption.
Qed.

End SceneGraph.

Lemma deserialize_keeps_parents_before_children_witness :
  rooted (entities (this family_loaded)).
Proof.
  apply (deserialize_keeps_parents_before_children read_position
           (Jarr [family]) None (fresh []) family_loaded).
  - intros i e j Hi. discriminate Hi.
  - intros j Hj. discriminate Hj.
  - vm_compute. reflexivity.
Defined.
